(** * langkit.expressions.base: the property-expression compiler core

    A shallow embedding of [langkit/expressions/base.py]: the host values
    accepted by [unsugar], the [Frozable] trait, the local-variable table
    ([LocalVars]), abstract variables and their construction cache, dynamic
    variables, the process-wide property stack with its context managers,
    the [construct] entry point and the [render_pre] contract of resolved
    expressions.

    Python objects that are mutated in place live in explicit stores; every
    function that can raise returns an [outcome] next to the store it leaves
    behind, because a raised exception does not undo earlier mutations. *)

From stdpp Require Import gmap strings list fin_maps pretty sorting.

Set Warnings "-register-all".

Open Scope string_scope.
Open Scope list_scope.

(** ** Exceptions and the state-and-exception monad *)

(** The exception classes the module raises. The last two are not Python
    exceptions. [Diverged] marks a recursion of the model that ran out of
    fuel. [Dangling] marks a reference that designates no object of the
    store, which Python cannot express. *)
Inductive exn : Type :=
  | DiagnosticError (msg : string)
  | AssertionError (msg : string)
  | PyException (msg : string)
  | AttributeError (msg : string)
  | IndexError (msg : string)
  | Diverged
  | Dangling.

Inductive outcome (A : Type) : Type :=
  | Ok (a : A)
  | Raise (e : exn).
Arguments Ok {A} a.
Arguments Raise {A} e.

Global Instance exn_eq_dec : EqDecision exn.
Proof. solve_decision. Defined.

Definition is_ok {A} (o : outcome A) : bool :=
  match o with Ok _ => true | Raise _ => false end.

(** A computation over a store [S]: the store is threaded through, and it
    is returned also when the computation raises. *)
Definition M (S A : Type) : Type := S -> S * outcome A.

Definition ret {S A} (a : A) : M S A := fun s => (s, Ok a).
Definition raise {S A} (e : exn) : M S A := fun s => (s, Raise e).
Definition bind {S A B} (m : M S A) (k : A -> M S B) : M S B :=
  fun s => match m s with
           | (s', Ok a) => k a s'
           | (s', Raise e) => (s', Raise e)
           end.
Definition get {S} : M S S := fun s => (s, Ok s).
Definition put {S} (s : S) : M S unit := fun _ => (s, Ok tt).
Definition modify {S} (f : S -> S) : M S unit := fun s => (f s, Ok tt).

(** Python's [try: body finally: cleanup]. *)
Definition try_finally {S A} (body : M S A) (cleanup : S -> S) : M S A :=
  fun s => let '(s', r) := body s in (cleanup s', r).

Declare Scope py_scope.
Delimit Scope py_scope with py.
Notation "x <- c1 ;; c2" := (bind c1 (fun x => c2))
  (at level 100, c1 at next level, right associativity) : py_scope.
Notation "c1 ;;; c2" := (bind c1 (fun _ => c2))
  (at level 100, right associativity) : py_scope.
Open Scope py_scope.

(** The line separator of the generated text. *)
Definition newline : string := String (Ascii.ascii_of_nat 10) EmptyString.

(** [check_source_language(predicate, message)] of [langkit.diagnostics]:
    an error-severity diagnostic is raised as a [DiagnosticError]. *)
Definition check_source_language {S} (predicate : bool) (message : string)
  : M S unit :=
  if predicate then ret tt else raise (DiagnosticError message).

(** Python's [assert cond, message]. *)
Definition py_assert {S} (cond : bool) (message : string) : M S unit :=
  if cond then ret tt else raise (AssertionError message).

(** ** Names *)

(** Modelled from the spec: [langkit.names] is not part of the sources at
    hand. A [Name] is identified with its text in camel-with-underscores
    form ([Name('Unused_1')], [Name('Block_Var')]); adding two names joins
    them with an underscore, which is how the "numeric disambiguator" of
    local variables is suffixed. *)
Module names.

Abbreviation Name := string (only parsing).

Definition add (a b : Name) : Name := a +:+ "_" +:+ b.

Definition is_upper (c : Ascii.ascii) : bool :=
  let n := Ascii.nat_of_ascii c in (65 <=? n)%nat && (n <=? 90)%nat.
Definition is_lower (c : Ascii.ascii) : bool :=
  let n := Ascii.nat_of_ascii c in (97 <=? n)%nat && (n <=? 122)%nat.
Definition lower_char (c : Ascii.ascii) : Ascii.ascii :=
  if is_upper c then Ascii.ascii_of_nat (Ascii.nat_of_ascii c + 32) else c.
Definition upper_char (c : Ascii.ascii) : Ascii.ascii :=
  if is_lower c then Ascii.ascii_of_nat (Ascii.nat_of_ascii c - 32) else c.

(** [Name.lower]: the text in lower case. *)
Fixpoint lower (s : Name) : string :=
  match s with
  | EmptyString => EmptyString
  | String c s' => String (lower_char c) (lower s')
  end.

Fixpoint from_lower_go (word_start : bool) (s : string) : Name :=
  match s with
  | EmptyString => EmptyString
  | String c s' =>
      if (Ascii.nat_of_ascii c =? 95)%nat then String c (from_lower_go true s')
      else String (if word_start then upper_char c else lower_char c)
                  (from_lower_go false s')
  end.

(** [Name.from_lower]: every underscore-separated word is capitalized. *)
Definition from_lower (s : string) : Name := from_lower_go true s.

End names.

(** ** The type registry *)

(** [langkit.compiled_types] is consumed, not owned, by this module: the
    compiled types, their subtype relation [matches], the reference-counting
    flag and the built-in types are an interface. *)
Class TypeRegistry : Type := {
  CompiledType : Type;
  CompiledType_eq_dec :: EqDecision CompiledType;
  CompiledType_countable :: Countable CompiledType;
  matches : CompiledType -> CompiledType -> bool;
  is_refcounted : CompiledType -> bool;
  type_name : CompiledType -> string;
  bool_type : CompiledType;
  long_type : CompiledType;
  symbol_type : CompiledType;
  no_compiled_type : CompiledType;
  bool_type_not_long_type : bool_type <> long_type
}.

(** [resolve_type] leaves an actual type, and an absent one, as they are. *)
Definition resolve_type `{TypeRegistry} (t : option CompiledType)
  : option CompiledType := t.

(** ** Host values and abstract expressions *)

(** References to objects that are mutated in place: properties, abstract
    variables, scopes and resolved expressions are kept in stores and
    designated by their reference. *)
Abbreviation PropRef := nat (only parsing).
Abbreviation VarRef := nat (only parsing).
Abbreviation ScopeRef := nat (only parsing).

(** A local variable is designated by the property whose table holds it,
    and by its (unique) name in that table. *)
Abbreviation LocalVarRef := (nat * string)%type (only parsing).

(** A source location, as [extract_library_location] gives it. *)
Abbreviation Location := (option (string * nat)) (only parsing).

Section Model.
Context `{TypeRegistry}.

(** The Python values that reach [unsugar] and [construct], and the
    abstract expressions of the fragment whose resolution is modelled.
    An integer of Python type [int] is its mathematical value. Operands are
    host values: they are unsugared when their parent is constructed. *)
Inductive PyVal : Type :=
  | PyNone
  | PyBool (b : bool)
  | PyInt (z : Z)
  | PyStr (s : string)
  | PyDefer (target : PyVal)
  | PyOther (repr : string)
  | PyExpr (e : AbstractExpression)
with AbstractExpression : Type :=
  | Literal (location : Location) (literal : PyVal)
  | SymbolLiteral (location : Location) (name : string)
  | Variable_ (v : VarRef)
  | Arithmetic (location : Location) (l r : PyVal) (op : string)
  | Bind (location : Location) (dynvar value to_eval_expr : PyVal)
  | Let_ (location : Location) (vars : list VarRef) (var_exprs : list PyVal)
        (expr : PyVal).

(** The classes of host values, and [issubclass]: [bool] derives from
    [int]. *)
Inductive PyType : Type :=
  | TNoneType | TBool | TInt | TBasestring | TDefer | TOther
  | TAbstractExpression.

Global Instance PyType_eq_dec : EqDecision PyType.
Proof. solve_decision. Defined.

Definition py_type (v : PyVal) : PyType :=
  match v with
  | PyNone => TNoneType
  | PyBool _ => TBool
  | PyInt _ => TInt
  | PyStr _ => TBasestring
  | PyDefer _ => TDefer
  | PyOther _ => TOther
  | PyExpr _ => TAbstractExpression
  end.

Definition issubclass (c target : PyType) : bool :=
  bool_decide (c = target)
  || (bool_decide (c = TBool) && bool_decide (target = TInt)).

Definition isinstance (v : PyVal) (targets : list PyType) : bool :=
  existsb (issubclass (py_type v)) targets.

(** [str(x)] for the values that are formatted into messages and literal
    templates. *)
Definition py_str (v : PyVal) : string :=
  match v with
  | PyNone => "None"
  | PyBool true => "True"
  | PyBool false => "False"
  | PyInt z => pretty z
  | PyStr s => s
  | PyDefer _ => "<Defer>"
  | PyOther repr => repr
  | PyExpr (Literal _ _) => "<Literal>"
  | PyExpr (SymbolLiteral _ name) => "<Symbol " +:+ name +:+ ">"
  | PyExpr (Variable_ _) => "<Var>"
  | PyExpr (Arithmetic _ _ _ op) => "<Op " +:+ op +:+ ">"
  | PyExpr (Bind _ _ _ _) => "<bind>"
  | PyExpr (Let_ _ _ _ _) => "<Let>"
  end.

(** ** Resolved expressions *)

(** The immutable shape of a resolved expression: its identity [id], its
    class, its operands and its static type. What is assigned after the
    node exists ([_result_var], [_render_pre_called], [location], ...) is
    kept in the store under [id]; see [REState].

    Modelled from the spec: [Cast.Expr] belongs to [langkit.expressions],
    outside the sources at hand; it is the downcast wrapper node of the
    specification, holding the wrapped expression and the destination type,
    which is its type. *)
Inductive ResolvedExpression : Type :=
  | VariableExpr (id : nat) (type : CompiledType) (name : option string)
                 (abstract_var : option VarRef)
  | LiteralExpr (id : nat) (template : string) (expr_type : CompiledType)
                (operands : list ResolvedExpression)
  | BasicExpr (id : nat) (template : string) (type : CompiledType)
              (operands : list ResolvedExpression) (requires_incref : bool)
  | SymbolLiteral_Expr (id : nat) (name : string)
  | DynamicVariableBindExpr (id : nat) (dynvar : VarRef)
                            (value_var : LocalVarRef)
                            (value to_eval_expr : ResolvedExpression)
  | Let_Expr (id : nat) (vars var_exprs : list ResolvedExpression)
             (expr : ResolvedExpression)
  | UncheckedCastExpr (id : nat) (expr : ResolvedExpression)
                      (dest_type : CompiledType)
  | Cast_Expr (id : nat) (expr : ResolvedExpression)
              (dest_type : CompiledType).

Definition re_id (e : ResolvedExpression) : nat :=
  match e with
  | VariableExpr id _ _ _ | LiteralExpr id _ _ _ | BasicExpr id _ _ _ _
  | SymbolLiteral_Expr id _ | DynamicVariableBindExpr id _ _ _ _
  | Let_Expr id _ _ _ | UncheckedCastExpr id _ _ | Cast_Expr id _ _ => id
  end.

(** The [type] property: the static type of each class. *)
Fixpoint re_type (e : ResolvedExpression) : CompiledType :=
  match e with
  | VariableExpr _ type _ _ => type
  | LiteralExpr _ _ expr_type _ => expr_type
  | BasicExpr _ _ type _ _ => type
  | SymbolLiteral_Expr _ _ => symbol_type
  | DynamicVariableBindExpr _ _ _ _ to_eval_expr => re_type to_eval_expr
  | Let_Expr _ _ _ expr => re_type expr
  | UncheckedCastExpr _ _ dest_type => dest_type
  | Cast_Expr _ _ dest_type => dest_type
  end.

Definition is_VariableExpr (e : ResolvedExpression) : bool :=
  match e with VariableExpr _ _ _ _ => true | _ => false end.

(** The attributes [ResolvedExpression.__init__] assigns, those assigned
    later ([location] by [construct]), and [_ignored] of variable
    references. *)
Record REState : Type := mkREState {
  _result_var : option LocalVarRef;
  skippable_refcount : bool;
  abstract_expr : option AbstractExpression;
  _render_pre_called : bool;
  re_location : option Location;
  ve_ignored : bool
}.

(** ** Local variables and scopes *)

Record LocalVar : Type := mkLocalVar {
  lv_name : string;
  lv_type : option CompiledType;
  lv_scope : option ScopeRef
}.

Record Scope : Type := mkScope {
  sc_index : nat;
  sc_vars : PropRef;
  sc_parent : option ScopeRef;
  sub_scopes : list ScopeRef;
  sc_variables : list LocalVarRef
}.

Record LocalVars : Type := mkLocalVars {
  local_vars : gmap string LocalVar;
  root_scope : ScopeRef;
  current_scope : ScopeRef
}.

(** The loop of [create_scopeless]:
    [while name in self.local_vars: i += 1; name = orig_name + Name(str(i))].
    [None] when the fuel is exhausted before the loop exits. *)
Fixpoint fresh_name_loop (fuel : nat) (table : gmap string LocalVar)
    (orig_name : string) (i : nat) (name : string) : option string :=
  match fuel with
  | O => None
  | S fuel' =>
      if bool_decide (is_Some (table !! name))
      then fresh_name_loop fuel' table orig_name (i + 1)
             (names.add orig_name (pretty (i + 1)))
      else Some name
  end.

(** [LocalVars.create_scopeless], on the table of one [LocalVars]. The loop
    is given one more round than the table has entries. *)
Definition create_scopeless_in (self : LocalVars) (name : string)
    (type : option CompiledType) : option (LocalVar * LocalVars) :=
  match fresh_name_loop (S (size (local_vars self))) (local_vars self)
                        name 0 name with
  | None => None
  | Some name' =>
      let ret_ := mkLocalVar name' type None in
      Some (ret_, mkLocalVars (<[name' := ret_]> (local_vars self))
                              (root_scope self) (current_scope self))
  end.

(** ** Abstract variables, properties and the world *)

Inductive VarClass : Type :=
  | AbstractVariableClass
  | DynamicVariableClass
  | SelfVariableClass.

Global Instance VarClass_eq_dec : EqDecision VarClass.
Proof. solve_decision. Defined.

(** An [AbstractVariable] object. [argument_name] is set for dynamic
    variables only. The construction cache is the dictionary
    [construct_cache], keyed by the pair (name, type). *)
Record AbstractVariable : Type := mkAbstractVariable {
  av_class : VarClass;
  av_location : Location;
  argument_name : option string;
  _type : option CompiledType;
  local_var : option LocalVarRef;
  _name : option string;
  source_name : option string;
  construct_cache :
    gmap (option string * option CompiledType) ResolvedExpression;
  _ignored : bool
}.

(** An [Argument] of a property, with the abstract variable that stands
    for it in expressions. *)
Record Argument : Type := mkArgument {
  arg_name : string;
  arg_type : CompiledType;
  is_optional : bool;
  is_artificial : bool;
  arg_var : VarRef
}.

Record PropertyDef : Type := mkPropertyDef {
  qualname : string;
  struct : CompiledType;
  pd_expr : option PyVal;
  expected_type : option CompiledType;
  constructed_expr : option ResolvedExpression;
  pd_vars : LocalVars;
  arguments : list Argument;
  _dynamic_vars : option (list VarRef);
  dynvar_binding_stack : list VarRef;
  in_type : bool;
  base_property : option PropRef;
  pd_abstract : bool;
  pd_external : bool
}.

(** The process-wide state: the class-level counters, the stack
    [PropertyDef.__current_properties__], and the stores of the objects that
    are mutated in place. [warnings] collects what [WarningSet] emits. *)
Record World : Type := mkWorld {
  next_object : nat;
  unused_count : nat;
  scope_COUNT : nat;
  expr_count : nat;
  current_properties : list (option PropRef);
  properties : gmap nat PropertyDef;
  variables : gmap nat AbstractVariable;
  scopes : gmap nat Scope;
  resolved : gmap nat REState;
  warnings : list string
}.

Definition set_next_object (n : nat) (w : World) : World :=
  mkWorld n (unused_count w) (scope_COUNT w) (expr_count w)
    (current_properties w) (properties w) (variables w) (scopes w)
    (resolved w) (warnings w).
Definition set_unused_count (n : nat) (w : World) : World :=
  mkWorld (next_object w) n (scope_COUNT w) (expr_count w)
    (current_properties w) (properties w) (variables w) (scopes w)
    (resolved w) (warnings w).
Definition set_scope_COUNT (n : nat) (w : World) : World :=
  mkWorld (next_object w) (unused_count w) n (expr_count w)
    (current_properties w) (properties w) (variables w) (scopes w)
    (resolved w) (warnings w).
Definition set_expr_count (n : nat) (w : World) : World :=
  mkWorld (next_object w) (unused_count w) (scope_COUNT w) n
    (current_properties w) (properties w) (variables w) (scopes w)
    (resolved w) (warnings w).
Definition set_current_properties (l : list (option PropRef)) (w : World)
  : World :=
  mkWorld (next_object w) (unused_count w) (scope_COUNT w) (expr_count w)
    l (properties w) (variables w) (scopes w) (resolved w) (warnings w).
Definition set_properties (m : gmap nat PropertyDef) (w : World) : World :=
  mkWorld (next_object w) (unused_count w) (scope_COUNT w) (expr_count w)
    (current_properties w) m (variables w) (scopes w) (resolved w)
    (warnings w).
Definition set_variables (m : gmap nat AbstractVariable) (w : World)
  : World :=
  mkWorld (next_object w) (unused_count w) (scope_COUNT w) (expr_count w)
    (current_properties w) (properties w) m (scopes w) (resolved w)
    (warnings w).
Definition set_scopes (m : gmap nat Scope) (w : World) : World :=
  mkWorld (next_object w) (unused_count w) (scope_COUNT w) (expr_count w)
    (current_properties w) (properties w) (variables w) m (resolved w)
    (warnings w).
Definition set_resolved (m : gmap nat REState) (w : World) : World :=
  mkWorld (next_object w) (unused_count w) (scope_COUNT w) (expr_count w)
    (current_properties w) (properties w) (variables w) (scopes w) m
    (warnings w).
Definition set_warnings (l : list string) (w : World) : World :=
  mkWorld (next_object w) (unused_count w) (scope_COUNT w) (expr_count w)
    (current_properties w) (properties w) (variables w) (scopes w)
    (resolved w) l.

(** Reading and writing the stores. *)
Definition lookup_store {A} (store : World -> gmap nat A) (r : nat)
  : M World A :=
  fun w => match store w !! r with
           | Some a => (w, Ok a)
           | None => (w, Raise Dangling)
           end.

Definition get_property (p : PropRef) : M World PropertyDef :=
  lookup_store properties p.
Definition put_property (p : PropRef) (pd : PropertyDef) : M World unit :=
  modify (fun w => set_properties (<[p := pd]> (properties w)) w).
Definition get_variable (v : VarRef) : M World AbstractVariable :=
  lookup_store variables v.
Definition put_variable (v : VarRef) (av : AbstractVariable)
  : M World unit :=
  modify (fun w => set_variables (<[v := av]> (variables w)) w).
Definition get_scope (s : ScopeRef) : M World Scope :=
  lookup_store scopes s.
Definition put_scope (s : ScopeRef) (sc : Scope) : M World unit :=
  modify (fun w => set_scopes (<[s := sc]> (scopes w)) w).
Definition get_re_state (id : nat) : M World REState :=
  lookup_store resolved id.
Definition put_re_state (id : nat) (st : REState) : M World unit :=
  modify (fun w => set_resolved (<[id := st]> (resolved w)) w).

Definition lift {A} (o : outcome A) : M World A := fun w => (w, o).

(** Allocation of a new object: its identity is fresh. *)
Definition new_object : M World nat :=
  fun w => (set_next_object (S (next_object w)) w, Ok (next_object w)).

Definition set_pd_vars (vars : LocalVars) (pd : PropertyDef) : PropertyDef :=
  mkPropertyDef (qualname pd) (struct pd) (pd_expr pd) (expected_type pd)
    (constructed_expr pd) vars (arguments pd) (_dynamic_vars pd)
    (dynvar_binding_stack pd) (in_type pd) (base_property pd)
    (pd_abstract pd) (pd_external pd).
Definition set_expected_type (t : option CompiledType) (pd : PropertyDef)
  : PropertyDef :=
  mkPropertyDef (qualname pd) (struct pd) (pd_expr pd) t
    (constructed_expr pd) (pd_vars pd) (arguments pd) (_dynamic_vars pd)
    (dynvar_binding_stack pd) (in_type pd) (base_property pd)
    (pd_abstract pd) (pd_external pd).
Definition set_constructed_expr (e : option ResolvedExpression)
    (pd : PropertyDef) : PropertyDef :=
  mkPropertyDef (qualname pd) (struct pd) (pd_expr pd) (expected_type pd)
    e (pd_vars pd) (arguments pd) (_dynamic_vars pd)
    (dynvar_binding_stack pd) (in_type pd) (base_property pd)
    (pd_abstract pd) (pd_external pd).
Definition set_dynvar_binding_stack (l : list VarRef) (pd : PropertyDef)
  : PropertyDef :=
  mkPropertyDef (qualname pd) (struct pd) (pd_expr pd) (expected_type pd)
    (constructed_expr pd) (pd_vars pd) (arguments pd) (_dynamic_vars pd)
    l (in_type pd) (base_property pd) (pd_abstract pd) (pd_external pd).
Definition set_in_type (b : bool) (pd : PropertyDef) : PropertyDef :=
  mkPropertyDef (qualname pd) (struct pd) (pd_expr pd) (expected_type pd)
    (constructed_expr pd) (pd_vars pd) (arguments pd) (_dynamic_vars pd)
    (dynvar_binding_stack pd) b (base_property pd) (pd_abstract pd)
    (pd_external pd).

Definition set_av_type (t : option CompiledType) (av : AbstractVariable)
  : AbstractVariable :=
  mkAbstractVariable (av_class av) (av_location av) (argument_name av) t
    (local_var av) (_name av) (source_name av) (construct_cache av)
    (_ignored av).
Definition set_local_var (lv : option LocalVarRef) (av : AbstractVariable)
  : AbstractVariable :=
  mkAbstractVariable (av_class av) (av_location av) (argument_name av)
    (_type av) lv (_name av) (source_name av) (construct_cache av)
    (_ignored av).
Definition set_av_name (n : option string) (av : AbstractVariable)
  : AbstractVariable :=
  mkAbstractVariable (av_class av) (av_location av) (argument_name av)
    (_type av) (local_var av) n (source_name av) (construct_cache av)
    (_ignored av).
Definition set_source_name (n : option string) (av : AbstractVariable)
  : AbstractVariable :=
  mkAbstractVariable (av_class av) (av_location av) (argument_name av)
    (_type av) (local_var av) (_name av) n (construct_cache av)
    (_ignored av).
Definition set_construct_cache
    (c : gmap (option string * option CompiledType) ResolvedExpression)
    (av : AbstractVariable) : AbstractVariable :=
  mkAbstractVariable (av_class av) (av_location av) (argument_name av)
    (_type av) (local_var av) (_name av) (source_name av) c (_ignored av).
Definition set_av_ignored (b : bool) (av : AbstractVariable)
  : AbstractVariable :=
  mkAbstractVariable (av_class av) (av_location av) (argument_name av)
    (_type av) (local_var av) (_name av) (source_name av)
    (construct_cache av) b.

(** ** The currently bound property *)

(** [PropertyDef.get]: the top of the stack, [None] when it is empty. The
    stack is a Python list: it grows and shrinks at its end. *)
Definition PropertyDef_get : M World (option PropRef) :=
  fun w => (w, Ok (default None (last (current_properties w)))).

(** An attribute read on the result of [PropertyDef.get()]: an
    [AttributeError] when no property is bound. *)
Definition current_property_attr (attr : string) : M World PropRef :=
  p <- PropertyDef_get ;;
  match p with
  | Some p => ret p
  | None => raise (AttributeError
              ("'NoneType' object has no attribute '" +:+ attr +:+ "'"))
  end.

(** [PropertyDef.get_scope]. *)
Definition PropertyDef_get_scope : M World ScopeRef :=
  p <- current_property_attr "vars" ;;
  pd <- get_property p ;;
  ret (current_scope (pd_vars pd)).

(** ** [LocalVars] and [LocalVars.Scope] on the world *)

Definition get_local_var (var : LocalVarRef) : M World LocalVar :=
  pd <- get_property (fst var) ;;
  match local_vars (pd_vars pd) !! snd var with
  | Some lv => ret lv
  | None => raise Dangling
  end.

Definition put_local_var (var : LocalVarRef) (lv : LocalVar)
  : M World unit :=
  pd <- get_property (fst var) ;;
  put_property (fst var)
    (set_pd_vars (mkLocalVars (<[snd var := lv]> (local_vars (pd_vars pd)))
                    (root_scope (pd_vars pd)) (current_scope (pd_vars pd)))
       pd).

Definition set_current_scope (owner : PropRef) (s : ScopeRef)
  : M World unit :=
  pd <- get_property owner ;;
  put_property owner
    (set_pd_vars (mkLocalVars (local_vars (pd_vars pd))
                    (root_scope (pd_vars pd)) s) pd).

(** [LocalVars.Scope.__init__]: the index comes from the class-level
    counter, and designates the scope in the store. *)
Definition Scope_init (vars : PropRef) (parent : option ScopeRef)
  : M World ScopeRef :=
  w <- get ;;
  let index := scope_COUNT w in
  modify (set_scope_COUNT (S index)) ;;;
  put_scope index (mkScope index vars parent [] []) ;;;
  ret index.

(** [LocalVars.Scope.add]. *)
Definition Scope_add (self : ScopeRef) (var : LocalVarRef) : M World unit :=
  v <- get_local_var var ;;
  py_assert (bool_decide (lv_scope v = None))
    ("Trying to associate a variable to some scope whereas it already"
     +:+ " has one") ;;;
  sc <- get_scope self ;;
  put_scope self (mkScope (sc_index sc) (sc_vars sc) (sc_parent sc)
                    (sub_scopes sc) (sc_variables sc ++ [var])) ;;;
  put_local_var var (mkLocalVar (lv_name v) (lv_type v) (Some self)).

(** [LocalVars.Scope.push]. *)
Definition Scope_push (self : ScopeRef) : M World ScopeRef :=
  sc <- get_scope self ;;
  result <- Scope_init (sc_vars sc) (Some self) ;;
  sc <- get_scope self ;;
  put_scope self (mkScope (sc_index sc) (sc_vars sc) (sc_parent sc)
                    (sub_scopes sc ++ [result]) (sc_variables sc)) ;;;
  set_current_scope (sc_vars sc) result ;;;
  ret result.

(** [LocalVars.Scope.pop]. *)
Definition Scope_pop (self : ScopeRef) : M World ScopeRef :=
  sc <- get_scope self ;;
  pd <- get_property (sc_vars sc) ;;
  cur <- get_scope (current_scope (pd_vars pd)) ;;
  match sc_parent cur with
  | None => raise (AssertionError "Trying to pop the root scope")
  | Some parent =>
      set_current_scope (sc_vars sc) parent ;;;
      ret parent
  end.

(** [LocalVars.create_scopeless] on the [LocalVars] of property [self]. *)
Definition LocalVars_create_scopeless (self : PropRef) (name : string)
    (type : option CompiledType) : M World LocalVarRef :=
  pd <- get_property self ;;
  match create_scopeless_in (pd_vars pd) name type with
  | None => raise Diverged
  | Some (ret_, vars') =>
      put_property self (set_pd_vars vars' pd) ;;;
      ret (self, lv_name ret_)
  end.

(** [LocalVars.create]: the new variable is associated to the current
    scope of the currently bound property. *)
Definition LocalVars_create (self : PropRef) (name : string)
    (type : option CompiledType) : M World LocalVarRef :=
  result <- LocalVars_create_scopeless self name type ;;
  scope <- PropertyDef_get_scope ;;
  Scope_add scope result ;;;
  ret result.

(** [LocalVars.check_scopes]. *)
Definition LocalVars_check_scopes (self : PropRef) : M World unit :=
  pd <- get_property self ;;
  py_assert
    (forallb (fun kv => bool_decide (is_Some (lv_scope (snd kv))))
       (map_to_list (local_vars (pd_vars pd))))
    "a local variable has no scope".

(** ** Construction of resolved expressions *)

(** [ResolvedExpression.__init__] for the object [self], whose [type]
    property is ready. An empty [result_var_name] is falsy. *)
Definition ResolvedExpression_init (self : nat) (self_type : CompiledType)
    (result_var_name : option string) (skippable : bool)
    (abstract : option AbstractExpression) : M World unit :=
  rv <- match result_var_name with
        | Some (String c s) =>
            p <- current_property_attr "vars" ;;
            v <- LocalVars_create p (String c s) (Some self_type) ;;
            ret (Some v)
        | _ => ret None
        end ;;
  put_re_state self (mkREState rv skippable abstract false None false).

(** [VariableExpr(type, name, abstract_var)]; [assert_type] rejects an
    absent type. *)
Definition VariableExpr_new (type : option CompiledType)
    (name : option string) (abstract_var : option VarRef)
  : M World ResolvedExpression :=
  id <- new_object ;;
  match type with
  | None => raise (AssertionError "Wrong type for object")
  | Some t =>
      ResolvedExpression_init id t None true None ;;;
      ret (VariableExpr id t name abstract_var)
  end.

(** [LiteralExpr(template, expr_type, operands)]. *)
Definition LiteralExpr_new (template : string) (expr_type : CompiledType)
    (operands : list ResolvedExpression) : M World ResolvedExpression :=
  id <- new_object ;;
  ResolvedExpression_init id expr_type None true None ;;;
  ret (LiteralExpr id template expr_type operands).

(** [ComputingExpr.__init__] forwards the name of the result variable. *)
Definition ComputingExpr_init (self : nat) (self_type : CompiledType)
    (result_var_name : string) (abstract : option AbstractExpression)
  : M World unit :=
  ResolvedExpression_init self self_type (Some result_var_name) false
    abstract.

(** [BasicExpr(result_var_name, template, type, operands, abstract_expr)]
    with resolved expressions as operands. *)
Definition BasicExpr_new (result_var_name template : string)
    (type : CompiledType) (operands : list ResolvedExpression)
    (abstract : option AbstractExpression) : M World ResolvedExpression :=
  id <- new_object ;;
  ComputingExpr_init id type result_var_name abstract ;;;
  ret (BasicExpr id template type operands true).

(** [SymbolLiteral.Expr(name, abstract_expr)]; the registration of the
    symbol in the compilation context is outside this module. *)
Definition SymbolLiteral_Expr_new (name : string)
    (abstract : option AbstractExpression) : M World ResolvedExpression :=
  id <- new_object ;;
  ComputingExpr_init id symbol_type "Sym" abstract ;;;
  ret (SymbolLiteral_Expr id name).


(** Modelled from the spec: [Cast.Expr(expr, dest_type)] is not in the
    sources at hand; the wrapper is a new node around [expr]. *)
Definition Cast_Expr_new (expr : ResolvedExpression)
    (dest_type : CompiledType) : M World ResolvedExpression :=
  id <- new_object ;;
  ResolvedExpression_init id dest_type None false None ;;;
  ret (Cast_Expr id expr dest_type).

(** ** Abstract variables *)

(** [AbstractVariable.construct]: memoized on the pair (name, type). *)
Definition AbstractVariable_construct (self : VarRef)
  : M World ResolvedExpression :=
  av <- get_variable self ;;
  let typ := resolve_type (_type av) in
  let key := (_name av, typ) in
  match construct_cache av !! key with
  | Some expr => ret expr
  | None =>
      expr <- VariableExpr_new typ (_name av) (Some self) ;;
      av <- get_variable self ;;
      put_variable self
        (set_construct_cache (<[key := expr]> (construct_cache av)) av) ;;;
      ret expr
  end.

(** [AbstractVariable.set_type]. *)
Definition AbstractVariable_set_type (self : VarRef) (type : CompiledType)
  : M World unit :=
  av <- get_variable self ;;
  py_assert (bool_decide (_type av = None))
    "Variable type cannot be set twice" ;;;
  put_variable self (set_av_type (Some type) av) ;;;
  match local_var av with
  | Some lv =>
      v <- get_local_var lv ;;
      put_local_var lv (mkLocalVar (lv_name v) (Some type) (lv_scope v))
  | None => ret tt
  end.

(** [AbstractVariable.create_local_variable]. *)
Definition create_local_variable (self : VarRef) (scope : option ScopeRef)
  : M World unit :=
  av <- get_variable self ;;
  py_assert (bool_decide (local_var av = None)) EmptyString ;;;
  p <- current_property_attr "vars" ;;
  match _name av with
  | None => raise (AttributeError "a name is required")
  | Some name =>
      lv <- LocalVars_create_scopeless p name (_type av) ;;
      put_variable self (set_av_name (Some (snd lv))
                           (set_local_var (Some lv) av)) ;;;
      match scope with
      | Some s => Scope_add s lv
      | None => ret tt
      end
  end.

(** [AbstractVariable.__init__]: a variable named ["_"] is renamed with the
    next value of the class-level counter [unused_count]. The new object is
    returned by its reference. [cls] is the class being instantiated;
    [argument] is the attribute [argument_name] that
    [DynamicVariable.__init__] assigns before it calls this initializer. *)
Definition AbstractVariable_init (cls : VarClass)
    (argument : option string) (name : option string)
    (type : option CompiledType) (create_local : bool)
    (source : option string) (location : Location) : M World VarRef :=
  self <- new_object ;;
  name <- match name with
          | Some n =>
              if bool_decide (names.lower n = "_") then
                w <- get ;;
                let i := unused_count w in
                modify (set_unused_count (S i)) ;;;
                ret (Some ("Unused_" +:+ pretty i))
              else ret (Some n)
          | None => ret None
          end ;;
  put_variable self
    (mkAbstractVariable cls location argument type None name None ∅
       false) ;;;
  (if create_local then create_local_variable self None else ret tt) ;;;
  av <- get_variable self ;;
  put_variable self (set_source_name source av) ;;;
  ret self.

(** [DynamicVariable.__init__]. *)
Definition DynamicVariable_init (name : string) (type : CompiledType)
    (location : Location) : M World VarRef :=
  AbstractVariable_init DynamicVariableClass (Some (names.from_lower name))
    None (Some type) false None location.

(** The [ignored] property of an abstract variable. *)
Definition AbstractVariable_ignored (av : AbstractVariable) : bool :=
  _ignored av || bool_decide (source_name av = Some (names.from_lower "_")).

(** [AbstractVariable.tag_ignored]. *)
Definition tag_ignored (self : VarRef) : M World unit :=
  av <- get_variable self ;;
  put_variable self (set_av_ignored true av).

(** ** Context managers *)

(** A [with] statement over a generator decorated with [@contextmanager]
    whose [yield] stands outside any [try]: the part before the [yield]
    runs, then the managed block, then the part after the [yield]. When the
    managed block raises, the exception is thrown into the generator at the
    [yield], nothing handles it there, and the part after the [yield] is
    not run. The part before the [yield] passes [X] to the part after it
    (its local variables). *)
Definition contextmanager {X B} (before_yield : M World X)
    (after_yield : X -> M World unit) (block : M World B) : M World B :=
  x <- before_yield ;;
  b <- block ;;
  after_yield x ;;;
  ret b.

(** The managers of this module yield no value; a manager is what it does
    to a managed block. *)
Definition ContextManager : Type := forall B : Type, M World B -> M World B.

(** [contextlib.nested]: the managers are entered in order, and exited in
    reverse order. *)
Definition nested (managers : list ContextManager) : ContextManager :=
  fun B block => fold_right (fun cm inner => cm B inner) block managers.

(** Python's [list.pop()], on the stack of a property. *)
Definition dynvar_binding_stack_pop (p : PropRef) : M World VarRef :=
  pd <- get_property p ;;
  match last (dynvar_binding_stack pd) with
  | None => raise (IndexError "pop from empty list")
  | Some top =>
      put_property p
        (set_dynvar_binding_stack (removelast (dynvar_binding_stack pd))
           pd) ;;;
      ret top
  end.

(** [PropertyDef.bind]. *)
Definition PropertyDef_bind (self : PropRef) : ContextManager :=
  fun B =>
    contextmanager
      (modify (fun w => set_current_properties
                          (current_properties w ++ [Some self]) w))
      (fun _ =>
         w <- get ;;
         match current_properties w with
         | [] => raise (IndexError "pop from empty list")
         | l => modify (set_current_properties (removelast l))
         end).

(** [PropertyDef.bind_none]. *)
Definition PropertyDef_bind_none : ContextManager :=
  fun B =>
    contextmanager
      (modify (fun w => set_current_properties
                          (current_properties w ++ [None]) w))
      (fun _ =>
         w <- get ;;
         match current_properties w with
         | [] => raise (IndexError "pop from empty list")
         | l => modify (set_current_properties (removelast l))
         end).

(** The singleton [Self]. *)
Definition Self : VarRef := 0.

(** [SelfVariable.bind_type], for the variable object [self]. *)
Definition bind_type (self : VarRef) (type : option CompiledType)
  : ContextManager :=
  fun B =>
    contextmanager
      (av <- get_variable self ;;
       let _old_type := _type av in
       put_variable self (set_av_type type av) ;;;
       ret _old_type)
      (fun _old_type =>
         av <- get_variable self ;;
         put_variable self (set_av_type _old_type av)).

(** ** Dynamic variables *)

(** [DynamicVariable.is_accepted_in]. *)
Definition is_accepted_in (self : VarRef) (prop : option PropRef)
  : M World bool :=
  match prop with
  | None => ret false
  | Some p =>
      pd <- get_property p ;;
      ret (existsb (fun arg => bool_decide (arg_var arg = self))
             (arguments pd))
  end.

(** [DynamicVariable._bind]. *)
Definition _bind (self : VarRef) (name : option string) : ContextManager :=
  fun B =>
    contextmanager
      (p <- PropertyDef_get ;;
       av <- get_variable self ;;
       let saved := _name av in
       put_variable self (set_av_name name av) ;;;
       match p with
       | None =>
           raise (AttributeError
             "'NoneType' object has no attribute 'dynvar_binding_stack'")
       | Some p =>
           pd <- get_property p ;;
           put_property p
             (set_dynvar_binding_stack (dynvar_binding_stack pd ++ [self])
                pd) ;;;
           ret (p, saved)
       end)
      (fun '(p, saved) =>
         av <- get_variable self ;;
         put_variable self (set_av_name saved av) ;;;
         top <- dynvar_binding_stack_pop p ;;
         py_assert (bool_decide (top = self)) EmptyString).

(** [DynamicVariable.bind_default]. *)
Definition bind_default (self : VarRef) (prop : PropRef) : ContextManager :=
  fun B block =>
    accepted <- is_accepted_in self (Some prop) ;;
    av <- get_variable self ;;
    _bind self (if accepted then argument_name av else None) B block.

(** The [is_bound] property of a dynamic variable. *)
Definition is_bound (self : VarRef) : M World bool :=
  p <- PropertyDef_get ;;
  accepted <- is_accepted_in self p ;;
  av <- get_variable self ;;
  ret (accepted || bool_decide (_name av <> None)).

Definition not_bound_message (av : AbstractVariable) : string :=
  names.lower (default EmptyString (argument_name av))
  +:+ " is not bound in this context: please use the .bind construct"
  +:+ " to bind it first.".

(** [DynamicVariable.construct]. *)
Definition DynamicVariable_construct (self : VarRef)
  : M World ResolvedExpression :=
  bound <- is_bound self ;;
  av <- get_variable self ;;
  check_source_language bound (not_bound_message av) ;;;
  AbstractVariable_construct self.

(** ** [unsugar] *)

(** The location [extract_library_location] reports when an expression
    object is created. *)
Variable extract_library_location : Location.

(** [unsugar(expr, ignore_errors)]. *)
Definition unsugar (expr : PyVal) (ignore_errors : bool) : outcome PyVal :=
  match expr with
  | PyNone => Ok PyNone
  | _ =>
      let expr :=
        if isinstance expr [TBool; TInt]
        then PyExpr (Literal extract_library_location expr)
        else if isinstance expr [TBasestring]
        then PyExpr (SymbolLiteral extract_library_location (py_str expr))
        else match expr with
             | PyDefer target => target
             | _ => expr
             end in
      if ignore_errors || isinstance expr [TAbstractExpression]
      then Ok expr
      else Raise (DiagnosticError
                    ("Invalid abstract expression: " +:+ py_str expr))
  end.

(** ** Messages *)

(** [template.format(key=value)] for one named hole: every occurrence of
    the hole is replaced. [skip] counts the characters of an occurrence
    that remain to be dropped. *)
Fixpoint replace_hole (hole value : string) (skip : nat) (template : string)
  : string :=
  match template with
  | EmptyString => EmptyString
  | String c rest =>
      match skip with
      | S k => replace_hole hole value k rest
      | O =>
          if String.prefix hole template
          then value +:+ replace_hole hole value (String.length hole - 1) rest
          else String c (replace_hole hole value 0 rest)
      end
  end.

Definition format_message (template expected expr_type : string) : string :=
  replace_hole "{expr_type}" expr_type 0
    (replace_hole "{expected}" expected 0 template).

(** Python's truth value of an optional string: an empty string is
    falsy. *)
Definition truthy_msg (m : option string) : option string :=
  match m with
  | Some (String c s) => Some (String c s)
  | _ => None
  end.

(** ** [construct] *)

(** The second argument of [construct]: a type, or a predicate on types. *)
Inductive TypeOrPred : Type :=
  | ExpectedType (t : CompiledType)
  | ExpectedPred (p : CompiledType -> bool).

(** The location of an abstract expression: variables are objects of the
    store. *)
Definition expr_location (e : AbstractExpression) : M World Location :=
  match e with
  | Literal loc _ | SymbolLiteral loc _ | Arithmetic loc _ _ _
  | Bind loc _ _ _ | Let_ loc _ _ _ => ret loc
  | Variable_ v => av <- get_variable v ;; ret (av_location av)
  end.

(** [ret.location = expr.location]. *)
Definition set_location (id : nat) (loc : Location) : M World unit :=
  st <- get_re_state id ;;
  put_re_state id
    (mkREState (_result_var st) (skippable_refcount st) (abstract_expr st)
       (_render_pre_called st) (Some loc) (ve_ignored st)).

(** The part of [construct] that follows [ret = expr.construct()]: the
    check of the result against the expected type or predicate, and the
    implicit downcast. *)
Definition check_expected (ret_ : ResolvedExpression)
    (expected_type_or_pred : option TypeOrPred)
    (custom_msg : option string) (downcast : bool)
  : M World ResolvedExpression :=
  match expected_type_or_pred with
  | Some (ExpectedType expected_type) =>
      let custom_msg :=
        default "Expected type {expected}, got {expr_type}"
                (truthy_msg custom_msg) in
      check_source_language (matches (re_type ret_) expected_type)
        (format_message custom_msg (type_name expected_type)
           (type_name (re_type ret_))) ;;;
      if downcast && bool_decide (expected_type <> re_type ret_)
      then Cast_Expr_new ret_ expected_type
      else ret ret_
  | Some (ExpectedPred pred) =>
      let custom_msg :=
        default "Evaluating predicate on {expr_type} failed"
                (truthy_msg custom_msg) in
      check_source_language (pred (re_type ret_))
        (replace_hole "{expr_type}" (type_name (re_type ret_)) 0
           custom_msg) ;;;
      ret ret_
  | None => ret ret_
  end.

(** The function [construct], given the method [construct] of the classes
    of abstract expressions as [node_construct]. *)
Definition construct_with
    (node_construct : AbstractExpression -> M World ResolvedExpression)
    (expr : PyVal) (expected_type_or_pred : option TypeOrPred)
    (custom_msg : option string) (downcast : bool)
  : M World ResolvedExpression :=
  expr <- lift (unsugar expr false) ;;
  match expr with
  | PyExpr e =>
      ret_ <- node_construct e ;;
      loc <- expr_location e ;;
      set_location (re_id ret_) loc ;;;
      check_expected ret_ expected_type_or_pred custom_msg downcast
  | _ =>
      raise (AttributeError
               "'NoneType' object has no attribute 'diagnostic_context'")
  end.

(** ** The [construct] methods of the abstract expressions *)

(** [dispatch_on_type(typ, assocs, exception)] of [langkit.utils]: the
    action of the first entry whose type [typ] derives from; [exception] is
    raised when there is none. *)
Fixpoint dispatch_on_type {A} (typ : PyType)
    (type_to_action_assocs : list (PyType * (PyType -> A)))
    (exception : exn) : outcome A :=
  match type_to_action_assocs with
  | [] => Raise exception
  | (target_type, action) :: rest =>
      if issubclass typ target_type then Ok (action typ)
      else dispatch_on_type typ rest exception
  end.

(** [Literal.construct]. *)
Definition Literal_construct (literal : PyVal)
  : M World ResolvedExpression :=
  res <- lift (dispatch_on_type (py_type literal)
                 [(TBool, fun _ => (py_str literal, bool_type));
                  (TInt, fun _ => (py_str literal, long_type))]
                 (DiagnosticError "Invalid abstract expression type: {}")) ;;
  let '(lit_str, rtype) := res in
  LiteralExpr_new lit_str rtype [].

(** [SymbolLiteral.construct]. *)
Definition SymbolLiteral_construct (self : AbstractExpression)
    (name : string) : M World ResolvedExpression :=
  SymbolLiteral_Expr_new name (Some self).

(** The method [construct] of a variable object, by its class. *)
Definition Variable_construct (v : VarRef) : M World ResolvedExpression :=
  av <- get_variable v ;;
  match av_class av with
  | DynamicVariableClass => DynamicVariable_construct v
  | _ => AbstractVariable_construct v
  end.

Section Methods.

(** The function [construct], to which the methods recur on their
    operands. *)
Variable construct_ :
  PyVal -> option TypeOrPred -> option string -> bool ->
  M World ResolvedExpression.

(** [Arithmetic.construct]. *)
Definition Arithmetic_construct (self : AbstractExpression)
    (l r : PyVal) (op : string) : M World ResolvedExpression :=
  l <- construct_ l None None true ;;
  r <- construct_ r None None true ;;
  if bool_decide (re_type l = symbol_type)
     && bool_decide (re_type r = symbol_type)
  then
    py_assert (bool_decide (op = "&")) EmptyString ;;;
    BasicExpr_new "Sym_Concat"
      "Find (Self.Unit.TDH.Symbols, ({}.all & {}.all))" symbol_type [l; r]
      None
  else
    check_source_language (bool_decide (re_type l = re_type r))
      ("Incompatible types for " +:+ op +:+ ": " +:+ type_name (re_type l)
       +:+ " and " +:+ type_name (re_type r)) ;;;
    check_source_language
      (bool_decide (re_type l = symbol_type)
       || bool_decide (re_type l = long_type))
      ("Invalid type for " +:+ op +:+ ": " +:+ type_name (re_type l)) ;;;
    BasicExpr_new "Arith_Result" ("({} " +:+ op +:+ " {})") long_type [l; r]
      (Some self).

(** [DynamicVariableBindExpr(dynvar, value_var, value, to_eval_expr,
    abstract_expr)]. *)
Definition DynamicVariableBindExpr_new (dynvar : VarRef)
    (value_var : LocalVarRef) (value to_eval_expr : ResolvedExpression)
    (abstract : option AbstractExpression) : M World ResolvedExpression :=
  id <- new_object ;;
  ComputingExpr_init id (re_type to_eval_expr) "Dyn_Var_Bind_Result"
    abstract ;;;
  ret (DynamicVariableBindExpr id dynvar value_var value to_eval_expr).

(** The expression [bind], registered by [auto_attr]: its [construct]. *)
Definition bind_construct (self : AbstractExpression)
    (dynvar value to_eval_expr : PyVal) : M World ResolvedExpression :=
  dv <- match dynvar with
        | PyExpr (Variable_ v) =>
            av <- get_variable v ;;
            check_source_language
              (bool_decide (av_class av = DynamicVariableClass))
              (".bind must be called on dynamic variables only"
               +:+ " (here, got: " +:+ py_str dynvar +:+ ")") ;;;
            ret (v, av)
        | _ =>
            raise (DiagnosticError
                     (".bind must be called on dynamic variables only"
                      +:+ " (here, got: " +:+ py_str dynvar +:+ ")"))
        end ;;
  let '(v, av) := dv in
  let dynvar_type := resolve_type (_type av) in
  resolved_value <-
    construct_ value (ExpectedType <$> dynvar_type) None true ;;
  p <- current_property_attr "vars" ;;
  value_var <- LocalVars_create p
                 ("Bound_" +:+ default EmptyString (argument_name av))
                 dynvar_type ;;
  _bind v (Some (snd value_var)) _
    (to_eval <- construct_ to_eval_expr None None true ;;
     DynamicVariableBindExpr_new v value_var resolved_value to_eval
       (Some self)).

(** [Let.Expr(vars, var_exprs, expr, abstract_expr)]. *)
Definition Let_Expr_new (vars var_exprs : list ResolvedExpression)
    (expr : ResolvedExpression) (abstract : option AbstractExpression)
  : M World ResolvedExpression :=
  id <- new_object ;;
  ComputingExpr_init id (re_type expr) "Let_Result" abstract ;;;
  ret (Let_Expr id vars var_exprs expr).

(** The loop of [Let.construct] over [zip(self.vars, self.var_exprs)]. *)
Fixpoint Let_construct_bindings (scope : ScopeRef)
    (bindings : list (VarRef * PyVal)) (var_exprs : list ResolvedExpression)
  : M World (list ResolvedExpression) :=
  match bindings with
  | [] => ret var_exprs
  | (var, abs_expr) :: rest =>
      var_expr <- construct_ abs_expr None None true ;;
      AbstractVariable_set_type var (re_type var_expr) ;;;
      av <- get_variable var ;;
      match local_var av with
      | None =>
          raise (AttributeError
                   "'NoneType' object has no attribute '_scope'")
      | Some lv => Scope_add scope lv
      end ;;;
      Let_construct_bindings scope rest (var_exprs ++ [var_expr])
  end.

(** Python's [map(f, l)] for a function with effects. *)
Fixpoint py_map {A B} (f : A -> M World B) (l : list A)
  : M World (list B) :=
  match l with
  | [] => ret []
  | x :: rest => y <- f x ;; ys <- py_map f rest ;; ret (y :: ys)
  end.

(** [Let.construct]. *)
Definition Let_construct (self : AbstractExpression) (vars : list VarRef)
    (var_exprs : list PyVal) (expr : PyVal) : M World ResolvedExpression :=
  scope <- PropertyDef_get_scope ;;
  var_exprs <- Let_construct_bindings scope (zip vars var_exprs) [] ;;
  vars <- py_map (fun v => construct_ (PyExpr (Variable_ v)) None None true)
            vars ;;
  e <- construct_ expr None None true ;;
  Let_Expr_new vars var_exprs e (Some self).

(** Method dispatch: [expr.construct()]. *)
Definition node_construct (e : AbstractExpression)
  : M World ResolvedExpression :=
  match e with
  | Literal _ literal => Literal_construct literal
  | SymbolLiteral _ name => SymbolLiteral_construct e name
  | Variable_ v => Variable_construct v
  | Arithmetic _ l r op => Arithmetic_construct e l r op
  | Bind _ dynvar value to_eval_expr =>
      bind_construct e dynvar value to_eval_expr
  | Let_ _ vars var_exprs expr => Let_construct e vars var_exprs expr
  end.

End Methods.

(** [construct(expr, expected_type_or_pred, custom_msg, downcast)]. The
    recursion of [construct] through the methods of the expressions is
    bounded by [fuel]. *)
Fixpoint construct (fuel : nat) (expr : PyVal)
    (expected_type_or_pred : option TypeOrPred) (custom_msg : option string)
    (downcast : bool) : M World ResolvedExpression :=
  match fuel with
  | O => raise Diverged
  | S fuel' =>
      construct_with (node_construct (construct fuel')) expr
        expected_type_or_pred custom_msg downcast
  end.

(** ** Traversal of resolved expressions *)

(** [flat_subexprs]: the resolved expressions among the operands that
    [subexprs] describes. [Let.Expr.subexprs] files the bound expressions
    in a dictionary under the names of the bound variables; these are
    distinct local variables of one property, and the two lists have the
    same length, so the values of that dictionary are the bound
    expressions. *)
Definition flat_subexprs (e : ResolvedExpression)
  : list ResolvedExpression :=
  match e with
  | VariableExpr _ _ _ _ => []
  | LiteralExpr _ _ _ operands => operands
  | BasicExpr _ _ _ operands _ => operands
  | SymbolLiteral_Expr _ _ => []
  | DynamicVariableBindExpr _ _ _ value to_eval_expr =>
      [value; to_eval_expr]
  | Let_Expr _ _ var_exprs expr => var_exprs ++ [expr]
  | UncheckedCastExpr _ expr _ => [expr]
  | Cast_Expr _ expr _ => [expr]
  end.

(** [_bindings]: the variables a node defines. *)
Definition _bindings (e : ResolvedExpression) : list ResolvedExpression :=
  match e with
  | Let_Expr _ vars _ _ => vars
  | _ => []
  end.

(** The [bindings] property: [_bindings()] of the node, then the bindings
    of every element of [flat_subexprs()]. *)
Fixpoint bindings (e : ResolvedExpression) : list ResolvedExpression :=
  let fix over (l : list ResolvedExpression) : list ResolvedExpression :=
    match l with
    | [] => []
    | x :: rest => bindings x ++ over rest
    end in
  match e with
  | VariableExpr _ _ _ _ => []
  | LiteralExpr _ _ _ operands => over operands
  | BasicExpr _ _ _ operands _ => over operands
  | SymbolLiteral_Expr _ _ => []
  | DynamicVariableBindExpr _ _ _ value to_eval_expr =>
      bindings value ++ bindings to_eval_expr
  | Let_Expr _ vars var_exprs expr =>
      vars ++ over var_exprs ++ bindings expr
  | UncheckedCastExpr _ expr _ => bindings expr
  | Cast_Expr _ expr _ => bindings expr
  end.

(** The dictionary [all_vars] of [warn_on_unused_bindings]: its keys are
    [VariableExpr] objects, compared by identity. *)
Definition AllVars : Type := list (ResolvedExpression * bool).

Fixpoint all_vars_set (var : ResolvedExpression) (used : bool)
    (all_vars : AllVars) : AllVars :=
  match all_vars with
  | [] => [(var, used)]
  | (v, u) :: rest =>
      if bool_decide (re_id v = re_id var) then (v, used) :: rest
      else (v, u) :: all_vars_set var used rest
  end.

(** [mark_vars] of [warn_on_unused_bindings]. *)
Fixpoint mark_vars (e : ResolvedExpression) (all_vars : AllVars) : AllVars :=
  let fix over (l : list ResolvedExpression) (all_vars : AllVars)
    : AllVars :=
    match l with
    | [] => all_vars
    | x :: rest => over rest (mark_vars x all_vars)
    end in
  match e with
  | VariableExpr _ _ _ _ => all_vars_set e true all_vars
  | LiteralExpr _ _ _ operands => over operands all_vars
  | BasicExpr _ _ _ operands _ => over operands all_vars
  | SymbolLiteral_Expr _ _ => all_vars
  | DynamicVariableBindExpr _ _ _ value to_eval_expr =>
      mark_vars to_eval_expr (mark_vars value all_vars)
  | Let_Expr _ _ var_exprs expr => mark_vars expr (over var_exprs all_vars)
  | UncheckedCastExpr _ expr _ => mark_vars expr all_vars
  | Cast_Expr _ expr _ => mark_vars expr all_vars
  end.

(** The attributes [name] and [abstract_var] of a [VariableExpr]. *)
Definition ve_name (e : ResolvedExpression) : option string :=
  match e with VariableExpr _ _ name _ => name | _ => None end.
Definition ve_abstract_var (e : ResolvedExpression) : option VarRef :=
  match e with VariableExpr _ _ _ av => av | _ => None end.

(** [VariableExpr.ignored]. *)
Definition VariableExpr_ignored (e : ResolvedExpression) : M World bool :=
  st <- get_re_state (re_id e) ;;
  match ve_abstract_var e with
  | Some v =>
      av <- get_variable v ;;
      ret (ve_ignored st || AbstractVariable_ignored av)
  | None => ret (ve_ignored st || false)
  end.

(** [VariableExpr.set_ignored]. *)
Definition set_ignored (e : ResolvedExpression) : M World unit :=
  st <- get_re_state (re_id e) ;;
  put_re_state (re_id e)
    (mkREState (_result_var st) (skippable_refcount st) (abstract_expr st)
       (_render_pre_called st) (re_location st) true).

(** [VariableExpr.source_name]. *)
Definition VariableExpr_source_name (e : ResolvedExpression)
  : M World (option string) :=
  match ve_abstract_var e with
  | Some v => av <- get_variable v ;; ret (source_name av)
  | None => ret None
  end.

(** ** Warnings on unused bindings *)

(** [WarningSet.unused_bindings.warn_if(cond, message)]. *)
Definition warn_if (cond : bool) (message : string) : M World unit :=
  if cond then modify (fun w => set_warnings (warnings w ++ [message]) w)
  else ret tt.

(** Python's filter with a predicate that reads the store. *)
Fixpoint py_filter {A} (f : A -> M World bool) (l : list A)
  : M World (list A) :=
  match l with
  | [] => ret []
  | x :: rest =>
      b <- f x ;;
      ys <- py_filter f rest ;;
      ret (if b then x :: ys else ys)
  end.

(** The order of names; an absent name sorts first. *)
Definition name_le (a b : option string) : Prop :=
  match a, b with
  | None, _ => True
  | Some _, None => False
  | Some x, Some y => String.leb x y = true
  end.

Global Instance name_le_dec a b : Decision (name_le a b).
Proof. destruct a, b; simpl; apply _. Defined.

Definition sort_by_name (l : list ResolvedExpression)
  : list ResolvedExpression :=
  merge_sort (fun x y => name_le (ve_name x) (ve_name y)) l.

Fixpoint join (sep : string) (l : list string) : string :=
  match l with
  | [] => EmptyString
  | [x] => x
  | x :: rest => x +:+ sep +:+ join sep rest
  end.

(** [format_list] of [warn_on_unused_bindings]. *)
Definition format_list (vars : list ResolvedExpression) : M World string :=
  texts <- py_map (fun var =>
                     src <- VariableExpr_source_name var ;;
                     ret (names.lower
                            (default (default EmptyString (ve_name var)) src)))
             vars ;;
  ret (join ", " texts).

Fixpoint take_while {A} (pred : A -> bool) (l : list A) : list A :=
  match l with
  | [] => []
  | x :: rest => if pred x then x :: take_while pred rest else []
  end.

Fixpoint drop_while {A} (pred : A -> bool) (l : list A) : list A :=
  match l with
  | [] => []
  | x :: rest => if pred x then drop_while pred rest else l
  end.

(** [funcy.split_by(pred, seq)]. *)
Definition split_by {A} (pred : A -> bool) (l : list A) : list A * list A :=
  (take_while pred l, drop_while pred l).

(** [PropertyDef.natural_arguments]. *)
Definition natural_arguments (pd : PropertyDef) : M World (list Argument) :=
  let '(non_art, art) :=
    split_by (fun a => negb (is_artificial a)) (arguments pd) in
  py_assert (forallb is_artificial art)
    "All artificial arguments must come after all the other ones" ;;;
  ret non_art.

(** The conditions of the two comprehensions of
    [warn_on_unused_bindings]: [not is_used and not var.ignored], and
    [is_used and var.ignored]. *)
Definition unused_binding (entry : ResolvedExpression * bool)
  : M World bool :=
  ignored <- VariableExpr_ignored (fst entry) ;;
  ret (negb (snd entry) && negb ignored).

Definition wrongly_used_binding (entry : ResolvedExpression * bool)
  : M World bool :=
  ignored <- VariableExpr_ignored (fst entry) ;;
  ret (snd entry && ignored).

Section Warn.

Variable construct_ :
  PyVal -> option TypeOrPred -> option string -> bool ->
  M World ResolvedExpression.

(** [PropertyDef.warn_on_unused_bindings]. *)
Definition warn_on_unused_bindings (self : PropRef) : M World unit :=
  pd <- get_property self ;;
  match constructed_expr pd with
  | None =>
      raise (AttributeError "'NoneType' object has no attribute 'bindings'")
  | Some constructed =>
      args <- natural_arguments pd ;;
      arg_vars <- py_map (fun arg =>
                            construct_ (PyExpr (Variable_ (arg_var arg)))
                              None None true) args ;;
      let all_vars : AllVars :=
        fold_left (fun acc var => all_vars_set var false acc)
          (bindings constructed ++ arg_vars) [] in
      let all_vars := mark_vars constructed all_vars in
      unused_vars <- py_filter unused_binding all_vars ;;
      wrongly_used_vars <- py_filter wrongly_used_binding all_vars ;;
      let unused_vars := sort_by_name (fst <$> unused_vars) in
      let wrongly_used_vars := sort_by_name (fst <$> wrongly_used_vars) in
      unused_text <- format_list unused_vars ;;
      warn_if (negb (bool_decide (unused_vars = [])))
        ("The following bindings are not used: " +:+ unused_text) ;;;
      wrong_text <- format_list wrongly_used_vars ;;
      warn_if (negb (bool_decide (wrongly_used_vars = [])))
        ("The following bindings are used even though they are supposed to"
         +:+ " be ignored: " +:+ wrong_text)
  end.

End Warn.

(** ** Construction of a property *)

Definition modify_property (p : PropRef) (f : PropertyDef -> PropertyDef)
  : M World unit :=
  pd <- get_property p ;;
  put_property p (f pd).

(** The assignment [self.in_type = False] of the [finally] clause. *)
Definition reset_in_type (self : PropRef) (w : World) : World :=
  set_properties (alter (set_in_type false) self (properties w)) w.

Section Properties.

Variable construct_ :
  PyVal -> option TypeOrPred -> option string -> bool ->
  M World ResolvedExpression.
Variable construct_and_type_expression_ : PropRef -> M World unit.

(** The [type] property of a property. *)
Definition PropertyDef_type (self : PropRef) : M World CompiledType :=
  pd <- get_property self ;;
  match expected_type pd with
  | Some t => ret t
  | None =>
      (if bool_decide (constructed_expr pd = None)
       then construct_and_type_expression_ self
       else ret tt) ;;;
      pd <- get_property self ;;
      match constructed_expr pd with
      | Some e => ret (re_type e)
      | None =>
          raise (AttributeError "'NoneType' object has no attribute 'type'")
      end
  end.

(** The body of [PropertyDef.construct_and_type_expression]. *)
Definition construct_and_type_expression_body (self : PropRef)
  : M World unit :=
  pd <- get_property self ;;
  if bool_decide (constructed_expr pd <> None) then ret tt
  else
    check_source_language (negb (in_type pd))
      ("Recursion loop in type inference for property " +:+ qualname pd
       +:+ ". Try to specify its return type explicitly.") ;;;
    match pd_expr pd with
    | None =>
        py_assert (pd_abstract pd || pd_external pd) EmptyString ;;;
        match expected_type pd with
        | Some _ => ret tt
        | None =>
            match base_property pd with
            | None =>
                raise (DiagnosticError
                         "This property requires an explicit return type")
            | Some base =>
                t <- PropertyDef_type base ;;
                modify_property self (set_expected_type (Some t))
            end
        end
    | Some expr =>
        previous_property <- PropertyDef_get ;;
        to_reset <- match previous_property with
                    | None => ret []
                    | Some q =>
                        qd <- get_property q ;;
                        ret (dynvar_binding_stack qd)
                    end ;;
        dynamic_vars <- match _dynamic_vars pd with
                        | Some l => ret l
                        | None => raise (AssertionError EmptyString)
                        end ;;
        let context_managers :=
          [PropertyDef_bind self; bind_type Self (Some (struct pd))]
          ++ ((fun dynvar => bind_default dynvar self)
                <$> (to_reset ++ dynamic_vars)) in
        nested context_managers _
          (message <- match base_property pd with
                      | Some base =>
                          bd <- get_property base ;;
                          ret (Some
                            ("expected type {expected}, got {expr_type}"
                             +:+ " instead (expected type comes from"
                             +:+ " overridden base property in "
                             +:+ type_name (struct bd) +:+ ")"))
                      | None => ret None
                      end ;;
           modify_property self (set_in_type true) ;;;
           try_finally
             (pd <- get_property self ;;
              e <- construct_ expr (ExpectedType <$> expected_type pd)
                     message true ;;
              modify_property self (set_constructed_expr (Some e)))
             (reset_in_type self)) ;;;
        LocalVars_check_scopes self ;;;
        warn_on_unused_bindings construct_ self
    end.

End Properties.

(** [PropertyDef.construct_and_type_expression]; the recursion through
    the [type] of a base property is bounded by [fuel], as is the one of
    [construct]. *)
Fixpoint construct_and_type_expression (fuel : nat) (self : PropRef)
  : M World unit :=
  match fuel with
  | O => raise Diverged
  | S fuel' =>
      construct_and_type_expression_body (construct fuel')
        (construct_and_type_expression fuel') self
  end.

(** ** Rendering: [render_pre] *)

Section Rendering.

(** The methods [_render_pre] and [_render_expr], which every class of
    resolved expressions overrides, and [gdb_helper] of
    [langkit.compiled_types]. *)
Variable _render_pre : ResolvedExpression -> M World string.
Variable _render_expr : ResolvedExpression -> M World string.
Variable gdb_helper : list string -> string.
Variable class_name : ResolvedExpression -> string.

(** [ResolvedExpression.render_pre]. *)
Definition render_pre (self : ResolvedExpression) : M World string :=
  st <- get_re_state (re_id self) ;;
  py_assert (negb (_render_pre_called st))
    (class_name self +:+ ".render_pre can be called only once") ;;;
  put_re_state (re_id self)
    (mkREState (_result_var st) (skippable_refcount st) (abstract_expr st)
       (negb (is_VariableExpr self)) (re_location st) (ve_ignored st)) ;;;
  py_assert
    (skippable_refcount st
     || bool_decide (re_type self = no_compiled_type)
     || negb (is_refcounted (re_type self))
     || bool_decide (_result_var st <> None))
    ("ResolvedExpression instances that return ref-counted values must"
     +:+ " store their result in a local variable") ;;;
  pre <- _render_pre self ;;
  expr <- _render_expr self ;;
  st <- get_re_state (re_id self) ;;
  let result :=
    match _result_var st with
    | Some rv =>
        if bool_decide (expr <> snd rv)
        then pre +:+ newline +:+ snd rv +:+ " := " +:+ expr +:+ ";"
        else pre
    | None => pre
    end in
  match abstract_expr st, _result_var st with
  | Some abstract, Some rv =>
      w <- get ;;
      let unique_id := pretty (expr_count w) in
      modify (set_expr_count (S (expr_count w))) ;;;
      loc <- expr_location abstract ;;
      let loc_str :=
        match loc with
        | Some (file, line) => file +:+ ":" +:+ pretty line
        | None => "None"
        end in
      ret (gdb_helper ["expr-start"; unique_id; py_str (PyExpr abstract);
                       snd rv; loc_str]
           +:+ newline +:+ result +:+ newline
           +:+ gdb_helper ["expr-done"; unique_id])
  | _, _ => ret result
  end.

End Rendering.

End Model.

(** ** The [Frozable] trait and the operator sugar *)

(** Freezing works by reflection: [trigger_freeze] walks the attribute
    dictionary [__dict__] of an object and recurs into the attributes that
    are [Frozable] instances. Expressions are shared before resolution (a
    graph, not a tree) and frozen in place, so objects live in a store and
    attributes hold references. *)
Module Frozable.

(** The value of an attribute. Lists, tuples and values of other kinds
    are not [Frozable] instances. *)
Inductive Value : Type :=
  | VNone
  | VBool (b : bool)
  | VInt (z : Z)
  | VStr (s : string)
  | VRef (r : nat)
  | VList (l : list Value)
  | VOpaque (repr : string).

(** An object: whether its class derives from [Frozable], the name of
    its class, and its [__dict__]. *)
Record Obj : Type := mkObj {
  is_frozable : bool;
  class_name : string;
  dict : list (string * Value)
}.

Abbreviation Store := (gmap nat Obj) (only parsing).

(** [d.get(key)] and [d[key] = v] on an attribute dictionary. *)
Fixpoint dict_get (key : string) (d : list (string * Value))
  : option Value :=
  match d with
  | [] => None
  | (k, v) :: rest => if bool_decide (k = key) then Some v
                      else dict_get key rest
  end.

Fixpoint dict_set (key : string) (v : Value) (d : list (string * Value))
  : list (string * Value) :=
  match d with
  | [] => [(key, v)]
  | (k, v') :: rest =>
      if bool_decide (k = key) then (k, v) :: rest
      else (k, v') :: dict_set key v rest
  end.

(** Python's truth value. *)
Definition truthy (v : Value) : bool :=
  match v with
  | VNone => false
  | VBool b => b
  | VInt z => bool_decide (z <> 0%Z)
  | VStr s => bool_decide (s <> EmptyString)
  | VList l => bool_decide (l <> [])
  | VRef _ | VOpaque _ => true
  end.

(** The [frozen] property: [self.__dict__.get('_frozen', False)]. *)
Definition frozen (o : Obj) : bool :=
  truthy (default (VBool false) (dict_get "_frozen" (dict o))).

(** [isinstance(val, Frozable)]. *)
Definition is_Frozable_instance (h : Store) (val : Value) : option nat :=
  match val with
  | VRef r =>
      match h !! r with
      | Some o => if is_frozable o then Some r else None
      | None => None
      end
  | _ => None
  end.

(** [Frozable.trigger_freeze(self, value)]; [val.freeze()] is
    [val.trigger_freeze(True)]. The depth of the recursion is bounded by
    [fuel]; [None] when it is exhausted. *)
Fixpoint trigger_freeze (fuel : nat) (self : nat) (value : bool)
    (h : Store) : option Store :=
  match fuel with
  | O => None
  | S fuel' =>
      match h !! self with
      | None => Some h
      | Some o =>
          if frozen o && value then Some h
          else
            let o' := mkObj (is_frozable o) (class_name o)
                        (dict_set "_frozen" (VBool value) (dict o)) in
            fold_left
              (fun acc kv =>
                 match acc with
                 | None => None
                 | Some h' =>
                     match is_Frozable_instance h' (snd kv) with
                     | Some r => trigger_freeze fuel' r true h'
                     | None => Some h'
                     end
                 end)
              (dict o') (Some (<[self := o']> h))
      end
  end.

(** The objects that a call to [freeze] can still descend into. *)
Definition unfrozen (h : Store) : gset nat :=
  dom (filter (fun kv => frozen (snd kv) = false) h).

(** [Frozable.freeze]. Every level of the recursion freezes an object
    that was not frozen, so one more level than there are such objects
    is enough. *)
Definition freeze (self : nat) (h : Store) : option Store :=
  trigger_freeze (S (size (unfrozen h))) self true h.

(** [Frozable.unfreeze]. Clearing the flag of [self] adds at most one
    unfrozen object before the attributes of [self] are frozen. *)
Definition unfreeze (self : nat) (h : Store) : option Store :=
  trigger_freeze (S (S (S (size (unfrozen h))))) self false h.

(** [Frozable.protect(func)]: the wrapper, for the method named
    [func_name] called with the positional arguments [args]. *)
Definition protect {A} (func_name : string)
    (func : nat -> list Value -> M Store A)
    (self : nat) (args : list Value) : M Store A :=
  fun h =>
    match h !! self with
    | None => (h, Raise Dangling)
    | Some o =>
        if truthy (default (VBool false) (dict_get "_frozen" (dict o)))
        then
          let error_msg :=
            if bool_decide (func_name = "__getattr__")
            then "Illegal field access: "
                 +:+ match args with
                     | VStr attr :: _ => attr
                     | _ => EmptyString
                     end
            else " Illegal method call: " +:+ func_name in
          (h, Raise (PyException error_msg))
        else func self args h
    end.

Section Sugar.

(** The constructors of the expression classes that other modules
    define ([BinaryBooleanOperator], [OrderingTest], [Eq]), by the name
    of the class, and the unprotected body of [__getattr__], which
    consults the registry of attribute expressions. *)
Variable instantiate : string -> list Value -> M Store Value.
Variable getattr_body : nat -> string -> M Store Value.
Variable extract_library_location : Value.

(** [Arithmetic(l, r, op)], a class of this module. *)
Definition Arithmetic_new (l r : Value) (op : string) : M Store Value :=
  fun h =>
    let r' := fresh (dom h) in
    (<[r' := mkObj true "Arithmetic"
               [("location", extract_library_location);
                ("l", l); ("r", r); ("op", VStr op)]]> h,
     Ok (VRef r')).

Definition arg0 (args : list Value) : Value := default VNone (head args).

Definition __or__ : nat -> list Value -> M Store Value :=
  protect "__or__" (fun self args =>
    instantiate "BinaryBooleanOperator" [VStr "OR"; VRef self; arg0 args]).
Definition __and__ : nat -> list Value -> M Store Value :=
  protect "__and__" (fun self args =>
    instantiate "BinaryBooleanOperator"
      [VStr "AND"; VRef self; arg0 args]).
Definition __lt__ : nat -> list Value -> M Store Value :=
  protect "__lt__" (fun self args =>
    instantiate "OrderingTest" [VStr "LT"; VRef self; arg0 args]).
Definition __le__ : nat -> list Value -> M Store Value :=
  protect "__le__" (fun self args =>
    instantiate "OrderingTest" [VStr "LE"; VRef self; arg0 args]).
Definition __sub__ : nat -> list Value -> M Store Value :=
  protect "__sub__" (fun self args =>
    Arithmetic_new (VRef self) (arg0 args) "-").
Definition __add__ : nat -> list Value -> M Store Value :=
  protect "__add__" (fun self args =>
    Arithmetic_new (VRef self) (arg0 args) "+").
Definition __gt__ : nat -> list Value -> M Store Value :=
  protect "__gt__" (fun self args =>
    instantiate "OrderingTest" [VStr "GT"; VRef self; arg0 args]).
Definition __ge__ : nat -> list Value -> M Store Value :=
  protect "__ge__" (fun self args =>
    instantiate "OrderingTest" [VStr "GE"; VRef self; arg0 args]).
Definition __eq__ : nat -> list Value -> M Store Value :=
  protect "__eq__" (fun self args =>
    instantiate "Eq" [VRef self; arg0 args]).
Definition __getattr__ : nat -> list Value -> M Store Value :=
  protect "__getattr__" (fun self args =>
    match args with
    | VStr attr :: _ => getattr_body self attr
    | _ => raise (PyException "attribute name must be string")
    end).

(** The methods that build expressions from the operator notations. *)
Definition operator_sugar
  : list (string * (nat -> list Value -> M Store Value)) :=
  [("__or__", __or__); ("__and__", __and__); ("__lt__", __lt__);
   ("__le__", __le__); ("__sub__", __sub__); ("__add__", __add__);
   ("__gt__", __gt__); ("__ge__", __ge__); ("__eq__", __eq__)].

End Sugar.

End Frozable.

(** ** A small type registry *)

(** A registry to run the definitions on: the built-in types, an array
    type that is reference-counted, and a chain of node types in which
    [NodeType (S n)] derives from [NodeType n]. A node type matches the
    node types it derives from; every other type matches itself only. *)
Inductive SampleType : Type :=
  | BoolType
  | LongType
  | SymbolType
  | NoCompiledType
  | ArrayType
  | NodeType (depth : nat).

Global Instance SampleType_eq_dec : EqDecision SampleType.
Proof. solve_decision. Defined.

Definition SampleType_encode (t : SampleType) : nat :=
  match t with
  | BoolType => 0
  | LongType => 1
  | SymbolType => 2
  | NoCompiledType => 3
  | ArrayType => 4
  | NodeType n => 5 + n
  end.

Definition SampleType_decode (n : nat) : SampleType :=
  match n with
  | 0 => BoolType
  | 1 => LongType
  | 2 => SymbolType
  | 3 => NoCompiledType
  | 4 => ArrayType
  | S (S (S (S (S n)))) => NodeType n
  end.

Global Instance SampleType_countable : Countable SampleType.
Proof.
  apply (inj_countable' SampleType_encode SampleType_decode).
  by intros [].
Defined.

Definition sample_matches (a b : SampleType) : bool :=
  match a, b with
  | NodeType n, NodeType m => bool_decide (m <= n)
  | _, _ => bool_decide (a = b)
  end.

Definition sample_type_name (t : SampleType) : string :=
  match t with
  | BoolType => "Boolean"
  | LongType => "Integer"
  | SymbolType => "SymbolType"
  | NoCompiledType => "NoCompiledType"
  | ArrayType => "Array"
  | NodeType n => "Node" +:+ pretty n
  end.

Global Instance sample_registry : TypeRegistry := {|
  CompiledType := SampleType;
  matches := sample_matches;
  is_refcounted := fun t => bool_decide (t = ArrayType);
  type_name := sample_type_name;
  bool_type := BoolType;
  long_type := LongType;
  symbol_type := SymbolType;
  no_compiled_type := NoCompiledType;
  bool_type_not_long_type := ltac:(discriminate)
|}.

(** A world with one property, bound or not, that accepts the arguments
    [args]; the variable objects are given. The counters start where the
    class-level counters of the module start. *)
Definition sample_property (expr : option PyVal)
    (expected : option SampleType) (args : list Argument)
    (dynamic_vars : list nat) : PropertyDef :=
  mkPropertyDef "Node.prop" (NodeType 0) expr expected None
    (mkLocalVars ∅ 0 0) args (Some dynamic_vars) [] false None false false.

Definition sample_world (bound : list (option nat)) (pd : PropertyDef)
    (vars : list (nat * AbstractVariable)) : World :=
  mkWorld 100 1 1 1 bound {[ 1 := pd ]} (list_to_map vars)
    {[ 0 := mkScope 0 1 None [] [] ]} ∅ [].

(** * Properties *)

(** ** The monad *)

Lemma bind_inv {S A B} (m : M S A) (k : A -> M S B) s s' r :
  bind m k s = (s', r) ->
  (exists e, m s = (s', Raise e) /\ r = Raise e)
  \/ (exists a s1, m s = (s1, Ok a) /\ k a s1 = (s', r)).
Proof.
  unfold bind. destruct (m s) as [s1 [a|e]]; intros Hk.
  - right. eauto.
  - left. inversion Hk; subst. eauto.
Qed.

Lemma bind_ok_inv {S A B} (m : M S A) (k : A -> M S B) s s' b :
  bind m k s = (s', Ok b) ->
  exists a s1, m s = (s1, Ok a) /\ k a s1 = (s', Ok b).
Proof.
  intros Hb. apply bind_inv in Hb as [(e & _ & He)|Hb]; [discriminate|done].
Qed.

Lemma bind_ok {S A B} (m : M S A) (k : A -> M S B) s s1 a :
  m s = (s1, Ok a) -> bind m k s = k a s1.
Proof. unfold bind. by intros ->. Qed.

Lemma bind_raise {S A B} (m : M S A) (k : A -> M S B) s s1 e :
  m s = (s1, Raise e) -> bind m k s = (s1, Raise e).
Proof. unfold bind. by intros ->. Qed.

(** A relation between the store before and the store after that a
    computation maintains, whatever its outcome. *)
Definition maintains {S A} (R : relation S) (m : M S A) : Prop :=
  forall s s' r, m s = (s', r) -> R s s'.

Section Maintains.
Context {S : Type} (R : relation S) `{!PreOrder R}.

Lemma maintains_ret {A} (a : A) : maintains R (ret a).
Proof. intros s s' r [= <- _]. reflexivity. Qed.

Lemma maintains_raise {A} e : maintains R (@raise S A e).
Proof. intros s s' r [= <- _]. reflexivity. Qed.

Lemma maintains_get : maintains R (@get S).
Proof. intros s s' r [= <- _]. reflexivity. Qed.

Lemma maintains_bind {A B} (m : M S A) (k : A -> M S B) :
  maintains R m -> (forall a, maintains R (k a)) -> maintains R (bind m k).
Proof.
  intros Hm Hk s s' r Hb.
  apply bind_inv in Hb as [(e & Hb & _)|(a & s1 & Hb & Hk')].
  - eapply Hm, Hb.
  - etransitivity; [eapply Hm, Hb|eapply Hk, Hk'].
Qed.

Lemma maintains_modify (f : S -> S) :
  (forall s, R s (f s)) -> maintains R (modify f).
Proof. intros Hf s s' r [= <- _]. apply Hf. Qed.

Lemma maintains_check_source_language b msg :
  maintains R (@check_source_language S b msg).
Proof.
  unfold check_source_language.
  destruct b; [apply maintains_ret|apply maintains_raise].
Qed.

Lemma maintains_py_assert b msg : maintains R (@py_assert S b msg).
Proof.
  unfold py_assert. destruct b; [apply maintains_ret|apply maintains_raise].
Qed.
End Maintains.

Section Claims.
Context `{TypeRegistry}.
Variable extract_library_location : option (string * nat).

Lemma maintains_lookup_store (R : relation World) `{!PreOrder R} {A}
    (store : World -> gmap nat A) r :
  maintains R (lookup_store store r).
Proof.
  intros w w' o. unfold lookup_store.
  destruct (store w !! r); intros [= <- _]; reflexivity.
Qed.

Lemma maintains_lift (R : relation World) `{!PreOrder R} {A}
    (o : outcome A) : maintains R (lift o).
Proof. intros w w' r [= <- _]. reflexivity. Qed.

(** ** [unsugar] and literals *)

(** C9. [unsugar(None)] returns [None] whatever [ignore_errors] is: the
    value is neither wrapped into a literal node nor rejected. A value that
    is no expression, no boolean, no integer and no text, and a deferred
    reference to such a value, is rejected with the diagnostic
    "Invalid abstract expression" when errors are not ignored. *)
Theorem unsugar_None_is_passed_through :
  (forall ignore_errors,
     unsugar extract_library_location PyNone ignore_errors = Ok PyNone)
  /\ (forall repr,
        unsugar extract_library_location (PyOther repr) false
        = Raise (DiagnosticError ("Invalid abstract expression: " +:+ repr)))
  /\ (forall repr,
        unsugar extract_library_location (PyDefer (PyOther repr)) false
        = Raise (DiagnosticError ("Invalid abstract expression: " +:+ repr))).
Proof. done. Qed.

(** [construct] on an expression, and on the host values that [unsugar]
    wraps. *)
Lemma construct_with_expr nc e expected custom_msg downcast :
  construct_with extract_library_location nc (PyExpr e) expected custom_msg
    downcast
  = (ret_ <- nc e ;;
     loc <- expr_location e ;;
     set_location (re_id ret_) loc ;;;
     check_expected ret_ expected custom_msg downcast).
Proof. reflexivity. Qed.



(** The world after the object [id] has been allocated and initialized as
    a resolved expression without result variable. *)
Definition with_node (id : nat) (skippable : bool) (w : World) : World :=
  set_resolved
    (<[id := mkREState None skippable None false None false]> (resolved w))
    (set_next_object (S id) w).

Lemma LiteralExpr_new_eq template t operands w :
  LiteralExpr_new template t operands w
  = (with_node (next_object w) true w,
     Ok (LiteralExpr (next_object w) template t operands)).
Proof. reflexivity. Qed.



Lemma set_location_eq id loc st w :
  resolved w !! id = Some st ->
  set_location id loc w
  = (set_resolved
       (<[id := mkREState (_result_var st) (skippable_refcount st)
                  (abstract_expr st) (_render_pre_called st) (Some loc)
                  (ve_ignored st)]> (resolved w)) w,
     Ok tt).
Proof.
  intros Hst. unfold set_location, get_re_state, lookup_store, bind.
  by rewrite Hst.
Qed.



(** ** Local variables: unique names *)

(** The names [create_scopeless] tries for a requested name, in order: the
    name itself, then the name followed by 1, 2, ... *)
Definition candidate (orig_name : string) (k : nat) : string :=
  match k with
  | O => orig_name
  | S _ => names.add orig_name (pretty k)
  end.

Lemma append_empty_r (s : string) : s +:+ EmptyString = s.
Proof.
  induction s as [|c s IH]; [done|].
  change (String c (s +:+ EmptyString) = String c s). by rewrite IH.
Qed.

Global Instance candidate_inj orig_name : Inj (=) (=) (candidate orig_name).
Proof.
  intros [|j] [|k]; unfold candidate, names.add; intros Heq; try done.
  - rewrite <-(append_empty_r orig_name) in Heq at 1.
    by apply (inj _) in Heq.
  - rewrite <-(append_empty_r orig_name) in Heq at 2.
    by apply (inj _) in Heq.
  - apply (inj _), (inj _) in Heq. by apply (inj pretty) in Heq.
Qed.

Lemma fresh_name_loop_spec fuel (table : gmap string LocalVar) orig_name i n :
  fresh_name_loop fuel table orig_name i (candidate orig_name i) = Some n ->
  exists k, i <= k /\ n = candidate orig_name k /\ table !! n = None
            /\ forall j, i <= j < k -> is_Some (table !! candidate orig_name j).
Proof.
  revert i. induction fuel as [|fuel IH]; intros i; simpl; [done|].
  case_bool_decide as Hin.
  - rewrite Nat.add_1_r. change (names.add orig_name (pretty (S i)))
      with (candidate orig_name (S i)).
    intros (k & Hk & -> & Hnone & Hbelow)%IH.
    exists k. split_and!; [lia|done|done|].
    intros j Hj. destruct (decide (j = i)) as [->|]; [done|].
    apply Hbelow. lia.
  - intros [= <-]. exists i. split_and!; [done|done| |intros j; lia].
    by apply eq_None_not_Some.
Qed.

(** The loop exits before its fuel runs out: the names tried so far are
    distinct entries of the table. *)
Lemma fresh_name_loop_total fuel (table : gmap string LocalVar) orig_name i :
  (forall j, j < i -> is_Some (table !! candidate orig_name j)) ->
  size table < i + fuel ->
  is_Some (fresh_name_loop fuel table orig_name i (candidate orig_name i)).
Proof.
  revert i. induction fuel as [|fuel IH]; intros i Hbelow Hsize.
  - exfalso.
    assert (list_to_set (candidate orig_name <$> seq 0 i) ⊆ dom table)
      as Hsub.
    { intros x (j & -> & Hj%elem_of_seq)%elem_of_list_to_set%list_elem_of_fmap.
      apply elem_of_dom, Hbelow. lia. }
    apply subseteq_size in Hsub.
    rewrite size_list_to_set, length_fmap, length_seq, size_dom in Hsub; [lia|].
    apply NoDup_fmap_2; [apply _|apply NoDup_seq].
  - simpl. case_bool_decide as Hin; [|done].
    rewrite Nat.add_1_r. apply (IH (S i)); [|lia].
    intros j Hj. destruct (decide (j = i)) as [->|]; [done|].
    apply Hbelow. lia.
Qed.

(** [create_scopeless] on a table: it returns, and the name it gives is
    the first of the candidates that the table does not hold. *)
Lemma create_scopeless_in_spec (self : LocalVars) name type :
  exists k,
    create_scopeless_in self name type
    = Some (mkLocalVar (candidate name k) type None,
            mkLocalVars
              (<[candidate name k := mkLocalVar (candidate name k) type None]>
                 (local_vars self))
              (root_scope self) (current_scope self))
    /\ local_vars self !! candidate name k = None
    /\ forall j, j < k -> is_Some (local_vars self !! candidate name j).
Proof.
  unfold create_scopeless_in.
  destruct (fresh_name_loop_total (S (size (local_vars self)))
              (local_vars self) name 0) as [n Hn]; [intros j; lia|lia|].
  pose proof Hn as Hn'. change (candidate name 0) with name in Hn'.
  rewrite Hn'. clear Hn'.
  apply fresh_name_loop_spec in Hn as (k & _ & -> & Hnone & Hbelow).
  exists k. split_and!; [done|done|]. intros j Hj. apply Hbelow. lia.
Qed.

(** The table of local variables of property [p]. *)
Definition table (p : nat) (w : World) : gmap string LocalVar :=
  match properties w !! p with
  | Some pd => local_vars (pd_vars pd)
  | None => ∅
  end.

(** No variable is ever removed from the table of a property. *)
Definition table_grows (p : nat) (w w' : World) : Prop :=
  dom (table p w) ⊆ dom (table p w').

Global Instance table_grows_preorder p : PreOrder (table_grows p).
Proof.
  split; [intros w; unfold table_grows; set_solver|].
  intros w1 w2 w3; unfold table_grows; set_solver.
Qed.

Lemma table_put_property p q pd w :
  table p (set_properties (<[q := pd]> (properties w)) w)
  = if decide (q = p) then local_vars (pd_vars pd) else table p w.
Proof.
  unfold table. simpl. destruct (decide (q = p)) as [->|Hne].
  - by rewrite lookup_insert_eq.
  - by rewrite lookup_insert_ne.
Qed.

Lemma table_grows_put_scope p s sc : maintains (table_grows p) (put_scope s sc).
Proof.
  intros w w' r. unfold put_scope, modify. intros [= <- _].
  by unfold table_grows, table.
Qed.

Lemma table_grows_put_local_var p var lv :
  maintains (table_grows p) (put_local_var var lv).
Proof.
  intros w w' r. unfold put_local_var, get_property, lookup_store, bind.
  destruct (properties w !! var.1) as [pd|] eqn:Hpd; [|by intros [= <- _]].
  intros [= <- _]. unfold table_grows. rewrite table_put_property.
  case_decide as Hp; [|done]. subst p. unfold table. rewrite Hpd. simpl.
  set_solver.
Qed.

Lemma table_grows_set_current_scope p owner s :
  maintains (table_grows p) (set_current_scope owner s).
Proof.
  intros w w' r. unfold set_current_scope, get_property, lookup_store, bind.
  destruct (properties w !! owner) as [pd|] eqn:Hpd; [|by intros [= <- _]].
  intros [= <- _]. unfold table_grows. rewrite table_put_property.
  case_decide as Hp; [|done]. subst p. unfold table. by rewrite Hpd.
Qed.

Create HintDb maintains.

(** Computations built from the primitives of the monad maintain a
    preorder as soon as their store updates do. *)
Ltac maintains_step :=
  first
    [ exact _
    | solve [auto with maintains]
    | apply maintains_ret
    | apply maintains_raise
    | apply maintains_get
    | apply maintains_lookup_store
    | apply maintains_lift
    | apply maintains_py_assert
    | apply maintains_check_source_language
    | apply maintains_bind; [exact _| |intros ?]
    | match goal with
      | |- maintains _ (match ?x with _ => _ end) => destruct x
      end
    | assumption ].

Ltac maintains_tac := repeat maintains_step.

Lemma maintains_get_property (R : relation World) `{!PreOrder R} p :
  maintains R (get_property p).
Proof. apply maintains_lookup_store, _. Qed.

Lemma maintains_PropertyDef_get (R : relation World) `{!PreOrder R} :
  maintains R PropertyDef_get.
Proof. intros w w' r [= <- _]. reflexivity. Qed.

Lemma maintains_current_property_attr (R : relation World) `{!PreOrder R}
    attr :
  maintains R (current_property_attr attr).
Proof.
  unfold current_property_attr.
  apply maintains_bind; [apply _|apply maintains_PropertyDef_get, _|].
  intros [p|]; maintains_tac.
Qed.

Lemma maintains_PropertyDef_get_scope (R : relation World) `{!PreOrder R} :
  maintains R PropertyDef_get_scope.
Proof.
  unfold PropertyDef_get_scope.
  apply maintains_bind; [apply _|apply maintains_current_property_attr, _|].
  intros p. unfold get_property. maintains_tac.
Qed.

Lemma maintains_get_local_var (R : relation World) `{!PreOrder R} var :
  maintains R (get_local_var var).
Proof. unfold get_local_var, get_property. maintains_tac. Qed.

#[local] Hint Resolve table_grows_put_scope table_grows_put_local_var
  table_grows_set_current_scope : maintains.

Lemma table_grows_Scope_init p vars parent :
  maintains (table_grows p) (Scope_init vars parent).
Proof.
  unfold Scope_init. maintains_tac.
  apply maintains_modify; try exact _. intros w. by unfold table_grows, table.
Qed.

Lemma table_grows_Scope_add p self var :
  maintains (table_grows p) (Scope_add self var).
Proof.
  unfold Scope_add.
  apply maintains_bind; [apply _|apply maintains_get_local_var, _|].
  intros v. unfold get_scope. maintains_tac.
Qed.

#[local] Hint Resolve table_grows_Scope_init table_grows_Scope_add
  : maintains.

Lemma table_grows_Scope_push p self :
  maintains (table_grows p) (Scope_push self).
Proof. unfold Scope_push, get_scope. maintains_tac. Qed.

Lemma table_grows_Scope_pop p self :
  maintains (table_grows p) (Scope_pop self).
Proof. unfold Scope_pop, get_scope, get_property. maintains_tac. Qed.

(** [create_scopeless] on the world: what it returns and the world it
    leaves. *)
Lemma LocalVars_create_scopeless_eq p pd name type w :
  properties w !! p = Some pd ->
  exists k,
    LocalVars_create_scopeless p name type w
    = (set_properties
         (<[p := set_pd_vars
                   (mkLocalVars
                      (<[candidate name k
                         := mkLocalVar (candidate name k) type None]>
                         (local_vars (pd_vars pd)))
                      (root_scope (pd_vars pd)) (current_scope (pd_vars pd)))
                   pd]> (properties w)) w,
       Ok (p, candidate name k))
    /\ table p w !! candidate name k = None
    /\ forall j, j < k -> is_Some (table p w !! candidate name j).
Proof.
  intros Hpd.
  destruct (create_scopeless_in_spec (pd_vars pd) name type)
    as (k & Heq & Hnone & Hbelow).
  exists k. unfold table. rewrite Hpd. split_and!; [|done|done].
  unfold LocalVars_create_scopeless, get_property, lookup_store, bind.
  by rewrite Hpd, Heq.
Qed.

Lemma LocalVars_create_scopeless_fresh p q name type w w' r :
  LocalVars_create_scopeless q name type w = (w', r) ->
  table_grows p w w'
  /\ forall var, r = Ok var ->
       fst var = q /\ table q w !! snd var = None
       /\ is_Some (table q w' !! snd var).
Proof.
  destruct (properties w !! q) as [pd|] eqn:Hpd.
  - destruct (LocalVars_create_scopeless_eq q pd name type w Hpd)
      as (k & -> & Hnone & _).
    intros [= <- <-]. split.
    + unfold table_grows. rewrite table_put_property.
      case_decide as Hp; [|done]. subst p. unfold table. rewrite Hpd. simpl.
      set_solver.
    + intros var [= <-]. split_and!; [done|done|].
      rewrite table_put_property, decide_True by done. simpl.
      by rewrite lookup_insert_eq.
  - unfold LocalVars_create_scopeless, get_property, lookup_store, bind.
    rewrite Hpd. intros [= <- <-]. split; [reflexivity|done].
Qed.

Lemma LocalVars_create_fresh p q name type w w' r :
  LocalVars_create q name type w = (w', r) ->
  table_grows p w w'
  /\ forall var, r = Ok var ->
       fst var = q /\ table q w !! snd var = None
       /\ is_Some (table q w' !! snd var).
Proof.
  unfold LocalVars_create. intros Hc.
  apply bind_inv in Hc as [(e & Hc & ->)|(var & w1 & Hc & Hrest)].
  { apply (LocalVars_create_scopeless_fresh p) in Hc as [Hg _]. done. }
  pose proof Hc as Hc'.
  apply (LocalVars_create_scopeless_fresh p) in Hc as [Hg _].
  apply (LocalVars_create_scopeless_fresh q) in Hc' as [_ Hvar].
  destruct (Hvar var eq_refl) as (Hq & Hnone & Hsome).
  assert (forall p', table_grows p' w1 w') as Hg'.
  { intros p'. revert Hrest. apply maintains_bind; [apply _| |].
    - apply maintains_PropertyDef_get_scope, _.
    - intros scope. apply maintains_bind; [apply _| |].
      + apply table_grows_Scope_add.
      + intros _. apply maintains_ret, _. }
  split; [by etransitivity|].
  intros var' ->.
  apply bind_ok_inv in Hrest as (scope & w2 & _ & Hrest).
  apply bind_ok_inv in Hrest as ([] & w3 & _ & [= _ <-]).
  split_and!; [done|done|].
  apply elem_of_dom, (Hg' q), elem_of_dom, Hsome.
Qed.

(** What a property asks of its [LocalVars] while it is constructed:
    variables, with or without a scope, and scopes entered and left, all on
    the current scope of the bound property. *)
Inductive request : Type :=
  | Create (name : string) (type : option CompiledType)
  | CreateScopeless (name : string) (type : option CompiledType)
  | Push
  | Pop.

(** One request on the [LocalVars] of property [p]; the names of the
    variables it created are returned. *)
Definition perform (p : nat) (r : request) : M World (list string) :=
  match r with
  | Create name type =>
      var <- LocalVars_create p name type ;; ret [snd var]
  | CreateScopeless name type =>
      var <- LocalVars_create_scopeless p name type ;; ret [snd var]
  | Push => scope <- PropertyDef_get_scope ;; Scope_push scope ;;; ret []
  | Pop => scope <- PropertyDef_get_scope ;; Scope_pop scope ;;; ret []
  end.

(** A sequence of requests, up to the first that raises; the names
    created are collected in order. *)
Fixpoint perform_all (p : nat) (rs : list request) (w : World)
  : World * list string :=
  match rs with
  | [] => (w, [])
  | r :: rest =>
      match perform p r w with
      | (w', Ok created) =>
          let '(w'', more) := perform_all p rest w' in (w'', created ++ more)
      | (w', Raise _) => (w', [])
      end
  end.

Lemma perform_fresh p r w w' o :
  perform p r w = (w', o) ->
  table_grows p w w'
  /\ forall created, o = Ok created ->
       Forall (fun n => table p w !! n = None /\ is_Some (table p w' !! n))
         created
       /\ length created <= 1.
Proof.
  destruct r as [name type|name type| |]; simpl; intros Hp.
  - apply bind_inv in Hp as [(e & Hc & ->)|(var & w1 & Hc & [= <- <-])].
    + by apply (LocalVars_create_fresh p) in Hc as [Hg _].
    + apply (LocalVars_create_fresh p) in Hc as [Hg Hvar].
      split; [done|]. intros created [= <-].
      destruct (Hvar var eq_refl) as (_ & ? & ?).
      split; [|simpl; lia]. by repeat constructor.
  - apply bind_inv in Hp as [(e & Hc & ->)|(var & w1 & Hc & [= <- <-])].
    + by apply (LocalVars_create_scopeless_fresh p) in Hc as [Hg _].
    + apply (LocalVars_create_scopeless_fresh p) in Hc as [Hg Hvar].
      split; [done|]. intros created [= <-].
      destruct (Hvar var eq_refl) as (_ & ? & ?).
      split; [|simpl; lia]. by repeat constructor.
  - assert (table_grows p w w') as Hg.
    { revert Hp. apply maintains_bind; [apply _| |intros scope].
      - apply maintains_PropertyDef_get_scope, _.
      - apply maintains_bind; [apply _|apply table_grows_Scope_push|].
        intros _. apply maintains_ret, _. }
    split; [done|]. intros created ->.
    apply bind_ok_inv in Hp as (scope & w1 & _ & Hp).
    apply bind_ok_inv in Hp as (s & w2 & _ & [= _ <-]).
    split; [constructor|simpl; lia].
  - assert (table_grows p w w') as Hg.
    { revert Hp. apply maintains_bind; [apply _| |intros scope].
      - apply maintains_PropertyDef_get_scope, _.
      - apply maintains_bind; [apply _|apply table_grows_Scope_pop|].
        intros _. apply maintains_ret, _. }
    split; [done|]. intros created ->.
    apply bind_ok_inv in Hp as (scope & w1 & _ & Hp).
    apply bind_ok_inv in Hp as (s & w2 & _ & [= _ <-]).
    split; [constructor|simpl; lia].
Qed.

Lemma perform_all_fresh p rs w :
  table_grows p w (perform_all p rs w).1
  /\ NoDup (perform_all p rs w).2
  /\ Forall (fun n => table p w !! n = None
                      /\ is_Some (table p (perform_all p rs w).1 !! n))
       (perform_all p rs w).2.
Proof.
  revert w. induction rs as [|r rs IH]; intros w; simpl.
  { split_and!; [reflexivity|constructor|constructor]. }
  destruct (perform p r w) as [w1 [created|e]] eqn:Hp.
  - apply perform_fresh in Hp as [Hg Hc].
    destruct (Hc created eq_refl) as [Hfresh Hlen].
    destruct (IH w1) as (Hg' & Hnd & Hall).
    destruct (perform_all p rs w1) as [w2 more]; simpl in *.
    split_and!; [by etransitivity| |].
    + apply NoDup_app. split_and!; [|intros n Hn Hn'|done].
      * destruct created as [|n [|]]; simpl in Hlen; [constructor| |lia].
        apply NoDup_singleton.
      * rewrite Forall_forall in Hfresh, Hall.
        destruct (Hfresh n Hn) as [_ Hsome].
        destruct (Hall n Hn') as [Hnone _].
        rewrite Hnone in Hsome. by destruct Hsome.
    + apply Forall_app. split.
      * eapply Forall_impl; [exact Hfresh|].
        intros n [Hnone Hsome]. split; [done|].
        apply elem_of_dom, Hg', elem_of_dom, Hsome.
      * eapply Forall_impl; [exact Hall|].
        intros n [Hnone Hsome]. split; [|done].
        apply not_elem_of_dom. intros Hin%Hg. by apply not_elem_of_dom in Hnone.
  - simpl. apply perform_fresh in Hp as [Hg _].
    split_and!; [done|constructor|constructor].
Qed.

(** C8. Within one property the names of local variables are unique,
    whatever the scopes. [create_scopeless] always returns, and the new
    variable gets the first name that the table of the property does not
    hold among: the requested name, then the requested name followed by
    1, 2, ... And along every sequence of [create], [create_scopeless],
    [push] and [pop], the names of the variables created are pairwise
    distinct, none was in the table before, and all are in the table
    afterwards. *)
Theorem local_variable_names_are_unique :
  (forall (self : LocalVars) name type,
     exists k,
       create_scopeless_in self name type
       = Some (mkLocalVar (candidate name k) type None,
               mkLocalVars
                 (<[candidate name k
                    := mkLocalVar (candidate name k) type None]>
                    (local_vars self))
                 (root_scope self) (current_scope self))
       /\ local_vars self !! candidate name k = None
       /\ Forall (fun j => is_Some (local_vars self !! candidate name j))
            (seq 0 k))
  /\ (forall p rs w,
        NoDup (perform_all p rs w).2
        /\ Forall (fun n => table p w !! n = None
                            /\ is_Some (table p (perform_all p rs w).1 !! n))
             (perform_all p rs w).2).
Proof.
  split.
  - intros self name type.
    destruct (create_scopeless_in_spec self name type)
      as (k & Heq & Hnone & Hbelow).
    exists k. split_and!; [done|done|].
    apply Forall_forall. intros j Hj%elem_of_seq. apply Hbelow. lia.
  - intros p rs w. apply perform_all_fresh.
Qed.

(** ** Abstract variables: the construction cache *)

(** The world after [AbstractVariable.construct] has built and cached the
    node of the variable object [v] for its current name and type [t]. *)
Definition with_cached_node (v : nat) (av : AbstractVariable)
    (t : CompiledType) (w : World) : World :=
  set_variables
    (<[v := set_construct_cache
              (<[(_name av, Some t)
                 := VariableExpr (next_object w) t (_name av) (Some v)]>
                 (construct_cache av)) av]> (variables w))
    (with_node (next_object w) true w).

(** [AbstractVariable.construct], case by case. *)
Lemma AbstractVariable_construct_eq v av w :
  variables w !! v = Some av ->
  AbstractVariable_construct v w
  = match construct_cache av !! (_name av, _type av) with
    | Some expr => (w, Ok expr)
    | None =>
        match _type av with
        | None => (set_next_object (S (next_object w)) w,
                   Raise (AssertionError "Wrong type for object"))
        | Some t =>
            (with_cached_node v av t w,
             Ok (VariableExpr (next_object w) t (_name av) (Some v)))
        end
    end.
Proof.
  intros Hv.
  unfold AbstractVariable_construct, get_variable, lookup_store, bind.
  rewrite Hv. unfold resolve_type.
  destruct (construct_cache av !! (_name av, _type av)) as [expr|] eqn:Hc;
    [done|].
  destruct (_type av) as [t|] eqn:Ht; [|done].
  cbn. by rewrite Hv.
Qed.

(** No entry of the cache of a variable object is ever removed or
    replaced, and no variable object disappears. *)
Definition caches_grow (w w' : World) : Prop :=
  forall v av, variables w !! v = Some av ->
    exists av', variables w' !! v = Some av'
                /\ construct_cache av ⊆ construct_cache av'.

Global Instance caches_grow_preorder : PreOrder caches_grow.
Proof.
  split.
  - intros w v av Hv. by exists av.
  - intros w1 w2 w3 H12 H23 v av Hv.
    destruct (H12 v av Hv) as (av2 & Hv2 & Hsub).
    destruct (H23 v av2 Hv2) as (av3 & Hv3 & Hsub').
    exists av3. split; [done|]. by etransitivity.
Qed.

Lemma caches_grow_same_variables w w' :
  variables w' = variables w -> caches_grow w w'.
Proof. intros Heq v av Hv. exists av. by rewrite Heq. Qed.

Lemma caches_grow_put_variable v av av' w :
  variables w !! v = Some av ->
  construct_cache av ⊆ construct_cache av' ->
  caches_grow w (set_variables (<[v := av']> (variables w)) w).
Proof.
  intros Hv Hsub v0 av0 Hv0. simpl.
  destruct (decide (v0 = v)) as [->|Hne].
  - rewrite lookup_insert_eq. exists av'. split; [done|].
    by assert (av0 = av) as -> by congruence.
  - rewrite lookup_insert_ne by done. by exists av0.
Qed.

(** C4. Two calls to [construct] on one variable object, made while it
    has the same name and the same type, return the identical
    [VariableExpr] object: when a first call returned the node [e1], and
    the variable has at a later point the name and the type it had at the
    first call, [construct] returns [e1] itself, with the identity it was
    allocated with, and builds nothing. Between the two calls the world may
    have changed in any way that removes no cache entry; see
    [construct_caches_grow] for what the module does. *)
Theorem AbstractVariable_construct_memoized v w w1 e1 w2 av av2 :
  AbstractVariable_construct v w = (w1, Ok e1) ->
  caches_grow w1 w2 ->
  variables w !! v = Some av ->
  variables w2 !! v = Some av2 ->
  _name av2 = _name av ->
  _type av2 = _type av ->
  AbstractVariable_construct v w2 = (w2, Ok e1).
Proof.
  intros Hfirst Hgrow Hv Hv2 Hname Htype.
  rewrite (AbstractVariable_construct_eq v av w Hv) in Hfirst.
  rewrite (AbstractVariable_construct_eq v av2 w2 Hv2), Hname, Htype.
  assert (exists av1, variables w1 !! v = Some av1
                      /\ construct_cache av1 !! (_name av, _type av)
                         = Some e1) as (av1 & Hv1 & Hc1).
  { destruct (construct_cache av !! (_name av, _type av)) as [e|] eqn:Hc.
    - injection Hfirst as <- <-. by exists av.
    - destruct (_type av) as [t|]; [|done].
      injection Hfirst as <- <-. eexists. split.
      + simpl. apply lookup_insert_eq.
      + simpl. apply lookup_insert_eq. }
  destruct (Hgrow v av1 Hv1) as (av2' & Hv2' & Hsub).
  assert (av2' = av2) as -> by congruence.
  by rewrite (lookup_weaken _ _ _ _ Hc1 Hsub).
Qed.

(** What [construct] does to the caches: every operation of the module
    that writes a variable object keeps the entries of its cache. *)
Lemma caches_grow_modify (f : World -> World) :
  (forall w, variables (f w) = variables w) ->
  maintains caches_grow (modify f).
Proof.
  intros Hf. apply maintains_modify; try exact _.
  intros w. apply caches_grow_same_variables, Hf.
Qed.

Lemma caches_grow_put_property p pd :
  maintains caches_grow (put_property p pd).
Proof. by apply caches_grow_modify. Qed.

Lemma caches_grow_put_scope s sc : maintains caches_grow (put_scope s sc).
Proof. by apply caches_grow_modify. Qed.

Lemma caches_grow_put_re_state id st :
  maintains caches_grow (put_re_state id st).
Proof. by apply caches_grow_modify. Qed.

Lemma caches_grow_new_object : maintains caches_grow new_object.
Proof.
  intros w w' r [= <- _]. by apply caches_grow_same_variables.
Qed.

#[local] Hint Resolve caches_grow_put_property caches_grow_put_scope
  caches_grow_put_re_state caches_grow_new_object : maintains.

#[local] Hint Extern 1 (maintains _ (get_property _)) =>
  apply maintains_get_property; exact _ : maintains.
#[local] Hint Extern 1 (maintains _ PropertyDef_get) =>
  apply maintains_PropertyDef_get; exact _ : maintains.
#[local] Hint Extern 1 (maintains _ (current_property_attr _)) =>
  apply maintains_current_property_attr; exact _ : maintains.
#[local] Hint Extern 1 (maintains _ PropertyDef_get_scope) =>
  apply maintains_PropertyDef_get_scope; exact _ : maintains.
#[local] Hint Extern 1 (maintains _ (get_local_var _)) =>
  apply maintains_get_local_var; exact _ : maintains.
#[local] Hint Extern 1 (maintains _ (get_variable _)) =>
  apply maintains_lookup_store; exact _ : maintains.
#[local] Hint Extern 1 (maintains _ (get_scope _)) =>
  apply maintains_lookup_store; exact _ : maintains.
#[local] Hint Extern 1 (maintains _ (get_re_state _)) =>
  apply maintains_lookup_store; exact _ : maintains.

Lemma caches_grow_put_local_var var lv :
  maintains caches_grow (put_local_var var lv).
Proof. unfold put_local_var. maintains_tac. Qed.

Lemma caches_grow_set_current_scope owner s :
  maintains caches_grow (set_current_scope owner s).
Proof. unfold set_current_scope. maintains_tac. Qed.

#[local] Hint Resolve caches_grow_put_local_var
  caches_grow_set_current_scope : maintains.

Lemma caches_grow_Scope_add self var :
  maintains caches_grow (Scope_add self var).
Proof. unfold Scope_add. maintains_tac. Qed.

#[local] Hint Resolve caches_grow_Scope_add : maintains.

Lemma caches_grow_LocalVars_create self name type :
  maintains caches_grow (LocalVars_create self name type).
Proof.
  unfold LocalVars_create, LocalVars_create_scopeless. maintains_tac.
Qed.

#[local] Hint Resolve caches_grow_LocalVars_create : maintains.

Lemma caches_grow_ResolvedExpression_init self t name skippable abstract :
  maintains caches_grow
    (ResolvedExpression_init self t name skippable abstract).
Proof. unfold ResolvedExpression_init. maintains_tac. Qed.

#[local] Hint Resolve caches_grow_ResolvedExpression_init : maintains.

Lemma caches_grow_set_location id loc :
  maintains caches_grow (set_location id loc).
Proof. unfold set_location. maintains_tac. Qed.

Lemma caches_grow_expr_location e : maintains caches_grow (expr_location e).
Proof. unfold expr_location. maintains_tac. Qed.

Lemma caches_grow_check_expected e expected custom_msg downcast :
  maintains caches_grow (check_expected e expected custom_msg downcast).
Proof.
  unfold check_expected, Cast_Expr_new. maintains_tac.
Qed.

#[local] Hint Resolve caches_grow_set_location caches_grow_expr_location
  caches_grow_check_expected : maintains.

(** A variable object is read, then written back with the same cache or a
    larger one. *)
Lemma caches_grow_write v av av' w :
  variables w !! v = Some av ->
  construct_cache av ⊆ construct_cache av' ->
  caches_grow w (put_variable v av' w).1.
Proof. intros Hv Hsub. by eapply caches_grow_put_variable. Qed.

Lemma caches_grow_AbstractVariable_construct v :
  maintains caches_grow (AbstractVariable_construct v).
Proof.
  intros w w' r.
  destruct (variables w !! v) as [av|] eqn:Hv.
  - rewrite (AbstractVariable_construct_eq v av w Hv).
    destruct (construct_cache av !! (_name av, _type av)) eqn:Hc.
    { intros [= <- _]. reflexivity. }
    destruct (_type av) as [t|] eqn:Ht; intros [= <- _].
    + etransitivity;
        [apply (caches_grow_same_variables w
                  (with_node (next_object w) true w)); done|].
      apply (caches_grow_put_variable v av _
               (with_node (next_object w) true w)); [exact Hv|].
      simpl. by apply insert_subseteq.
    + by apply caches_grow_same_variables.
  - unfold AbstractVariable_construct, get_variable, lookup_store, bind.
    rewrite Hv. intros [= <- _]. reflexivity.
Qed.

Lemma caches_grow_update {A} v (f : AbstractVariable -> AbstractVariable)
    (k : AbstractVariable -> M World A) :
  (forall av, construct_cache (f av) = construct_cache av) ->
  (forall av, maintains caches_grow (k av)) ->
  maintains caches_grow
    (av <- get_variable v ;; put_variable v (f av) ;;; k av).
Proof.
  intros Hf Hk w w' r. unfold get_variable, lookup_store, bind at 1.
  destruct (variables w !! v) as [av|] eqn:Hv;
    [|intros [= <- _]; reflexivity].
  unfold bind, put_variable, modify.
  destruct (k av _) as [w2 r2] eqn:Hk2. intros Heq.
  assert (w2 = w') as -> by (by destruct r2; injection Heq).
  etransitivity; [|eapply Hk, Hk2].
  eapply caches_grow_put_variable; [exact Hv|]. by rewrite Hf.
Qed.

Lemma caches_grow_AbstractVariable_set_type v t :
  maintains caches_grow (AbstractVariable_set_type v t).
Proof.
  intros w w' r. unfold AbstractVariable_set_type.
  unfold get_variable, lookup_store, bind at 1.
  destruct (variables w !! v) as [av|] eqn:Hv;
    [|intros [= <- _]; reflexivity].
  unfold py_assert. case_bool_decide.
  - unfold bind at 1, ret at 1. unfold bind at 1, put_variable, modify.
    intros Hrest. etransitivity.
    + eapply (caches_grow_put_variable v av (set_av_type (Some t) av));
        [exact Hv|done].
    + revert Hrest.
      assert (maintains caches_grow
                match local_var av with
                | Some lv =>
                    v0 <- get_local_var lv ;;
                    put_local_var lv
                      (mkLocalVar (lv_name v0) (Some t) (lv_scope v0))
                | None => ret tt
                end) as Hm by maintains_tac.
      apply Hm.
  - intros [= <- _]. reflexivity.
Qed.

Lemma caches_grow_dynvar_binding_stack_pop p :
  maintains caches_grow (dynvar_binding_stack_pop p).
Proof. unfold dynvar_binding_stack_pop. maintains_tac. Qed.

#[local] Hint Resolve caches_grow_AbstractVariable_construct
  caches_grow_AbstractVariable_set_type
  caches_grow_dynvar_binding_stack_pop : maintains.

Lemma caches_grow_contextmanager {X B} (before_yield : M World X)
    (after_yield : X -> M World unit) (block : M World B) :
  maintains caches_grow before_yield ->
  (forall x, maintains caches_grow (after_yield x)) ->
  maintains caches_grow block ->
  maintains caches_grow (contextmanager before_yield after_yield block).
Proof. intros. unfold contextmanager. maintains_tac. Qed.

Lemma caches_grow__bind {B} v name (block : M World B) :
  maintains caches_grow block ->
  maintains caches_grow (_bind v name B block).
Proof.
  intros Hblock. unfold _bind. apply caches_grow_contextmanager; [| |done].
  - apply maintains_bind; [exact _|maintains_tac|intros p].
    apply (caches_grow_update v (set_av_name name)); [done|].
    intros av. maintains_tac.
  - intros [p saved].
    apply (caches_grow_update v (set_av_name saved)
             (fun _ => top <- dynvar_binding_stack_pop p ;;
                       py_assert (bool_decide (top = v)) EmptyString));
      [done|].
    intros av. maintains_tac.
Qed.

Lemma caches_grow_is_bound v : maintains caches_grow (is_bound v).
Proof. unfold is_bound, is_accepted_in. maintains_tac. Qed.

Lemma caches_grow_Variable_construct v :
  maintains caches_grow (Variable_construct v).
Proof.
  unfold Variable_construct, DynamicVariable_construct.
  pose proof (caches_grow_is_bound v). maintains_tac.
Qed.

Lemma caches_grow_py_map {A B} (f : A -> M World B) l :
  (forall x, maintains caches_grow (f x)) ->
  maintains caches_grow (py_map f l).
Proof. intros Hf. induction l as [|x l IH]; simpl; maintains_tac. Qed.

Section ConstructCaches.
Variable construct_ :
  PyVal -> option TypeOrPred -> option string -> bool ->
  M World ResolvedExpression.
Hypothesis construct_caches_grow_ :
  forall e expected custom_msg downcast,
    maintains caches_grow (construct_ e expected custom_msg downcast).

Lemma caches_grow_Let_construct_bindings scope bs acc :
  maintains caches_grow (Let_construct_bindings construct_ scope bs acc).
Proof.
  revert acc. induction bs as [|[var abs_expr] bs IH]; intros acc; simpl;
    maintains_tac.
Qed.

Lemma caches_grow_node_construct e :
  maintains caches_grow (node_construct construct_ e).
Proof.
  destruct e as [loc lit|loc name|v|loc l r op|loc dv value body
                |loc vars var_exprs body]; simpl.
  - unfold Literal_construct, LiteralExpr_new. maintains_tac.
  - unfold SymbolLiteral_construct, SymbolLiteral_Expr_new,
      ComputingExpr_init.
    maintains_tac.
  - apply caches_grow_Variable_construct.
  - unfold Arithmetic_construct, BasicExpr_new, ComputingExpr_init.
    maintains_tac.
  - unfold bind_construct.
    apply maintains_bind; [exact _|maintains_tac|intros [v av]].
    apply maintains_bind; [exact _|apply construct_caches_grow_|intros rv].
    apply maintains_bind; [exact _|maintains_tac|intros p].
    apply maintains_bind; [exact _|maintains_tac|intros value_var].
    apply caches_grow__bind.
    unfold DynamicVariableBindExpr_new, ComputingExpr_init. maintains_tac.
  - unfold Let_construct, Let_Expr_new, ComputingExpr_init.
    pose proof caches_grow_Let_construct_bindings.
    apply maintains_bind; [exact _|maintains_tac|intros scope].
    apply maintains_bind; [exact _|done|intros ves].
    apply maintains_bind; [exact _|by apply caches_grow_py_map|intros vs].
    maintains_tac.
Qed.

End ConstructCaches.

(** [construct] keeps every entry of every cache, whatever it is applied
    to and however it ends. *)
Lemma construct_caches_grow fuel e expected custom_msg downcast :
  maintains caches_grow
    (construct extract_library_location fuel e expected custom_msg downcast).
Proof.
  revert e expected custom_msg downcast.
  induction fuel as [|fuel IH]; intros e expected custom_msg downcast; simpl.
  { apply maintains_raise, _. }
  unfold construct_with.
  apply maintains_bind;
    [exact _|apply maintains_lift, _|intros [| | | | | |e']];
    try (apply maintains_raise, _).
  pose proof (caches_grow_node_construct _ IH e').
  maintains_tac.
Qed.

(** ** Dynamic variables: unbound references *)

(** Whether the currently bound property accepts the variable object [d]
    as an implicit argument. *)
Definition accepted_by_current (d : nat) (w : World) : bool :=
  match default None (last (current_properties w)) with
  | None => false
  | Some p =>
      match properties w !! p with
      | Some pd =>
          existsb (fun arg => bool_decide (arg_var arg = d)) (arguments pd)
      | None => false
      end
  end.

(** The dynamic variable [d] is unbound: the current property does not
    accept it, and no binding is established for it (its name is
    [None]). *)
Definition unbound (d : nat) (w : World) : bool :=
  match variables w !! d with
  | Some av => negb (accepted_by_current d w) && bool_decide (_name av = None)
  | None => false
  end.

(** The property on top of the stack, if any, is an object of the
    store. *)
Definition current_property_exists (w : World) : Prop :=
  match default None (last (current_properties w)) with
  | Some p => is_Some (properties w !! p)
  | None => True
  end.

Lemma is_bound_eq d av w :
  variables w !! d = Some av ->
  current_property_exists w ->
  is_bound d w = (w, Ok (negb (unbound d w))).
Proof.
  intros Hd Hcur. unfold is_bound, unbound, accepted_by_current,
    current_property_exists, PropertyDef_get, is_accepted_in, bind in *.
  rewrite Hd.
  destruct (default None (last (current_properties w))) as [p|].
  - unfold get_property, get_variable, lookup_store.
    destruct Hcur as [pd Hpd]. rewrite Hpd. cbn. rewrite Hd. cbn.
    unfold ret. do 2 f_equal.
    rewrite negb_andb, negb_involutive. f_equal.
    by case_bool_decide; case_bool_decide.
  - unfold get_variable, lookup_store. cbn. rewrite Hd. cbn.
    unfold ret. do 2 f_equal.
    by case_bool_decide; case_bool_decide.
Qed.

Lemma DynamicVariable_construct_eq d av w :
  variables w !! d = Some av ->
  current_property_exists w ->
  DynamicVariable_construct d w
  = if unbound d w
    then (w, Raise (DiagnosticError (not_bound_message av)))
    else AbstractVariable_construct d w.
Proof.
  intros Hd Hcur. unfold DynamicVariable_construct.
  rewrite (bind_ok _ _ _ _ _ (is_bound_eq d av w Hd Hcur)).
  unfold get_variable, lookup_store, bind at 1. rewrite Hd.
  by destruct (unbound d w).
Qed.

(** C6. Constructing a reference to the dynamic variable [d] raises the
    diagnostic "<name of d> is not bound in this context: ..." exactly when
    [d] is unbound, and leaves the world as it is. When [d] is bound,
    construction is the memoized construction of the variable node of [d],
    and it returns a node. *)
Theorem DynamicVariable_construct_unbound_iff d av t w :
  variables w !! d = Some av ->
  _type av = Some t ->
  current_property_exists w ->
  ((exists w' msg,
      DynamicVariable_construct d w = (w', Raise (DiagnosticError msg)))
   <-> unbound d w = true)
  /\ (unbound d w = true ->
      DynamicVariable_construct d w
      = (w, Raise (DiagnosticError
                     (names.lower (default EmptyString (argument_name av))
                      +:+ " is not bound in this context: please use the"
                      +:+ " .bind construct to bind it first."))))
  /\ (unbound d w = false ->
      DynamicVariable_construct d w = AbstractVariable_construct d w
      /\ exists w' e, AbstractVariable_construct d w = (w', Ok e)).
Proof.
  intros Hd Ht Hcur.
  rewrite (DynamicVariable_construct_eq d av w Hd Hcur).
  assert (exists w' e, AbstractVariable_construct d w = (w', Ok e)) as Hok.
  { rewrite (AbstractVariable_construct_eq d av w Hd), Ht.
    destruct (construct_cache av !! (_name av, Some t)); eauto. }
  destruct (unbound d w); split_and!.
  - split; [done|]. intros _. eauto.
  - done.
  - done.
  - split; [|done]. intros (w' & msg & Hraise).
    destruct Hok as (w'' & e & Hok). congruence.
  - done.
  - done.
Qed.

(** Inside [_bind], the variable is bound: a reference to it is
    constructed by the memoized construction, and the diagnostic is not
    raised. *)
Lemma DynamicVariable_construct_inside__bind d av p pd name w :
  variables w !! d = Some av ->
  default None (last (current_properties w)) = Some p ->
  properties w !! p = Some pd ->
  _bind d (Some name) _ (DynamicVariable_construct d) w
  = _bind d (Some name) _ (AbstractVariable_construct d) w.
Proof.
  intros Hd Hcur Hpd.
  set (w1 := set_properties
               (<[p := set_dynvar_binding_stack
                         (dynvar_binding_stack pd ++ [d]) pd]>
                  (properties w))
               (set_variables
                  (<[d := set_av_name (Some name) av]> (variables w)) w)).
  assert (variables w1 !! d = Some (set_av_name (Some name) av)) as Hd1.
  { simpl. apply lookup_insert_eq. }
  assert (current_property_exists w1) as Hcur1.
  { unfold current_property_exists. simpl. rewrite Hcur. simpl.
    rewrite lookup_insert_eq. eauto. }
  assert (unbound d w1 = false) as Hb.
  { unfold unbound. rewrite Hd1. simpl. apply andb_false_r. }
  unfold _bind, contextmanager.
  assert ((p0 <- PropertyDef_get ;;
           av0 <- get_variable d ;;
           put_variable d (set_av_name (Some name) av0) ;;;
           match p0 with
           | Some p1 =>
               pd0 <- get_property p1 ;;
               put_property p1
                 (set_dynvar_binding_stack (dynvar_binding_stack pd0 ++ [d])
                    pd0) ;;;
               ret (p1, _name av0)
           | None =>
               raise (AttributeError
                 "'NoneType' object has no attribute 'dynvar_binding_stack'")
           end) w = (w1, Ok (p, _name av))) as Hbefore.
  { unfold PropertyDef_get, bind at 1. rewrite Hcur.
    unfold get_variable, lookup_store, bind at 1. rewrite Hd.
    unfold put_variable, modify, bind at 1.
    unfold get_property, lookup_store, bind at 1. simpl. rewrite Hpd.
    reflexivity. }
  rewrite !(bind_ok _ _ _ _ _ Hbefore).
  unfold bind at 1. unfold bind at 5.
  by rewrite (DynamicVariable_construct_eq d _ w1 Hd1 Hcur1), Hb.
Qed.

(** ** [construct]: the expected type and the implicit downcast *)

(** The world after [construct] has recorded the location [loc] on the
    node [id], whose attributes were [st]. *)
Definition located (id : nat) (loc : option (string * nat)) (st : REState)
    (w : World) : World :=
  set_resolved
    (<[id := mkREState (_result_var st) (skippable_refcount st)
               (abstract_expr st) (_render_pre_called st) (Some loc)
               (ve_ignored st)]> (resolved w)) w.




(** ** Reference-counted nodes and their result variable *)




(** ** Variables named ["_"] *)

Lemma lower_underscore : names.lower "_" = "_".
Proof. reflexivity. Qed.

Lemma from_lower_underscore : names.from_lower "_" = "_".
Proof. reflexivity. Qed.

(** The names given to the variables named ["_"] are distinct for distinct
    values of the counter. *)
Global Instance unused_name_inj :
  Inj (=) (=) (fun i : nat => "Unused_" +:+ pretty i).
Proof. intros i j Heq. by apply (inj _), (inj pretty) in Heq. Qed.

Lemma VariableExpr_ignored_reads e w w' r :
  VariableExpr_ignored e w = (w', r) -> w' = w.
Proof.
  unfold VariableExpr_ignored, get_re_state, get_variable, lookup_store, bind.
  destruct (resolved w !! re_id e); [|by intros [= <- _]].
  destruct (ve_abstract_var e) as [v|]; [|by intros [= <- _]].
  destruct (variables w !! v); by intros [= <- _].
Qed.

Lemma unused_binding_reads entry w w' r :
  unused_binding entry w = (w', r) -> w' = w.
Proof.
  unfold unused_binding. intros Hb.
  apply bind_inv in Hb as [(e & Hb & _)|(b & w1 & Hb & [= <- _])];
    by apply VariableExpr_ignored_reads in Hb.
Qed.

Lemma py_filter_reads {A} (f : A -> M World bool) l w w' ys :
  (forall x w w' r, f x w = (w', r) -> w' = w) ->
  py_filter f l w = (w', Ok ys) ->
  w' = w /\ forall x, x ∈ ys -> f x w = (w, Ok true).
Proof.
  intros Hf. revert ys. induction l as [|x l IH]; intros ys; simpl.
  { intros [= <- <-]. split; [done|]. by intros x ?%elem_of_nil. }
  intros Hb. apply bind_ok_inv in Hb as (b & w1 & Hx & Hb).
  pose proof (Hf _ _ _ _ Hx) as ->.
  apply bind_ok_inv in Hb as (zs & w2 & Hl & [= <- <-]).
  destruct (IH zs Hl) as [-> Hzs]. split; [done|].
  intros y Hy. destruct b.
  - apply elem_of_cons in Hy as [->|Hy]; [done|by apply Hzs].
  - by apply Hzs.
Qed.

(** [create_local_variable] without a scope, on a variable object that has
    a name and no local variable yet, under a bound property. *)
Lemma create_local_variable_eq self av name p pd w :
  variables w !! self = Some av ->
  local_var av = None ->
  _name av = Some name ->
  default None (last (current_properties w)) = Some p ->
  properties w !! p = Some pd ->
  exists k,
    create_local_variable self None w
    = (set_variables
         (<[self := set_av_name (Some (candidate name k))
                      (set_local_var (Some (p, candidate name k)) av)]>
            (variables w))
         (set_properties
            (<[p := set_pd_vars
                      (mkLocalVars
                         (<[candidate name k
                            := mkLocalVar (candidate name k) (_type av)
                                 None]> (local_vars (pd_vars pd)))
                         (root_scope (pd_vars pd))
                         (current_scope (pd_vars pd))) pd]>
               (properties w)) w),
       Ok tt)
    /\ table p w !! candidate name k = None
    /\ forall j, j < k -> is_Some (table p w !! candidate name j).
Proof.
  intros Hself Hlv Hname Hcur Hpd.
  destruct (LocalVars_create_scopeless_eq p pd name (_type av) w Hpd)
    as (k & Hcreate & Hnone & Hbelow).
  exists k. split_and!; [|done|done].
  unfold create_local_variable.
  erewrite bind_ok;
    [|unfold get_variable, lookup_store; by rewrite Hself].
  rewrite Hlv, bool_decide_eq_true_2 by done.
  erewrite bind_ok; [|reflexivity].
  erewrite bind_ok;
    [|unfold current_property_attr, PropertyDef_get, bind; by rewrite Hcur].
  rewrite Hname. erewrite bind_ok; [|exact Hcreate].
  reflexivity.
Qed.

(** A variable named ["_"] that asks for a local variable: the name
    ["Unused_<i>"] is requested from the table of the bound property, which
    gives it unless the table already holds it. *)
Lemma AbstractVariable_init_underscore_local cls argument type source
    location p pd w :
  default None (last (current_properties w)) = Some p ->
  properties w !! p = Some pd ->
  exists k w',
    let n := candidate ("Unused_" +:+ pretty (unused_count w)) k in
    AbstractVariable_init cls argument (Some "_") type true source location w
    = (w', Ok (next_object w))
    /\ variables w' !! next_object w
       = Some (mkAbstractVariable cls location argument type (Some (p, n))
                 (Some n) source ∅ false)
    /\ unused_count w' = S (unused_count w)
    /\ table p w !! n = None
    /\ forall j, j < k ->
         is_Some (table p w
                  !! candidate ("Unused_" +:+ pretty (unused_count w)) j).
Proof.
  intros Hcur Hpd.
  set (av := mkAbstractVariable cls location argument type None
               (Some ("Unused_" +:+ pretty (unused_count w))) None ∅ false).
  set (w1 := set_variables (<[next_object w := av]> (variables w))
               (set_unused_count (S (unused_count w))
                  (set_next_object (S (next_object w)) w))).
  destruct (create_local_variable_eq (next_object w) av
              ("Unused_" +:+ pretty (unused_count w)) p pd w1)
    as (k & Hcreate & Hnone & Hbelow);
    [apply lookup_insert_eq|done|done|done|done|].
  exists k. eexists. cbv zeta. split_and!; [| | |exact Hnone|exact Hbelow].
  - unfold AbstractVariable_init.
    erewrite bind_ok; [|reflexivity].
    rewrite lower_underscore, bool_decide_eq_true_2 by done.
    erewrite bind_ok; [|reflexivity].
    erewrite bind_ok; [|reflexivity].
    erewrite bind_ok; [|exact Hcreate].
    erewrite bind_ok;
      [|unfold get_variable, lookup_store; simpl variables;
        by rewrite lookup_insert_eq].
    reflexivity.
  - simpl. rewrite lookup_insert_eq. reflexivity.
  - reflexivity.
Qed.

(** C10. A variable object created with the name ["_"] is given the name
    ["Unused_<i>"], where [i] is the value of the class-level counter,
    which is incremented; when it asks for a local variable, that name is
    requested from the table of the bound property, which gives it unless
    it holds it already (and then disambiguates it as for every local
    variable). The names ["Unused_<i>"] are distinct for distinct values of
    the counter. A variable object whose source name is ["_"] is
    [ignored]. And the comprehension that selects the unused bindings to
    warn about never selects a variable node whose variable object has the
    source name ["_"], whether the node was read or not. *)
Theorem underscore_variables_are_renamed_and_ignored :
  (forall cls argument type source location w,
     AbstractVariable_init cls argument (Some "_") type false source
       location w
     = (set_variables
          (<[next_object w
             := mkAbstractVariable cls location argument type None
                  (Some ("Unused_" +:+ pretty (unused_count w))) source ∅
                  false]> (variables w))
          (set_unused_count (S (unused_count w))
             (set_next_object (S (next_object w)) w)),
        Ok (next_object w)))
  /\ (forall cls argument type source location p pd w,
        default None (last (current_properties w)) = Some p ->
        properties w !! p = Some pd ->
        exists k w',
          let n := candidate ("Unused_" +:+ pretty (unused_count w)) k in
          AbstractVariable_init cls argument (Some "_") type true source
            location w
          = (w', Ok (next_object w))
          /\ variables w' !! next_object w
             = Some (mkAbstractVariable cls location argument type
                       (Some (p, n)) (Some n) source ∅ false)
          /\ unused_count w' = S (unused_count w)
          /\ table p w !! n = None
          /\ forall j, j < k ->
               is_Some
                 (table p w
                  !! candidate ("Unused_" +:+ pretty (unused_count w)) j))
  /\ Inj (=) (=) (fun i : nat => "Unused_" +:+ pretty i)
  /\ (forall cls location argument type lv name cache ignored,
        AbstractVariable_ignored
          (mkAbstractVariable cls location argument type lv name (Some "_")
             cache ignored) = true)
  /\ (forall var v av st all_vars w w' selected is_used,
        ve_abstract_var var = Some v ->
        variables w !! v = Some av ->
        source_name av = Some "_" ->
        resolved w !! re_id var = Some st ->
        py_filter unused_binding all_vars w = (w', Ok selected) ->
        (var, is_used) ∉ selected).
Proof.
  split_and!.
  - intros cls argument type source location w.
    unfold AbstractVariable_init, new_object. unfold bind at 1.
    rewrite lower_underscore. simpl bool_decide. cbv iota.
    unfold bind at 2. unfold get at 1. unfold bind at 2.
    unfold modify at 1. unfold ret at 1. unfold bind at 1.
    unfold put_variable at 1, modify at 1. unfold bind at 1.
    unfold ret at 1. unfold bind at 1.
    unfold get_variable, lookup_store. unfold bind at 1. simpl variables.
    rewrite lookup_insert_eq. unfold put_variable, modify, bind, ret.
    simpl. by rewrite insert_insert_eq.
  - intros. by eapply AbstractVariable_init_underscore_local.
  - apply _.
  - intros. unfold AbstractVariable_ignored. simpl source_name.
    rewrite bool_decide_eq_true_2 by done. apply orb_true_r.
  - intros var v av st all_vars w w' selected is_used Hv Hav Hsrc Hst Hf Hin.
    apply py_filter_reads in Hf as [-> Hsel]; [|apply unused_binding_reads].
    specialize (Hsel _ Hin). revert Hsel.
    unfold unused_binding, VariableExpr_ignored, get_re_state, get_variable,
      lookup_store, bind. simpl. rewrite Hst, Hv, Hav.
    unfold AbstractVariable_ignored, ret.
    rewrite Hsrc, bool_decide_eq_true_2 by done.
    rewrite !orb_true_r, andb_false_r. discriminate.
Qed.

(** ** Freezing *)

Lemma dict_get_set_eq key v d :
  Frozable.dict_get key (Frozable.dict_set key v d) = Some v.
Proof.
  induction d as [|[k v'] d IH]; simpl.
  - by rewrite bool_decide_eq_true_2.
  - case_bool_decide as Hk; simpl.
    + by rewrite bool_decide_eq_true_2.
    + by rewrite bool_decide_eq_false_2.
Qed.

Lemma elem_of_unfrozen (h : gmap nat Frozable.Obj) x :
  x ∈ Frozable.unfrozen h
  <-> exists o, h !! x = Some o /\ Frozable.frozen o = false.
Proof.
  unfold Frozable.unfrozen. rewrite elem_of_dom. split.
  - intros [o Ho]. apply map_lookup_filter_Some in Ho as [Ho Hf]. eauto.
  - intros (o & Ho & Hf). exists o. by apply map_lookup_filter_Some.
Qed.

(** Freezing an object of the store takes it out of the unfrozen ones. *)
Lemma unfrozen_insert_frozen (h : gmap nat Frozable.Obj) self o o' :
  h !! self = Some o ->
  Frozable.frozen o = false ->
  Frozable.frozen o' = true ->
  Frozable.unfrozen (<[self := o']> h) ⊂ Frozable.unfrozen h.
Proof.
  intros Ho Hf Hf'. split.
  - intros x (ox & Hx & Hfx)%elem_of_unfrozen. apply elem_of_unfrozen.
    destruct (decide (x = self)) as [->|Hne].
    + rewrite lookup_insert_eq in Hx. congruence.
    + rewrite lookup_insert_ne in Hx by done. eauto.
  - intros Hsub.
    assert (self ∈ Frozable.unfrozen h) as Hin
      by (apply elem_of_unfrozen; eauto).
    apply Hsub, elem_of_unfrozen in Hin as (ox & Hx & Hfx).
    rewrite lookup_insert_eq in Hx. congruence.
Qed.

(** [trigger_freeze(True)] returns within a depth of recursion of one more
    than the number of unfrozen objects; it unfreezes nothing and keeps the
    objects of the store. *)
Lemma trigger_freeze_returns fuel self (h : gmap nat Frozable.Obj) :
  size (Frozable.unfrozen h) < fuel ->
  exists h',
    Frozable.trigger_freeze fuel self true h = Some h'
    /\ Frozable.unfrozen h' ⊆ Frozable.unfrozen h
    /\ dom h' = dom h
    /\ self ∉ Frozable.unfrozen h'.
Proof.
  revert self h. induction fuel as [|fuel IH]; intros self h Hsize; [lia|].
  simpl. destruct (h !! self) as [o|] eqn:Ho.
  2:{ exists h. split_and!; [done|done|done|].
      intros (o & Ho' & _)%elem_of_unfrozen. congruence. }
  destruct (Frozable.frozen o) eqn:Hf; simpl.
  { exists h. split_and!; [done|done|done|].
    intros (o' & Ho' & Hf')%elem_of_unfrozen. congruence. }
  set (o' := Frozable.mkObj (Frozable.is_frozable o) (Frozable.class_name o)
               (Frozable.dict_set "_frozen" (Frozable.VBool true)
                  (Frozable.dict o))).
  assert (Frozable.frozen o' = true) as Hf'.
  { unfold Frozable.frozen. simpl. by rewrite dict_get_set_eq. }
  pose proof (unfrozen_insert_frozen h self o o' Ho Hf Hf') as Hlt.
  assert (size (Frozable.unfrozen (<[self := o']> h)) < fuel) as Hsize1.
  { pose proof (subset_size _ _ Hlt). lia. }
  assert (dom (<[self := o']> h) = dom h) as Hdom1.
  { apply set_eq. intros x.
    rewrite dom_insert, elem_of_union, elem_of_singleton.
    apply elem_of_dom_2 in Ho. naive_solver. }
  assert (forall (d : list (string * Frozable.Value))
                 (h1 : gmap nat Frozable.Obj),
            Frozable.unfrozen h1 ⊆ Frozable.unfrozen (<[self := o']> h) ->
            dom h1 = dom h ->
            exists h',
              fold_left
                (fun (acc : option (gmap nat Frozable.Obj))
                     (kv : string * Frozable.Value) =>
                   match acc with
                   | None => None
                   | Some h' =>
                       match Frozable.is_Frozable_instance h' (snd kv) with
                       | Some r => Frozable.trigger_freeze fuel r true h'
                       | None => Some h'
                       end
                   end) d (Some h1) = Some h'
              /\ Frozable.unfrozen h' ⊆ Frozable.unfrozen h
              /\ dom h' = dom h
              /\ self ∉ Frozable.unfrozen h') as Hfold.
  { induction d as [|[k v] d IHd]; intros h1 Hsub1 Hdomh; simpl.
    - exists h1. split_and!; [done| |done|].
      + etransitivity; [exact Hsub1|]. apply Hlt.
      + intros Hin%Hsub1%elem_of_unfrozen. destruct Hin as (ox & Hx & Hfx).
        rewrite lookup_insert_eq in Hx. congruence.
    - destruct (Frozable.is_Frozable_instance h1 v) as [r|].
      + destruct (IH r h1) as (h2 & -> & Hsub2 & Hdom2 & _).
        { apply subseteq_size in Hsub1. lia. }
        apply IHd; [by etransitivity|congruence].
      + by apply IHd. }
  by apply Hfold.
Qed.

Lemma freeze_returns self (h : gmap nat Frozable.Obj) :
  exists h',
    Frozable.freeze self h = Some h'
    /\ dom h' = dom h
    /\ self ∉ Frozable.unfrozen h'.
Proof.
  destruct (trigger_freeze_returns (S (size (Frozable.unfrozen h))) self h)
    as (h' & Hh' & _ & Hdom & Hself); [lia|].
  exists h'. by split_and!.
Qed.

(** Freezing what is frozen changes nothing. *)
Lemma freeze_frozen self (h : gmap nat Frozable.Obj) :
  self ∉ Frozable.unfrozen h -> Frozable.freeze self h = Some h.
Proof.
  intros Hself. unfold Frozable.freeze. simpl.
  destruct (h !! self) as [o|] eqn:Ho; [|done].
  destruct (Frozable.frozen o) eqn:Hf; [done|].
  destruct Hself. apply elem_of_unfrozen. eauto.
Qed.

Lemma protect_frozen {A} func_name
    (func : nat -> list Frozable.Value -> M (gmap nat Frozable.Obj) A)
    self o args (h : gmap nat Frozable.Obj) :
  h !! self = Some o ->
  Frozable.frozen o = true ->
  Frozable.protect func_name func self args h
  = (h, Raise (PyException
                 (if bool_decide (func_name = "__getattr__")
                  then "Illegal field access: "
                       +:+ match args with
                           | Frozable.VStr attr :: _ => attr
                           | _ => EmptyString
                           end
                  else " Illegal method call: " +:+ func_name))).
Proof.
  intros Ho Hf. unfold Frozable.protect. rewrite Ho.
  unfold Frozable.frozen in Hf. by rewrite Hf.
Qed.

(** C7. [freeze] returns on every store; the object it is applied to is
    frozen afterwards; freezing a second time leaves the store exactly as
    the first freeze left it. On a frozen object, every method of the
    operator sugar raises the exception " Illegal method call: <method>",
    and [__getattr__], which implements dynamic field access, raises
    "Illegal field access: <attribute>"; the store is unchanged, and the
    result depends on nothing else. *)
Theorem freeze_idempotent_and_sugar_illegal :
  (forall self (h : gmap nat Frozable.Obj),
     exists h',
       Frozable.freeze self h = Some h'
       /\ Frozable.freeze self h' = Some h'
       /\ forall o, h !! self = Some o ->
            exists o', h' !! self = Some o' /\ Frozable.frozen o' = true)
  /\ (forall instantiate location name method self o args
             (h : gmap nat Frozable.Obj),
        (name, method) ∈ Frozable.operator_sugar instantiate location ->
        h !! self = Some o ->
        Frozable.frozen o = true ->
        method self args h
        = (h, Raise (PyException (" Illegal method call: " +:+ name))))
  /\ (forall getattr_body self o attr args (h : gmap nat Frozable.Obj),
        h !! self = Some o ->
        Frozable.frozen o = true ->
        Frozable.__getattr__ getattr_body self (Frozable.VStr attr :: args) h
        = (h, Raise (PyException ("Illegal field access: " +:+ attr)))).
Proof.
  split_and!.
  - intros self h. destruct (freeze_returns self h) as (h' & Hh' & Hdom & Hs).
    exists h'. split_and!; [done|by apply freeze_frozen|].
    intros o Ho.
    assert (is_Some (h' !! self)) as [o' Ho'].
    { apply elem_of_dom. rewrite Hdom. by apply elem_of_dom_2 in Ho. }
    exists o'. split; [done|].
    destruct (Frozable.frozen o') eqn:Hf; [done|].
    destruct Hs. apply elem_of_unfrozen. eauto.
  - intros instantiate location name method self o args h Hin Ho Hf.
    unfold Frozable.operator_sugar in Hin.
    repeat (apply elem_of_cons in Hin as [[= -> ->]|Hin];
            [unfold Frozable.__or__, Frozable.__and__, Frozable.__lt__,
               Frozable.__le__, Frozable.__sub__, Frozable.__add__,
               Frozable.__gt__, Frozable.__ge__, Frozable.__eq__;
             by erewrite protect_frozen|]).
    by apply elem_of_nil in Hin.
  - intros getattr_body self o attr args h Ho Hf.
    unfold Frozable.__getattr__. by erewrite protect_frozen.
Qed.

(** ** Context managers and exceptions *)

(** When the managed block returns, the part after the [yield] runs. *)
Lemma contextmanager_block_returns {X B} (before_yield : M World X)
    (after_yield : X -> M World unit) (block : M World B) x b w w1 w2 w3 :
  before_yield w = (w1, Ok x) ->
  block w1 = (w2, Ok b) ->
  after_yield x w2 = (w3, Ok tt) ->
  contextmanager before_yield after_yield block w = (w3, Ok b).
Proof.
  intros Hb Hblock Ha. unfold contextmanager.
  rewrite (bind_ok _ _ _ _ _ Hb), (bind_ok _ _ _ _ _ Hblock).
  by rewrite (bind_ok _ _ _ _ _ Ha).
Qed.

(** When the managed block raises, the part after the [yield] does not
    run: the world is the one the block left. *)
Lemma contextmanager_block_raises {X B} (before_yield : M World X)
    (after_yield : X -> M World unit) (block : M World B) x e w w1 w2 :
  before_yield w = (w1, Ok x) ->
  block w1 = (w2, Raise e) ->
  contextmanager before_yield after_yield block w = (w2, Raise e).
Proof.
  intros Hb Hblock. unfold contextmanager.
  by rewrite (bind_ok _ _ _ _ _ Hb), (bind_raise _ _ _ _ _ Hblock).
Qed.

(** [PropertyDef.bind] around a block that returns and leaves the stack as
    it found it: the stack is as before the [with] statement. *)
Lemma PropertyDef_bind_restores_on_return {B} self (block : M World B)
    b w w2 :
  block (set_current_properties (current_properties w ++ [Some self]) w)
  = (w2, Ok b) ->
  current_properties w2 = current_properties w ++ [Some self] ->
  PropertyDef_bind self B block w
  = (set_current_properties (current_properties w) w2, Ok b).
Proof.
  intros Hblock Hstack. unfold PropertyDef_bind.
  eapply contextmanager_block_returns; [reflexivity|exact Hblock|].
  unfold bind, get. rewrite Hstack.
  destruct (current_properties w ++ [Some self]) as [|q l] eqn:Hl.
  { by apply app_nil in Hl as [_ ?]. }
  unfold modify. by rewrite <-Hl, removelast_last.
Qed.

(** [PropertyDef.bind] around a block that raises: the property stays on
    the stack. *)
Lemma PropertyDef_bind_keeps_on_raise {B} self (block : M World B) e w w2 :
  block (set_current_properties (current_properties w ++ [Some self]) w)
  = (w2, Raise e) ->
  PropertyDef_bind self B block w = (w2, Raise e).
Proof.
  intros Hblock. unfold PropertyDef_bind.
  eapply contextmanager_block_raises; [reflexivity|exact Hblock].
Qed.

(** [try ... finally] runs its clean-up also when the body raises. *)
Lemma try_finally_cleans_up {A} (body : M World A) cleanup w w1 r :
  body w = (w1, r) -> try_finally body cleanup w = (cleanup w1, r).
Proof. unfold try_finally. by intros ->. Qed.

End Claims.

(** * More of the module *)

Section More.
Context `{TypeRegistry}.
Variable extract_library_location : option (string * nat).

(** ** [unsugar] and [construct] on values that are no expressions *)

(** X1. Without [ignore_errors], [unsugar] returns [None] or an abstract
    expression, and applying it to its own result changes nothing; what it
    raises is the diagnostic "Invalid abstract expression". With
    [ignore_errors] it never raises: it returns what it returns without
    [ignore_errors], and a value that is no expression as it is (the
    target, for a deferred reference). *)
Theorem unsugar_is_idempotent expr :
  match unsugar extract_library_location expr false with
  | Ok r =>
      (r = PyNone \/ exists e, r = PyExpr e)
      /\ unsugar extract_library_location r false = Ok r
      /\ unsugar extract_library_location expr true = Ok r
  | Raise e =>
      (exists text,
         e = DiagnosticError ("Invalid abstract expression: " +:+ text))
      /\ unsugar extract_library_location expr true
         = Ok (match expr with PyDefer target => target | _ => expr end)
  end.
Proof.
  destruct expr as [|b|z|s|target|repr|e]; simpl; eauto 6.
  destruct target; simpl; eauto 6.
Qed.

(** X2. [construct] on a host value is [construct] on what [unsugar] makes
    of it: booleans, integers and texts are wrapped into literal nodes, a
    deferred reference is replaced by its target. What [unsugar] rejects is
    rejected with the same diagnostic; [None], which [unsugar] lets
    through, makes [construct] fail with an [AttributeError], since [None]
    has no [diagnostic_context]. Nothing is allocated or changed in these
    two cases. *)
Theorem construct_unsugars_first fuel v expected custom_msg downcast w :
  construct extract_library_location (S fuel) v expected custom_msg downcast
    w
  = match unsugar extract_library_location v false with
    | Raise e => (w, Raise e)
    | Ok PyNone =>
        (w, Raise (AttributeError
                     "'NoneType' object has no attribute 'diagnostic_context'"))
    | Ok r =>
        construct extract_library_location (S fuel) r expected custom_msg
          downcast w
    end.
Proof.
  destruct v as [|b|z|s|target|repr|e]; try reflexivity.
  destruct target; reflexivity.
Qed.

(** The default message of a failed predicate. *)
Lemma predicate_message (name : string) :
  replace_hole "{expr_type}" name 0
    "Evaluating predicate on {expr_type} failed"
  = "Evaluating predicate on " +:+ name +:+ " failed".
Proof. reflexivity. Qed.

(** X3. [construct] with a predicate on types, or with no expectation at
    all. Let the method [construct] of the expression [e] return the node
    [ret_]. With a predicate and no custom message, [construct] returns
    [ret_] itself when the predicate holds of the type of [ret_], and
    raises "Evaluating predicate on <type> failed" when it does not; with
    no expectation it returns [ret_]. No conversion node is ever created,
    whatever [downcast] is, and the location of [e] is recorded on [ret_]
    in every case. *)
Theorem construct_checks_predicate
    (nc : AbstractExpression -> M World ResolvedExpression)
    e pred custom_msg downcast w w1 ret_ loc st :
  nc e w = (w1, Ok ret_) ->
  expr_location e w1 = (w1, Ok loc) ->
  resolved w1 !! re_id ret_ = Some st ->
  truthy_msg custom_msg = None ->
  construct_with extract_library_location nc (PyExpr e)
    (Some (ExpectedPred pred)) custom_msg downcast w
  = (located (re_id ret_) loc st w1,
     if pred (re_type ret_) then Ok ret_
     else Raise (DiagnosticError
                   ("Evaluating predicate on " +:+ type_name (re_type ret_)
                    +:+ " failed")))
  /\ construct_with extract_library_location nc (PyExpr e) None custom_msg
       downcast w
     = (located (re_id ret_) loc st w1, Ok ret_).
Proof.
  intros Hnc Hloc Hst Hmsg. rewrite !construct_with_expr.
  rewrite !(bind_ok _ _ _ _ _ Hnc), !(bind_ok _ _ _ _ _ Hloc).
  rewrite !(bind_ok _ _ _ _ _ (set_location_eq _ loc st w1 Hst)).
  split; [|reflexivity].
  unfold check_expected, check_source_language. rewrite Hmsg. simpl default.
  rewrite predicate_message. by destruct (pred (re_type ret_)).
Qed.

(** ** [Arithmetic] *)

Lemma BasicExpr_new_ok result_var_name template t operands abstract w w' e :
  BasicExpr_new result_var_name template t operands abstract w = (w', Ok e) ->
  e = BasicExpr (next_object w) template t operands true.
Proof.
  unfold BasicExpr_new. intros Hb.
  apply bind_ok_inv in Hb as (id & w1 & [= <- <-] & Hb).
  apply bind_ok_inv in Hb as ([] & w2 & _ & [= _ <-]). done.
Qed.

Lemma Arithmetic_construct_ok construct_ self l r op w w' e :
  Arithmetic_construct construct_ self l r op w = (w', Ok e) ->
  exists nl nr,
    flat_subexprs e = [nl; nr]
    /\ re_type nl = re_type e /\ re_type nr = re_type e
    /\ (re_type e = long_type \/ (re_type e = symbol_type /\ op = "&")).
Proof.
  unfold Arithmetic_construct. intros Ha.
  apply bind_ok_inv in Ha as (nl & w1 & _ & Ha).
  apply bind_ok_inv in Ha as (nr & w2 & _ & Ha).
  exists nl, nr.
  destruct (bool_decide (re_type nl = symbol_type)
            && bool_decide (re_type nr = symbol_type)) eqn:Hsym.
  - apply andb_prop in Hsym as [Hl%bool_decide_eq_true Hr%bool_decide_eq_true].
    apply bind_ok_inv in Ha as ([] & w3 & Hop & Ha).
    apply BasicExpr_new_ok in Ha as ->. simpl.
    unfold py_assert, raise in Hop.
    destruct (decide (op = "&")) as [Hamp|Hamp];
      [|by rewrite bool_decide_eq_false_2 in Hop].
    split_and!; [done|done|done|by right].
  - apply bind_ok_inv in Ha as ([] & w3 & Hsame & Ha).
    apply bind_ok_inv in Ha as ([] & w4 & Hlong & Ha).
    apply BasicExpr_new_ok in Ha as ->. simpl.
    unfold check_source_language, raise in Hsame, Hlong.
    destruct (decide (re_type nl = re_type nr)) as [Heq|Hne];
      [|by rewrite bool_decide_eq_false_2 in Hsame].
    destruct (decide (re_type nl = symbol_type)) as [Hl|Hl].
    { rewrite <-Heq, !bool_decide_eq_true_2 in Hsym by done. done. }
    rewrite (bool_decide_eq_false_2 (re_type nl = symbol_type)) in Hlong
      by done.
    destruct (decide (re_type nl = long_type)) as [Hl'|Hl'];
      [|by rewrite bool_decide_eq_false_2 in Hlong].
    split_and!; [done|done|congruence|by left].
Qed.

(** X4. Whenever the construction of [Arithmetic(l, r, op)] returns a
    node, its operands are the two nodes constructed for [l] and [r], both
    have the type of the result, and this type is the integer type, or the
    symbol type with the operator [&]. When the constructed operands have
    different types, the diagnostic "Incompatible types for <op>: <left>
    and <right>" is raised; when they have the same type, which is neither
    the integer type nor the symbol type, the diagnostic is "Invalid type
    for <op>: <type>". *)
Theorem Arithmetic_operands_have_the_type_of_the_result :
  (forall fuel loc l r op custom_msg downcast w w' e,
     construct extract_library_location fuel (PyExpr (Arithmetic loc l r op))
       None custom_msg downcast w = (w', Ok e) ->
     exists nl nr,
       flat_subexprs e = [nl; nr]
       /\ re_type nl = re_type e /\ re_type nr = re_type e
       /\ (re_type e = long_type \/ (re_type e = symbol_type /\ op = "&")))
  /\ (forall construct_ self l r op w w1 w2 nl nr,
        construct_ l None None true w = (w1, Ok nl) ->
        construct_ r None None true w1 = (w2, Ok nr) ->
        re_type nl <> re_type nr ->
        Arithmetic_construct construct_ self l r op w
        = (w2, Raise (DiagnosticError
                        ("Incompatible types for " +:+ op +:+ ": "
                         +:+ type_name (re_type nl) +:+ " and "
                         +:+ type_name (re_type nr)))))
  /\ (forall construct_ self l r op w w1 w2 nl nr,
        construct_ l None None true w = (w1, Ok nl) ->
        construct_ r None None true w1 = (w2, Ok nr) ->
        re_type nl = re_type nr ->
        re_type nl <> long_type ->
        re_type nl <> symbol_type ->
        Arithmetic_construct construct_ self l r op w
        = (w2, Raise (DiagnosticError
                        ("Invalid type for " +:+ op +:+ ": "
                         +:+ type_name (re_type nl))))).
Proof.
  split_and!.
  - intros [|fuel] loc l r op custom_msg downcast w w' e; [done|].
    simpl. rewrite construct_with_expr. intros Hc.
    apply bind_ok_inv in Hc as (e0 & w1 & Hnode & Hc).
    apply bind_ok_inv in Hc as (loc' & w2 & _ & Hc).
    apply bind_ok_inv in Hc as ([] & w3 & _ & [= _ <-]).
    by apply Arithmetic_construct_ok in Hnode.
  - intros construct_ self l r op w w1 w2 nl nr Hl Hr Hne.
    unfold Arithmetic_construct.
    rewrite (bind_ok _ _ _ _ _ Hl), (bind_ok _ _ _ _ _ Hr).
    destruct (bool_decide (re_type nl = symbol_type)
              && bool_decide (re_type nr = symbol_type)) eqn:Hsym.
    { apply andb_prop in Hsym
        as [Hl'%bool_decide_eq_true Hr'%bool_decide_eq_true]. congruence. }
    by rewrite bool_decide_eq_false_2.
  - intros construct_ self l r op w w1 w2 nl nr Hl Hr Heq Hlong Hsym.
    unfold Arithmetic_construct.
    rewrite (bind_ok _ _ _ _ _ Hl), (bind_ok _ _ _ _ _ Hr).
    rewrite (bool_decide_eq_false_2 (re_type nl = symbol_type)) by done.
    cbn [andb orb].
    rewrite (bool_decide_eq_true_2 (re_type nl = re_type nr)) by done.
    erewrite bind_ok; [|reflexivity].
    rewrite (bool_decide_eq_false_2 (re_type nl = long_type)) by done.
    reflexivity.
Qed.

(** ** Freezing reaches every component *)

(** Whether the object [y] of the store is frozen. *)
Definition frozen_in (h : gmap nat Frozable.Obj) (y : nat) : bool :=
  match h !! y with
  | Some o => Frozable.frozen o
  | None => false
  end.

(** The instances of [Frozable] among the values of the attributes of an
    object: what [trigger_freeze] descends into. *)
Definition components (h : gmap nat Frozable.Obj) (o : Frozable.Obj)
  : list nat :=
  omap (fun kv => Frozable.is_Frozable_instance h (snd kv)) (Frozable.dict o).

Definition component (h : gmap nat Frozable.Obj) (x y : nat) : Prop :=
  exists o, h !! x = Some o /\ y ∈ components h o.

(** Every frozen object of the store has frozen components only. *)
Definition freeze_closed (h : gmap nat Frozable.Obj) : bool :=
  forallb (fun xo => negb (Frozable.frozen (snd xo))
                     || forallb (frozen_in h) (components h (snd xo)))
    (map_to_list h).

(** An object after [self._frozen = True]. *)
Definition marked (o : Frozable.Obj) : Frozable.Obj :=
  Frozable.mkObj (Frozable.is_frozable o) (Frozable.class_name o)
    (Frozable.dict_set "_frozen" (Frozable.VBool true) (Frozable.dict o)).

(** The store [h'] is [h] in which some objects that were not frozen are
    marked. *)
Definition kept (h h' : gmap nat Frozable.Obj) : Prop :=
  forall x,
    h' !! x = h !! x
    \/ exists o, h !! x = Some o /\ Frozable.frozen o = false
                 /\ h' !! x = Some (marked o).

(** The invariant of the traversal: the objects whose attributes are
    being visited, [G], are marked before their components are. *)
Definition closed (G : gset nat) (h : gmap nat Frozable.Obj) : Prop :=
  forall x o y,
    h !! x = Some o -> x ∉ G -> Frozable.frozen o = true ->
    y ∈ components h o -> frozen_in h y = true.

Lemma frozen_marked o : Frozable.frozen (marked o) = true.
Proof. unfold Frozable.frozen, marked. simpl. by rewrite dict_get_set_eq. Qed.

Global Instance kept_preorder : PreOrder kept.
Proof.
  split.
  - intros h x. by left.
  - intros h1 h2 h3 H12 H23 x.
    destruct (H12 x) as [E12|(o & Ho & Hf & E12)],
             (H23 x) as [E23|(o' & Ho' & Hf' & E23)].
    + left. congruence.
    + right. exists o'. split_and!; [congruence|done|done].
    + right. exists o. split_and!; [done|done|congruence].
    + rewrite E12 in Ho'. injection Ho' as <-.
      by rewrite frozen_marked in Hf'.
Qed.

Lemma kept_frozen_in h h' y :
  kept h h' -> frozen_in h y = true -> frozen_in h' y = true.
Proof.
  intros Hk. unfold frozen_in.
  destruct (Hk y) as [->|(o & -> & Hf & ->)]; [done|].
  intros _. apply frozen_marked.
Qed.

Lemma kept_instance h h' v :
  kept h h' ->
  Frozable.is_Frozable_instance h' v = Frozable.is_Frozable_instance h v.
Proof.
  intros Hk. destruct v as [| | | |r| |]; try done. simpl.
  by destruct (Hk r) as [->|(o & -> & Hf & ->)].
Qed.

Lemma kept_components h h' o :
  kept h h' -> components h' o = components h o.
Proof.
  intros Hk. unfold components.
  induction (Frozable.dict o) as [|kv d IH]; [done|]. csimpl.
  by rewrite (kept_instance h h'), IH.
Qed.

Lemma elem_of_dict_set key v d kv :
  kv ∈ Frozable.dict_set key v d -> kv = (key, v) \/ kv ∈ d.
Proof.
  induction d as [|[k v'] d IH]; simpl.
  - intros ->%list_elem_of_singleton. by left.
  - case_bool_decide as Hk.
    + intros [->|Hin]%elem_of_cons; [left; by subst|right; by right].
    + intros [->|Hin]%elem_of_cons; [right; by left|].
      destruct (IH Hin); [by left|right; by right].
Qed.

Lemma components_marked h o y :
  y ∈ components h (marked o) -> y ∈ components h o.
Proof.
  unfold components. rewrite !list_elem_of_omap.
  intros (kv & Hin & Hy). apply elem_of_dict_set in Hin as [->|Hin];
    [done|by exists kv].
Qed.

Lemma instance_Some (h : gmap nat Frozable.Obj) v y :
  Frozable.is_Frozable_instance h v = Some y ->
  v = Frozable.VRef y /\ is_Some (h !! y).
Proof.
  destruct v as [| | | |r| |]; try done. simpl.
  destruct (h !! r) as [o|] eqn:Hr; [|done].
  destruct (Frozable.is_frozable o); [|done]. intros [= <-]. eauto.
Qed.

(** [trigger_freeze(True)] marks the object it is applied to, marks
    nothing but objects that were not frozen, and leaves every object it
    marks with frozen components. *)
Lemma trigger_freeze_closed fuel self (h h' : gmap nat Frozable.Obj) G :
  Frozable.trigger_freeze fuel self true h = Some h' ->
  closed G h ->
  kept h h' /\ closed G h'
  /\ (is_Some (h !! self) -> frozen_in h' self = true).
Proof.
  revert self h h' G.
  induction fuel as [|fuel IH]; intros self h h' G; [done|]. simpl.
  destruct (h !! self) as [o|] eqn:Ho.
  2:{ intros [= <-] Hc. split_and!; [reflexivity|done|by intros []]. }
  destruct (Frozable.frozen o) eqn:Hf; simpl.
  { intros [= <-] Hc. split_and!; [reflexivity|done|].
    intros _. unfold frozen_in. by rewrite Ho. }
  fold (marked o). set (h1 := <[self := marked o]> h).
  assert (kept h h1) as Hk1.
  { intros x. unfold h1. destruct (decide (x = self)) as [->|Hne].
    - right. exists o. by rewrite lookup_insert_eq.
    - left. by rewrite lookup_insert_ne. }
  intros Hfold Hc.
  assert (closed (G ∪ {[self]}) h1) as Hc1.
  { intros x ox y Hx Hx' Hfx Hy.
    apply not_elem_of_union in Hx' as [HxG Hxs%not_elem_of_singleton].
    unfold h1 in Hx. rewrite lookup_insert_ne in Hx by done.
    apply (kept_frozen_in h); [done|].
    apply (Hc x ox y); [done|done|done|].
    by rewrite <-(kept_components h h1). }
  assert (forall (d : list (string * Frozable.Value))
                 (hi hf : gmap nat Frozable.Obj),
            fold_left
              (fun (acc : option (gmap nat Frozable.Obj))
                   (kv : string * Frozable.Value) =>
                 match acc with
                 | None => None
                 | Some h' =>
                     match Frozable.is_Frozable_instance h' (snd kv) with
                     | Some r => Frozable.trigger_freeze fuel r true h'
                     | None => Some h'
                     end
                 end) d (Some hi) = Some hf ->
            closed (G ∪ {[self]}) hi ->
            kept hi hf /\ closed (G ∪ {[self]}) hf
            /\ forall kv y, kv ∈ d ->
                 Frozable.is_Frozable_instance hi (snd kv) = Some y ->
                 frozen_in hf y = true) as Hfolds.
  { induction d as [|kv d IHd]; intros hi hf; simpl.
    - intros [= <-] Hci. split_and!; [reflexivity|done|].
      by intros kv y ?%elem_of_nil.
    - intros Hd Hci.
      destruct (match Frozable.is_Frozable_instance hi kv.2 with
                | Some r => Frozable.trigger_freeze fuel r true hi
                | None => Some hi
                end) as [hm|] eqn:Hm.
      2:{ exfalso. clear -Hd. induction d as [|kv' d IHd']; [done|].
          by apply IHd'. }
      assert (kept hi hm /\ closed (G ∪ {[self]}) hm
              /\ forall y, Frozable.is_Frozable_instance hi kv.2 = Some y ->
                           frozen_in hm y = true) as (Hkm & Hcm & Hym).
      { destruct (Frozable.is_Frozable_instance hi kv.2) as [r|] eqn:Hr.
        - destruct (IH r hi hm _ Hm Hci) as (Hkm & Hcm & Hrm).
          split_and!; [done|done|]. intros y [= <-].
          apply instance_Some in Hr as [_ Hr]. by apply Hrm.
        - injection Hm as <-. split_and!; [reflexivity|done|done]. }
      destruct (IHd hm hf Hd Hcm) as (Hkf & Hcf & Hyf).
      split_and!; [by etransitivity|done|].
      intros kv' y [->|Hin]%elem_of_cons Hy.
      + by apply (kept_frozen_in hm), Hym.
      + apply (Hyf kv'); [done|]. by rewrite (kept_instance hi hm). }
  destruct (Hfolds _ _ _ Hfold Hc1) as (Hkf & Hcf & Hyf).
  assert (h' !! self = Some (marked o)) as Hself.
  { destruct (Hkf self) as [->|(o' & Ho' & Hf' & _)].
    - apply lookup_insert_eq.
    - unfold h1 in Ho'. rewrite lookup_insert_eq in Ho'.
      injection Ho' as <-. by rewrite frozen_marked in Hf'. }
  split_and!.
  - by etransitivity.
  - intros x ox y Hx HxG Hfx Hy.
    destruct (decide (x = self)) as [->|Hne].
    + rewrite Hself in Hx. injection Hx as <-.
      unfold components in Hy. apply list_elem_of_omap in Hy as (kv & Hin & Hy).
      apply (Hyf kv); [done|]. by rewrite <-(kept_instance h1 h').
    + apply (Hcf x ox y); [done| |done|done].
      apply not_elem_of_union. split; [done|by apply not_elem_of_singleton].
  - intros _. unfold frozen_in. rewrite Hself. apply frozen_marked.
Qed.

Lemma freeze_closed_spec (h : gmap nat Frozable.Obj) :
  freeze_closed h = true <-> closed ∅ h.
Proof.
  unfold freeze_closed, closed. rewrite forallb_forall. split.
  - intros Hall x o y Hx _ Hf Hy.
    specialize (Hall (x, o)). simpl in Hall. rewrite Hf in Hall. simpl in Hall.
    rewrite forallb_forall in Hall. apply Hall.
    + apply list_elem_of_In. by apply elem_of_map_to_list.
    + by apply list_elem_of_In.
  - intros Hc [x o] Hin%list_elem_of_In%elem_of_map_to_list. simpl.
    destruct (Frozable.frozen o) eqn:Hf; [|done]. simpl.
    apply forallb_forall. intros y Hy%list_elem_of_In.
    by apply (Hc x o y).
Qed.

(** X5. Freezing is recursive. In a store where every frozen object has
    frozen components only (for one, a store where nothing is frozen),
    [freeze] returns, every object that can be reached from the frozen
    object through attributes that hold [Frozable] instances is frozen
    afterwards, also where the objects are shared or form cycles, and the
    store is again one where frozen objects have frozen components. All
    [freeze] does to an object is to set its attribute [_frozen], and only
    on objects that were not frozen. *)
Theorem freeze_reaches_every_component self o (h : gmap nat Frozable.Obj) :
  freeze_closed h = true ->
  h !! self = Some o ->
  exists h',
    Frozable.freeze self h = Some h'
    /\ freeze_closed h' = true
    /\ (forall y, rtc (component h') self y -> frozen_in h' y = true)
    /\ (forall x ox, h !! x = Some ox ->
          h' !! x = Some ox
          \/ (Frozable.frozen ox = false /\ h' !! x = Some (marked ox))).
Proof.
  intros Hc%freeze_closed_spec Ho.
  destruct (freeze_returns self h) as (h' & Hh' & _ & _). exists h'.
  destruct (trigger_freeze_closed _ _ _ _ ∅ Hh' Hc) as (Hk & Hc' & Hself).
  split_and!; [done|by apply freeze_closed_spec| |].
  - assert (forall x y, rtc (component h') x y ->
              frozen_in h' x = true -> frozen_in h' y = true) as Hreach.
    { induction 1 as [x|x y z (ox & Hx & Hy) _ IH]; [done|].
      intros Hfx. apply IH. apply (Hc' x ox y); [done|set_solver| |done].
      unfold frozen_in in Hfx. by rewrite Hx in Hfx. }
    intros y Hy. apply (Hreach self); [done|]. apply Hself. by eexists.
  - intros x ox Hx. destruct (Hk x) as [Heq|(o' & Ho' & Hf' & Heq)].
    + left. congruence.
    + right. rewrite Hx in Ho'. injection Ho' as <-. done.
Qed.

(** ** Unfreezing is shallow *)

(** An object after [self._frozen = False]. *)
Definition unmarked (o : Frozable.Obj) : Frozable.Obj :=
  Frozable.mkObj (Frozable.is_frozable o) (Frozable.class_name o)
    (Frozable.dict_set "_frozen" (Frozable.VBool false) (Frozable.dict o)).

Lemma frozen_unmarked o : Frozable.frozen (unmarked o) = false.
Proof.
  unfold Frozable.frozen, unmarked. simpl. by rewrite dict_get_set_eq.
Qed.

Lemma closed_dom (h : gmap nat Frozable.Obj) : closed (dom h) h.
Proof. intros x o y Hx Hdom. destruct Hdom. by apply elem_of_dom_2 in Hx. Qed.

Lemma elem_of_dict_set_other key v d kv :
  kv ∈ d -> fst kv <> key -> kv ∈ Frozable.dict_set key v d.
Proof.
  intros Hin Hne. induction d as [|[k v'] d IH]; simpl.
  { by apply elem_of_nil in Hin. }
  apply elem_of_cons in Hin as [->|Hin]; simpl in *.
  - rewrite bool_decide_eq_false_2 by done. by left.
  - case_bool_decide; right; [done|by apply IH].
Qed.

(** The loop of [trigger_freeze] over the attributes: every [Frozable]
    instance among their values is frozen when the loop ends, and the loop
    ends within the depth [fuel]. *)
Lemma freeze_attributes fuel (d : list (string * Frozable.Value))
    (hi : gmap nat Frozable.Obj) :
  size (Frozable.unfrozen hi) < fuel ->
  exists hf,
    fold_left
      (fun (acc : option (gmap nat Frozable.Obj))
           (kv : string * Frozable.Value) =>
         match acc with
         | None => None
         | Some h' =>
             match Frozable.is_Frozable_instance h' (snd kv) with
             | Some r => Frozable.trigger_freeze fuel r true h'
             | None => Some h'
             end
         end) d (Some hi) = Some hf
    /\ kept hi hf
    /\ forall kv y, kv ∈ d ->
         Frozable.is_Frozable_instance hi (snd kv) = Some y ->
         frozen_in hf y = true.
Proof.
  revert hi. induction d as [|kv d IH]; intros hi Hsize; simpl.
  { exists hi. split_and!; [done|reflexivity|]. by intros kv y ?%elem_of_nil. }
  destruct (Frozable.is_Frozable_instance hi kv.2) as [r|] eqn:Hr.
  - destruct (trigger_freeze_returns fuel r hi Hsize)
      as (hm & Hm & Hsub & _ & _).
    destruct (trigger_freeze_closed _ _ _ _ _ Hm (closed_dom hi))
      as (Hkm & _ & Hrm).
    rewrite Hm. destruct (IH hm) as (hf & Hf & Hkf & Hyf).
    { apply subseteq_size in Hsub. lia. }
    exists hf. split_and!; [done|by etransitivity|].
    intros kv' y [->|Hin]%elem_of_cons Hy.
    + rewrite Hr in Hy. injection Hy as <-.
      apply (kept_frozen_in hm); [done|]. apply Hrm.
      by apply instance_Some in Hr as [_ ?].
    + apply (Hyf kv'); [done|]. by rewrite (kept_instance hi hm).
  - destruct (IH hi Hsize) as (hf & Hf & Hkf & Hyf).
    exists hf. split_and!; [done|done|].
    intros kv' y [->|Hin]%elem_of_cons Hy; [congruence|by apply (Hyf kv')].
Qed.

Lemma unfrozen_insert_size (h : gmap nat Frozable.Obj) self o :
  size (Frozable.unfrozen (<[self := o]> h)) <= S (size (Frozable.unfrozen h)).
Proof.
  assert (Frozable.unfrozen (<[self := o]> h)
          ⊆ Frozable.unfrozen h ∪ {[self]}) as Hsub.
  { intros x (ox & Hx & Hf)%elem_of_unfrozen.
    destruct (decide (x = self)) as [->|Hne]; [set_solver|].
    rewrite lookup_insert_ne in Hx by done.
    apply elem_of_union_l, elem_of_unfrozen. eauto. }
  apply subseteq_size in Hsub. rewrite size_union_alt in Hsub.
  assert (size (({[self]} : gset nat) ∖ Frozable.unfrozen h) <= 1).
  { rewrite <-(size_singleton (C:=gset nat) self).
    apply subseteq_size. intros x [Hx _]%elem_of_difference. exact Hx. }
  lia.
Qed.

Lemma unfreeze_eq self o (h : gmap nat Frozable.Obj) :
  h !! self = Some o ->
  Frozable.unfreeze self h
  = fold_left
      (fun (acc : option (gmap nat Frozable.Obj))
           (kv : string * Frozable.Value) =>
         match acc with
         | None => None
         | Some h' =>
             match Frozable.is_Frozable_instance h' (snd kv) with
             | Some r =>
                 Frozable.trigger_freeze
                   (S (S (size (Frozable.unfrozen h)))) r true h'
             | None => Some h'
             end
         end) (Frozable.dict (unmarked o)) (Some (<[self := unmarked o]> h)).
Proof.
  intros Ho. unfold Frozable.unfreeze.
  change (Frozable.trigger_freeze (S ?f) self false h)
    with (match h !! self with
          | None => Some h
          | Some o =>
              if Frozable.frozen o && false then Some h
              else
                fold_left
                  (fun (acc : option (gmap nat Frozable.Obj))
                       (kv : string * Frozable.Value) =>
                     match acc with
                     | None => None
                     | Some h' =>
                         match Frozable.is_Frozable_instance h' (snd kv) with
                         | Some r => Frozable.trigger_freeze f r true h'
                         | None => Some h'
                         end
                     end) (Frozable.dict (unmarked o))
                  (Some (<[self := unmarked o]> h))
          end).
  by rewrite Ho, andb_false_r.
Qed.

(** X6. [unfreeze] is no inverse of [freeze]. It returns on every store,
    and clears the flag of the object it is applied to; but the loop over
    the attributes, which [trigger_freeze] runs whatever the flag is set
    to, freezes every [Frozable] instance that an attribute of the object
    holds (the object itself, when one of its attributes refers to it). Only
    an object none of whose attributes holds a [Frozable] instance is
    simply unfrozen: the store is the one before, with the flag of the
    object cleared. *)
Theorem unfreeze_freezes_the_attributes :
  (forall self (h : gmap nat Frozable.Obj),
     is_Some (Frozable.unfreeze self h))
  /\ (forall self o (h h' : gmap nat Frozable.Obj) k y,
        h !! self = Some o ->
        (k, Frozable.VRef y) ∈ Frozable.dict o ->
        k <> "_frozen" ->
        Frozable.is_Frozable_instance h (Frozable.VRef y) = Some y ->
        Frozable.unfreeze self h = Some h' ->
        frozen_in h' y = true)
  /\ (forall self o (h : gmap nat Frozable.Obj),
        h !! self = Some o ->
        components h o = [] ->
        Frozable.unfreeze self h = Some (<[self := unmarked o]> h)
        /\ frozen_in (<[self := unmarked o]> h) self = false).
Proof.
  split_and!.
  - intros self h. destruct (h !! self) as [o|] eqn:Ho.
    + rewrite (unfreeze_eq self o h Ho).
      destruct (freeze_attributes (S (S (size (Frozable.unfrozen h))))
                  (Frozable.dict (unmarked o)) (<[self := unmarked o]> h))
        as (hf & -> & _); [|done].
      pose proof (unfrozen_insert_size h self (unmarked o)). lia.
    + unfold Frozable.unfreeze. simpl. by rewrite Ho.
  - intros self o h h' k y Ho Hin Hk Hy Hun.
    rewrite (unfreeze_eq self o h Ho) in Hun.
    destruct (freeze_attributes (S (S (size (Frozable.unfrozen h))))
                (Frozable.dict (unmarked o)) (<[self := unmarked o]> h))
      as (hf & Hf & _ & Hyf).
    { pose proof (unfrozen_insert_size h self (unmarked o)). lia. }
    rewrite Hf in Hun. injection Hun as <-.
    apply (Hyf (k, Frozable.VRef y)).
    + by apply elem_of_dict_set_other.
    + simpl in *. destruct (decide (y = self)) as [->|Hne].
      * rewrite lookup_insert_eq. rewrite Ho in Hy. simpl.
        by destruct (Frozable.is_frozable o).
      * by rewrite lookup_insert_ne.
  - intros self o h Ho Hnone. rewrite (unfreeze_eq self o h Ho). split.
    + assert (forall kv, kv ∈ Frozable.dict (unmarked o) ->
                Frozable.is_Frozable_instance (<[self := unmarked o]> h)
                  kv.2 = None) as Hleaf.
      { intros kv [->|Hin]%elem_of_dict_set; [done|].
        destruct (Frozable.is_Frozable_instance (<[self := unmarked o]> h)
                    kv.2) as [r|] eqn:Hr; [|done].
        exfalso. pose proof Hr as [Hv _]%instance_Some.
        assert (r ∈ components h o) as Hc; [|by rewrite Hnone in Hc;
                                              apply elem_of_nil in Hc].
        apply list_elem_of_omap. exists kv. split; [done|].
        rewrite Hv in *. simpl in *.
        destruct (decide (r = self)) as [->|Hne].
        - rewrite lookup_insert_eq in Hr. by rewrite Ho.
        - by rewrite lookup_insert_ne in Hr. }
      revert Hleaf. generalize (<[self := unmarked o]> h).
      induction (Frozable.dict (unmarked o)) as [|kv d IH]; intros g Hleaf;
        [done|].
      simpl. rewrite Hleaf by (by left). apply IH.
      intros kv' Hin. apply Hleaf. by right.
    + unfold frozen_in. rewrite lookup_insert_eq. apply frozen_unmarked.
Qed.

(** ** The arguments of a property *)

(** [PropertyDef.mandatory_arguments]. *)
Definition mandatory_arguments (pd : PropertyDef) : M World (list Argument) :=
  let '(mand, opt) :=
    split_by (fun a => negb (is_optional a)) (arguments pd) in
  py_assert (forallb is_optional opt)
    "All optional arguments must come before implicit ones" ;;;
  ret mand.

Lemma forallb_false_split {A} (q : A -> bool) (l : list A) :
  forallb q l = false ->
  exists mid b post, l = mid ++ b :: post /\ q b = false.
Proof.
  induction l as [|x l IH]; simpl; [done|].
  destruct (q x) eqn:Hx; simpl.
  - intros (mid & b & post & -> & Hb)%IH. by exists (x :: mid), b, post.
  - intros _. by exists [], x, l.
Qed.

Lemma filter_all_true {A} (q : A -> bool) (l : list A) :
  forallb q l = true -> filter (fun a => q a = false) l = [].
Proof.
  induction l as [|x l IH]; simpl; [done|].
  intros [Hx Hl]%andb_prop.
  rewrite filter_cons_False by (by rewrite Hx). by apply IH.
Qed.

(** [funcy.split_by] cuts a list at the first element that fails the
    predicate. *)
Lemma split_by_spec {A} (q : A -> bool) (l : list A) :
  l = take_while (fun a => negb (q a)) l ++ drop_while (fun a => negb (q a)) l
  /\ if forallb q (drop_while (fun a => negb (q a)) l)
     then take_while (fun a => negb (q a)) l
          = filter (fun a => q a = false) l
          /\ Forall (fun a => q a = true)
               (drop_while (fun a => negb (q a)) l)
     else exists a mid b post,
            drop_while (fun a => negb (q a)) l = a :: mid ++ b :: post
            /\ q a = true /\ q b = false.
Proof.
  induction l as [|x l [IH1 IH2]]; simpl.
  { split; [done|]. split; [done|constructor]. }
  destruct (q x) eqn:Hx; simpl.
  - split; [done|]. rewrite Hx. simpl.
    destruct (forallb q l) eqn:Hall.
    + split.
      * rewrite filter_cons_False by (by rewrite Hx).
        by rewrite filter_all_true.
      * constructor; [done|]. apply Forall_forall.
        intros a Ha%list_elem_of_In.
        by apply (proj1 (forallb_forall q l) Hall).
    + apply forallb_false_split in Hall as (mid & b & post & -> & Hb).
      by exists x, mid, b, post.
  - split; [by rewrite <-IH1|].
    destruct (forallb q (drop_while (fun a => negb (q a)) l)); [|done].
    destruct IH2 as [IH2 IH3]. split; [|done].
    rewrite filter_cons_True by done. by rewrite IH2.
Qed.

(** X7. [natural_arguments] returns the arguments that are not
    artificial, in their order, when all of them come before the artificial
    ones; when an argument that is not artificial follows an artificial
    one, it raises the assertion error. [mandatory_arguments] does the same
    with the optional arguments in place of the artificial ones. Neither
    changes anything. *)
Theorem natural_arguments_are_the_leading_ones (pd : PropertyDef) (w : World) :
  (exists r,
     natural_arguments pd w = (w, r)
     /\ match r with
        | Ok l =>
            l = filter (fun a => is_artificial a = false) (arguments pd)
            /\ exists art,
                 arguments pd = l ++ art
                 /\ Forall (fun a => is_artificial a = true) art
        | Raise e =>
            e = AssertionError
                  "All artificial arguments must come after all the other ones"
            /\ exists pre a mid b post,
                 arguments pd = pre ++ a :: mid ++ b :: post
                 /\ is_artificial a = true /\ is_artificial b = false
        end)
  /\ (exists r,
        mandatory_arguments pd w = (w, r)
        /\ match r with
           | Ok l =>
               l = filter (fun a => is_optional a = false) (arguments pd)
               /\ exists opt,
                    arguments pd = l ++ opt
                    /\ Forall (fun a => is_optional a = true) opt
           | Raise e =>
               e = AssertionError
                     "All optional arguments must come before implicit ones"
               /\ exists pre a mid b post,
                    arguments pd = pre ++ a :: mid ++ b :: post
                    /\ is_optional a = true /\ is_optional b = false
           end).
Proof.
  split.
  - unfold natural_arguments, split_by.
    destruct (split_by_spec is_artificial (arguments pd)) as [Hsplit Hrest].
    destruct (forallb is_artificial
                (drop_while (fun a => negb (is_artificial a)) (arguments pd)))
      eqn:Hall.
    + destruct Hrest as [Hfilter Hart]. eexists. split; [reflexivity|].
      split; [done|]. eauto.
    + destruct Hrest as (a & mid & b & post & Hdrop & Ha & Hb).
      eexists. split; [reflexivity|]. split; [done|].
      eexists _, a, mid, b, post. rewrite <-Hdrop. eauto.
  - unfold mandatory_arguments, split_by.
    destruct (split_by_spec is_optional (arguments pd)) as [Hsplit Hrest].
    destruct (forallb is_optional
                (drop_while (fun a => negb (is_optional a)) (arguments pd)))
      eqn:Hall.
    + destruct Hrest as [Hfilter Hopt]. eexists. split; [reflexivity|].
      split; [done|]. eauto.
    + destruct Hrest as (a & mid & b & post & Hdrop & Ha & Hb).
      eexists. split; [reflexivity|]. split; [done|].
      eexists _, a, mid, b, post. rewrite <-Hdrop. eauto.
Qed.

(** ** Scopes *)

(** X8. Entering and leaving a scope. When [push] is called on a scope,
    and [pop] after it, [pop] returns the scope [push] was called on, and
    this scope is the current scope: it is so also when another scope was
    current before [push]. The scope that [push] created stays registered
    as the last sub-scope, and no local variable is created or lost. The
    scope [pop] is called on matters only by the [LocalVars] it belongs to:
    [pop] leaves the scope that is current, and raises the assertion error
    "Trying to pop the root scope", changing nothing, when the current scope
    has no parent. *)
Theorem Scope_push_then_pop :
  (forall self sc pd w,
     scopes w !! self = Some sc ->
     properties w !! sc_vars sc = Some pd ->
     scopes w !! scope_COUNT w = None ->
     exists w' pd',
       (Scope_push self ;;; Scope_pop self) w = (w', Ok self)
       /\ properties w' !! sc_vars sc = Some pd'
       /\ current_scope (pd_vars pd') = self
       /\ local_vars (pd_vars pd') = local_vars (pd_vars pd)
       /\ scopes w' !! self
          = Some (mkScope (sc_index sc) (sc_vars sc) (sc_parent sc)
                    (sub_scopes sc ++ [scope_COUNT w]) (sc_variables sc))
       /\ scopes w' !! scope_COUNT w
          = Some (mkScope (scope_COUNT w) (sc_vars sc) (Some self) [] [])
       /\ scope_COUNT w' = S (scope_COUNT w))
  /\ (forall self sc pd cur w,
        scopes w !! self = Some sc ->
        properties w !! sc_vars sc = Some pd ->
        scopes w !! current_scope (pd_vars pd) = Some cur ->
        Scope_pop self w
        = match sc_parent cur with
          | None => (w, Raise (AssertionError "Trying to pop the root scope"))
          | Some parent =>
              (set_properties
                 (<[sc_vars sc
                    := set_pd_vars
                         (mkLocalVars (local_vars (pd_vars pd))
                            (root_scope (pd_vars pd)) parent) pd]>
                    (properties w)) w,
               Ok parent)
          end).
Proof.
  split.
  - intros self sc pd w Hsc Hpd Hfresh.
    assert (scope_COUNT w <> self) as Hne by congruence.
    unfold Scope_push, Scope_pop, Scope_init, set_current_scope, get_scope,
      get_property, put_scope, put_property, lookup_store, modify, get, ret,
      bind.
    rewrite Hsc. simpl. rewrite lookup_insert_ne, Hsc by done. simpl.
    rewrite Hpd. simpl.
    assert (self <> scope_COUNT w) as Hne' by congruence.
    repeat (first [rewrite lookup_insert_eq
                  |rewrite (lookup_insert_ne _ self (scope_COUNT w)) by done];
            simpl).
    eexists _, _. split_and!; [reflexivity|..]; simpl.
    + apply lookup_insert_eq.
    + done.
    + done.
    + apply lookup_insert_eq.
    + rewrite lookup_insert_ne by done. apply lookup_insert_eq.
    + done.
  - intros self sc pd cur w Hsc Hpd Hcur.
    unfold Scope_pop, set_current_scope, get_scope, get_property,
      put_property, lookup_store, modify, ret, raise, bind.
    rewrite Hsc, Hpd, Hcur. destruct (sc_parent cur); [|done].
    by rewrite Hpd.
Qed.

(** ** Local variables and their scope *)

Lemma get_local_var_ok var w w' v :
  get_local_var var w = (w', Ok v) ->
  w' = w
  /\ exists pd, properties w !! fst var = Some pd
                /\ local_vars (pd_vars pd) !! snd var = Some v.
Proof.
  unfold get_local_var, get_property, lookup_store, bind.
  destruct (properties w !! var.1) as [pd|]; [|done].
  destruct (local_vars (pd_vars pd) !! var.2) as [lv|] eqn:Hlv; [|done].
  intros [= <- <-]. eauto.
Qed.

(** The world after [Scope.add]. *)
Definition with_scoped (self : nat) (var : nat * string) (pd : PropertyDef)
    (v : LocalVar) (sc : Scope) (w : World) : World :=
  set_properties
    (<[fst var
       := set_pd_vars
            (mkLocalVars
               (<[snd var := mkLocalVar (lv_name v) (lv_type v) (Some self)]>
                  (local_vars (pd_vars pd)))
               (root_scope (pd_vars pd)) (current_scope (pd_vars pd))) pd]>
       (properties w))
    (set_scopes
       (<[self := mkScope (sc_index sc) (sc_vars sc) (sc_parent sc)
                    (sub_scopes sc) (sc_variables sc ++ [var])]> (scopes w))
       w).

Lemma Scope_add_ok self var w w' :
  Scope_add self var w = (w', Ok tt) ->
  exists pd v sc,
    properties w !! fst var = Some pd
    /\ local_vars (pd_vars pd) !! snd var = Some v
    /\ lv_scope v = None
    /\ scopes w !! self = Some sc
    /\ w' = with_scoped self var pd v sc w.
Proof.
  unfold Scope_add. intros Ha.
  apply bind_ok_inv in Ha as (v & w1 & Hv & Ha).
  apply get_local_var_ok in Hv as (-> & pd & Hpd & Hv).
  apply bind_ok_inv in Ha as ([] & w2 & Hassert & Ha).
  unfold py_assert, ret, raise in Hassert.
  destruct (decide (lv_scope v = None)) as [Hnone|Hsome];
    [|by rewrite bool_decide_eq_false_2 in Hassert].
  rewrite bool_decide_eq_true_2 in Hassert by done. injection Hassert as <-.
  apply bind_ok_inv in Ha as (sc & w3 & Hsc & Ha).
  unfold get_scope, lookup_store in Hsc.
  destruct (scopes w !! self) as [sc'|] eqn:Hsc'; [|done].
  injection Hsc as <- <-.
  exists pd, v, sc'. split_and!; [done|done|done|done|].
  revert Ha. unfold put_scope, put_local_var, get_property, put_property,
    lookup_store, modify, bind. simpl. rewrite Hpd. by intros [= <-].
Qed.

Lemma PropertyDef_get_scope_reads w w' r :
  PropertyDef_get_scope w = (w', r) -> w' = w.
Proof.
  unfold PropertyDef_get_scope, current_property_attr, PropertyDef_get,
    get_property, lookup_store, bind, ret, raise.
  destruct (default None (last (current_properties w))) as [p|];
    [|by intros [= <- _]].
  destruct (properties w !! p); by intros [= <- _].
Qed.

(** [check_scopes] returns when, and only when, every local variable of
    the table has a scope. *)
Lemma check_scopes_spec p w :
  LocalVars_check_scopes p w = (w, Ok tt)
  <-> exists pd, properties w !! p = Some pd
                 /\ map_Forall (fun _ v => is_Some (lv_scope v))
                      (local_vars (pd_vars pd)).
Proof.
  unfold LocalVars_check_scopes, get_property, lookup_store, bind, py_assert.
  destruct (properties w !! p) as [pd|]; [|split; [done|by intros (? & ? & _)]].
  destruct (forallb _ _) eqn:Hall.
  - split; [intros _|done]. exists pd. split; [done|].
    intros k v Hkv%elem_of_map_to_list%list_elem_of_In.
    rewrite forallb_forall in Hall. apply Hall in Hkv.
    by apply bool_decide_eq_true in Hkv.
  - split; [done|]. intros (pd' & [= <-] & Hall').
    assert (forallb
              (fun kv : string * LocalVar =>
                 bool_decide (is_Some (lv_scope kv.2)))
              (map_to_list (local_vars (pd_vars pd))) = true) as Htrue;
      [|congruence].
    apply forallb_forall.
    intros [k v] Hkv%list_elem_of_In%elem_of_map_to_list.
    apply bool_decide_eq_true, (Hall' k v Hkv).
Qed.

Lemma check_scopes_outcome p w :
  exists r, LocalVars_check_scopes p w = (w, r)
            /\ (r = Ok tt \/ r = Raise Dangling
                \/ r = Raise (AssertionError "a local variable has no scope")).
Proof.
  unfold LocalVars_check_scopes, get_property, lookup_store, bind, py_assert.
  destruct (properties w !! p) as [pd|]; [|eauto].
  destruct (forallb _ _); eauto.
Qed.

(** X9. A local variable belongs to one scope. After [Scope.add] has
    associated a variable to a scope, the variable records this scope and
    is the last variable of the scope, and associating it again, to any
    scope, raises the assertion error and changes nothing. [create] keeps
    the table of a property in the state [check_scopes] asks for: when
    [check_scopes] passed before [create], it passes after it; while after
    [create_scopeless], [check_scopes] raises the assertion error until the
    new variable is given a scope. *)
Theorem local_variables_get_one_scope :
  (forall self var w w',
     Scope_add self var w = (w', Ok tt) ->
     (exists v sc,
        get_local_var var w' = (w', Ok v) /\ lv_scope v = Some self
        /\ scopes w' !! self = Some sc /\ last (sc_variables sc) = Some var)
     /\ forall other,
          exists msg,
            Scope_add other var w' = (w', Raise (AssertionError msg)))
  /\ (forall p name type w w' var,
        LocalVars_check_scopes p w = (w, Ok tt) ->
        LocalVars_create p name type w = (w', Ok var) ->
        LocalVars_check_scopes p w' = (w', Ok tt))
  /\ (forall p name type w w' var,
        LocalVars_create_scopeless p name type w = (w', Ok var) ->
        exists msg,
          LocalVars_check_scopes p w' = (w', Raise (AssertionError msg))).
Proof.
  split_and!.
  - intros self var w w' Hadd.
    apply Scope_add_ok in Hadd as (pd & v & sc & Hpd & Hv & Hnone & Hsc & ->).
    assert (get_local_var var (with_scoped self var pd v sc w)
            = (with_scoped self var pd v sc w,
               Ok (mkLocalVar (lv_name v) (lv_type v) (Some self)))) as Hget.
    { unfold get_local_var, get_property, lookup_store, bind. simpl.
      rewrite lookup_insert_eq. simpl. by rewrite lookup_insert_eq. }
    split.
    + eexists _, _. split_and!; [exact Hget|done| |].
      * simpl. apply lookup_insert_eq.
      * simpl. apply last_snoc.
    + intros other. eexists. unfold Scope_add.
      by rewrite (bind_ok _ _ _ _ _ Hget).
  - intros p name type w w' var Hcheck Hcreate.
    apply check_scopes_spec in Hcheck as (pd & Hpd & Hall).
    unfold LocalVars_create in Hcreate.
    apply bind_ok_inv in Hcreate as (var0 & w1 & Hc & Hcreate).
    destruct (LocalVars_create_scopeless_eq p pd name type w Hpd)
      as (k & Heq & _ & _).
    rewrite Heq in Hc. injection Hc as <- <-.
    apply bind_ok_inv in Hcreate as (scope & w2 & Hs & Hcreate).
    apply PropertyDef_get_scope_reads in Hs as ->.
    apply bind_ok_inv in Hcreate as ([] & w3 & Hadd & [= <- <-]).
    apply Scope_add_ok in Hadd
      as (pd1 & v & sc & Hpd1 & Hv & Hnone & Hsc & ->).
    simpl in Hpd1. rewrite lookup_insert_eq in Hpd1. injection Hpd1 as <-.
    apply check_scopes_spec. eexists. split.
    { simpl. apply lookup_insert_eq. }
    simpl. intros n lv. rewrite insert_insert_eq.
    intros [[<- <-]|[Hne Hlv]]%lookup_insert_Some; [by eexists|].
    by apply (Hall n lv).
  - intros p name type w w' var Hc.
    destruct (properties w !! p) as [pd|] eqn:Hpd.
    2:{ unfold LocalVars_create_scopeless, get_property, lookup_store, bind
          in Hc. by rewrite Hpd in Hc. }
    destruct (LocalVars_create_scopeless_eq p pd name type w Hpd)
      as (k & Heq & _ & _).
    rewrite Heq in Hc. injection Hc as <- <-.
    destruct (check_scopes_outcome p
                (set_properties
                   (<[p := set_pd_vars
                             (mkLocalVars
                                (<[candidate name k
                                   := mkLocalVar (candidate name k) type
                                        None]> (local_vars (pd_vars pd)))
                                (root_scope (pd_vars pd))
                                (current_scope (pd_vars pd))) pd]>
                      (properties w)) w))
      as (r & Hr & [-> | [-> | ->]]); [| |by eexists].
    + apply check_scopes_spec in Hr as (pd' & Hpd' & Hall).
      simpl in Hpd'. rewrite lookup_insert_eq in Hpd'. injection Hpd' as <-.
      simpl in Hall.
      destruct (Hall (candidate name k)
                  (mkLocalVar (candidate name k) type None)) as [sc Hscope];
        [apply lookup_insert_eq|done].
    + revert Hr. unfold LocalVars_check_scopes, get_property, lookup_store,
        bind. simpl. rewrite lookup_insert_eq. unfold py_assert.
      by destruct (forallb _ _).
Qed.

(** ** The type of a variable *)

(** The [ref_expr] property of a local variable. *)
Definition LocalVar_ref_expr (var : nat * string)
  : M World ResolvedExpression :=
  lv <- get_local_var var ;;
  py_assert (bool_decide (is_Some (lv_type lv)))
    ("Local variables must have a type before turned into a resolved"
     +:+ " expression.") ;;;
  VariableExpr_new (lv_type lv) (Some (lv_name lv)) None.

Lemma AbstractVariable_set_type_ok v t w w1 :
  AbstractVariable_set_type v t w = (w1, Ok tt) ->
  exists av,
    variables w !! v = Some av /\ _type av = None
    /\ variables w1 = <[v := set_av_type (Some t) av]> (variables w)
    /\ resolved w1 = resolved w /\ next_object w1 = next_object w
    /\ forall lv, local_var av = Some lv ->
         exists pd l,
           properties w !! fst lv = Some pd
           /\ local_vars (pd_vars pd) !! snd lv = Some l
           /\ properties w1
              = <[fst lv
                  := set_pd_vars
                       (mkLocalVars
                          (<[snd lv := mkLocalVar (lv_name l) (Some t)
                                         (lv_scope l)]>
                             (local_vars (pd_vars pd)))
                          (root_scope (pd_vars pd))
                          (current_scope (pd_vars pd))) pd]> (properties w).
Proof.
  unfold AbstractVariable_set_type. intros Hs.
  apply bind_ok_inv in Hs as (av & w0 & Hav & Hs).
  unfold get_variable, lookup_store in Hav.
  destruct (variables w !! v) as [av'|] eqn:Hv; [|done].
  injection Hav as <- <-.
  apply bind_ok_inv in Hs as ([] & w0 & Hassert & Hs).
  unfold py_assert, ret, raise in Hassert.
  destruct (decide (_type av' = None)) as [Hnone|Hsome];
    [|by rewrite bool_decide_eq_false_2 in Hassert].
  rewrite bool_decide_eq_true_2 in Hassert by done. injection Hassert as <-.
  apply bind_ok_inv in Hs as ([] & w2 & [= <-] & Hs).
  exists av'. destruct (local_var av') as [lv|] eqn:Hlv.
  - apply bind_ok_inv in Hs as (l & w3 & Hl & Hs).
    apply get_local_var_ok in Hl as (-> & pd & Hpd & Hl).
    revert Hs. unfold put_local_var, get_property, put_property, lookup_store,
      modify, bind. rewrite Hpd. intros [= <-].
    split_and!; [done|done|done|done|done|].
    intros lv' [= <-]. by exists pd, l.
  - injection Hs as <-. by split_and!.
Qed.

(** X10. The type of a variable is set once. After [set_type] has
    returned, the variable has the type, a second [set_type] raises the
    assertion error "Variable type cannot be set twice" and changes
    nothing, and the local variable of the variable, when it has one, has
    the type too: its [ref_expr] is then a new variable node of this type
    with the name of the local variable. For a local variable that has no
    type, [ref_expr] raises the assertion error. *)
Theorem set_type_types_the_local_variable :
  (forall v t w w1,
     AbstractVariable_set_type v t w = (w1, Ok tt) ->
     (exists av1, variables w1 !! v = Some av1 /\ _type av1 = Some t)
     /\ (forall t2,
           AbstractVariable_set_type v t2 w1
           = (w1, Raise (AssertionError "Variable type cannot be set twice")))
     /\ (forall av lv,
           variables w !! v = Some av ->
           local_var av = Some lv ->
           exists l,
             get_local_var lv w1 = (w1, Ok l)
             /\ lv_type l = Some t
             /\ LocalVar_ref_expr lv w1
                = (with_node (next_object w1) true w1,
                   Ok (VariableExpr (next_object w1) t (Some (lv_name l))
                         None))))
  /\ (forall lv l w,
        get_local_var lv w = (w, Ok l) ->
        lv_type l = None ->
        LocalVar_ref_expr lv w
        = (w, Raise (AssertionError
                       ("Local variables must have a type before turned"
                        +:+ " into a resolved expression.")))).
Proof.
  split.
  - intros v t w w1 Hs.
    apply AbstractVariable_set_type_ok in Hs
      as (av & Hv & Hnone & Hvars & Hres & Hnext & Hlocal).
    split_and!.
    + exists (set_av_type (Some t) av). by rewrite Hvars, lookup_insert_eq.
    + intros t2. unfold AbstractVariable_set_type, get_variable, lookup_store.
      unfold bind at 1. by rewrite Hvars, lookup_insert_eq.
    + intros av' lv Hv' Hlv. rewrite Hv in Hv'. injection Hv' as <-.
      destruct (Hlocal lv Hlv) as (pd & l & Hpd & Hl & Hprops).
      exists (mkLocalVar (lv_name l) (Some t) (lv_scope l)).
      assert (get_local_var lv w1
              = (w1, Ok (mkLocalVar (lv_name l) (Some t) (lv_scope l))))
        as Hget.
      { unfold get_local_var, get_property, lookup_store, bind.
        rewrite Hprops, lookup_insert_eq. simpl. by rewrite lookup_insert_eq. }
      split_and!; [done|done|].
      unfold LocalVar_ref_expr. by rewrite (bind_ok _ _ _ _ _ Hget).
  - intros lv l w Hget Hnone. unfold LocalVar_ref_expr.
    rewrite (bind_ok _ _ _ _ _ Hget), Hnone. reflexivity.
Qed.

(** ** Calls to properties with dynamic variables *)






(** ** The stack of bound properties *)

Lemma set_current_properties_same w :
  set_current_properties (current_properties w) w = w.
Proof. by destruct w. Qed.

Lemma PropertyDef_get_at l self w :
  PropertyDef_get (set_current_properties (l ++ [self]) w)
  = (set_current_properties (l ++ [self]) w, Ok self).
Proof. unfold PropertyDef_get. simpl. by rewrite last_snoc. Qed.

(** X12. [PropertyDef.get] follows [bind] and [bind_none]: inside
    [with prop.bind()] it returns [prop], inside [with bind_none()] it
    returns [None], also when a property is bound around it; and when the
    managed block returns and has left the stack as it found it, the stack
    is after the [with] statement what it was before: the world is the one
    the block left, with the stack of the world before. In particular a
    [with] statement around [get] alone changes nothing, and after an
    inner [with] statement the outer property is the current one again. *)
Theorem PropertyDef_get_follows_bind :
  (forall self w,
     PropertyDef_bind self _ PropertyDef_get w = (w, Ok (Some self)))
  /\ (forall w, PropertyDef_bind_none _ PropertyDef_get w = (w, Ok None))
  /\ (forall p w,
        PropertyDef_bind p _ (PropertyDef_bind_none _ PropertyDef_get) w
        = (w, Ok None))
  /\ (forall p q w,
        PropertyDef_bind p _
          (PropertyDef_bind q _ PropertyDef_get ;;; PropertyDef_get) w
        = (w, Ok (Some p)))
  /\ (forall B self (block : M World B) b w w2,
        block (set_current_properties (current_properties w ++ [Some self]) w)
        = (w2, Ok b) ->
        current_properties w2 = current_properties w ++ [Some self] ->
        PropertyDef_bind self B block w
        = (set_current_properties (current_properties w) w2, Ok b)).
Proof.
  assert (forall self w,
            PropertyDef_bind self _ PropertyDef_get w = (w, Ok (Some self)))
    as Hbind.
  { intros self w.
    rewrite (PropertyDef_bind_restores_on_return self PropertyDef_get
               (Some self) w
               (set_current_properties (current_properties w ++ [Some self])
                  w)); [|apply PropertyDef_get_at|done].
    by destruct w. }
  assert (forall B (block : M World B) b w w2,
            block (set_current_properties (current_properties w ++ [None]) w)
            = (w2, Ok b) ->
            current_properties w2 = current_properties w ++ [None] ->
            PropertyDef_bind_none B block w
            = (set_current_properties (current_properties w) w2, Ok b))
    as Hnone.
  { intros B block b w w2 Hblock Hstack. unfold PropertyDef_bind_none.
    eapply contextmanager_block_returns; [reflexivity|exact Hblock|].
    unfold bind, get. rewrite Hstack.
    destruct (current_properties w ++ [None]) as [|q l] eqn:Hl.
    { by apply app_nil in Hl as [_ ?]. }
    unfold modify. by rewrite <-Hl, removelast_last. }
  assert (forall w, PropertyDef_bind_none _ PropertyDef_get w = (w, Ok None))
    as Hnone'.
  { intros w.
    rewrite (Hnone _ PropertyDef_get None w
               (set_current_properties (current_properties w ++ [None]) w));
      [|apply PropertyDef_get_at|done].
    by destruct w. }
  split_and!; [done|done| | |].
  - intros p w.
    rewrite (PropertyDef_bind_restores_on_return p _ None w
               (set_current_properties (current_properties w ++ [Some p]) w));
      [by destruct w|apply Hnone'|done].
  - intros p q w.
    rewrite (PropertyDef_bind_restores_on_return p _ (Some p) w
               (set_current_properties (current_properties w ++ [Some p]) w));
      [by destruct w| |done].
    rewrite (bind_ok _ _ _ _ _ (Hbind q _)). apply PropertyDef_get_at.
  - intros B self block b w w2. apply PropertyDef_bind_restores_on_return.
Qed.

(** ** Bindings of dynamic variables *)

(** The world inside [with dynvar._bind(name)], and the world after it. *)
Definition entered (d p : nat) (name : option string) (pd : PropertyDef)
    (av : AbstractVariable) (w : World) : World :=
  set_properties
    (<[p := set_dynvar_binding_stack (dynvar_binding_stack pd ++ [d]) pd]>
       (properties w))
    (set_variables (<[d := set_av_name name av]> (variables w)) w).

Definition exited (d p : nat) (saved : option string) (pd2 : PropertyDef)
    (av2 : AbstractVariable) (w2 : World) : World :=
  set_properties
    (<[p := set_dynvar_binding_stack (removelast (dynvar_binding_stack pd2))
              pd2]> (properties w2))
    (set_variables (<[d := set_av_name saved av2]> (variables w2)) w2).

(** [_bind] around a block that returns, and leaves the variable on top of
    the binding stack: the name the variable had before is restored, and the
    variable is taken from the stack. *)
Lemma _bind_returns {B} d name (block : M World B) av p pd b w w2 av2 pd2 :
  variables w !! d = Some av ->
  default None (last (current_properties w)) = Some p ->
  properties w !! p = Some pd ->
  block (entered d p name pd av w) = (w2, Ok b) ->
  variables w2 !! d = Some av2 ->
  properties w2 !! p = Some pd2 ->
  last (dynvar_binding_stack pd2) = Some d ->
  _bind d name B block w = (exited d p (_name av) pd2 av2 w2, Ok b).
Proof.
  intros Hd Hcur Hpd Hblock Hd2 Hpd2 Hlast.
  unfold _bind. eapply contextmanager_block_returns; [|exact Hblock|].
  - unfold PropertyDef_get, bind at 1. rewrite Hcur.
    unfold get_variable, lookup_store, bind at 1. rewrite Hd.
    unfold put_variable, modify, bind at 1.
    unfold get_property, lookup_store, bind at 1. simpl. rewrite Hpd.
    reflexivity.
  - cbv beta iota. unfold get_variable, lookup_store, bind at 1. rewrite Hd2.
    unfold put_variable, modify, bind at 1.
    unfold dynvar_binding_stack_pop, get_property, lookup_store, bind.
    simpl. rewrite Hpd2, Hlast.
    unfold put_property, modify, ret, py_assert.
    by rewrite bool_decide_eq_true_2.
Qed.

(** X13. A binding of a dynamic variable is scoped. Inside
    [with dynvar._bind(name)] the construction of the variable never
    raises the diagnostic of an unbound variable: it returns the node that
    the cache of the variable holds for the bound name, a new [VariableExpr]
    with this name when the variable was not constructed under it before.
    After the [with] statement the variable has the name it had before and
    the binding stack of the property is what it was, so the variable is
    bound, or unbound, as it was before; the node stays in the cache. *)
Theorem bind_is_scoped d av t p pd name w :
  variables w !! d = Some av ->
  _type av = Some t ->
  default None (last (current_properties w)) = Some p ->
  properties w !! p = Some pd ->
  exists w3 e av3 pd3,
    _bind d (Some name) _ (DynamicVariable_construct d) w = (w3, Ok e)
    /\ (construct_cache av !! (Some name, Some t) = None ->
        e = VariableExpr (next_object w) t (Some name) (Some d))
    /\ variables w3 !! d = Some av3
    /\ _name av3 = _name av
    /\ construct_cache av3 !! (Some name, Some t) = Some e
    /\ properties w3 !! p = Some pd3
    /\ dynvar_binding_stack pd3 = dynvar_binding_stack pd
    /\ current_properties w3 = current_properties w
    /\ unbound d w3 = unbound d w.
Proof.
  intros Hd Ht Hcur Hpd.
  set (av1 := set_av_name (Some name) av).
  set (pd1 := set_dynvar_binding_stack (dynvar_binding_stack pd ++ [d]) pd).
  set (w1 := entered d p (Some name) pd av w).
  assert (variables w1 !! d = Some av1) as Hd1 by apply lookup_insert_eq.
  assert (properties w1 !! p = Some pd1) as Hpd1 by apply lookup_insert_eq.
  assert (current_property_exists w1) as Hcur1.
  { unfold current_property_exists. simpl. rewrite Hcur. simpl.
    rewrite lookup_insert_eq. eauto. }
  assert (unbound d w1 = false) as Hb.
  { unfold unbound. rewrite Hd1. simpl. apply andb_false_r. }
  pose proof (DynamicVariable_construct_eq d av1 w1 Hd1 Hcur1) as Hdyn.
  rewrite Hb, (AbstractVariable_construct_eq d av1 w1 Hd1) in Hdyn.
  simpl _name in Hdyn. simpl _type in Hdyn. simpl construct_cache in Hdyn.
  rewrite Ht in Hdyn.
  assert (forall w2 e av2,
            DynamicVariable_construct d w1 = (w2, Ok e) ->
            variables w2 !! d = Some av2 ->
            properties w2 = properties w1 ->
            current_properties w2 = current_properties w1 ->
            _type av2 = Some t ->
            construct_cache av2 !! (Some name, Some t) = Some e ->
            (construct_cache av !! (Some name, Some t) = None ->
             e = VariableExpr (next_object w) t (Some name) (Some d)) ->
            exists w3 e av3 pd3,
              _bind d (Some name) _ (DynamicVariable_construct d) w
              = (w3, Ok e)
              /\ (construct_cache av !! (Some name, Some t) = None ->
                  e = VariableExpr (next_object w) t (Some name) (Some d))
              /\ variables w3 !! d = Some av3
              /\ _name av3 = _name av
              /\ construct_cache av3 !! (Some name, Some t) = Some e
              /\ properties w3 !! p = Some pd3
              /\ dynvar_binding_stack pd3 = dynvar_binding_stack pd
              /\ current_properties w3 = current_properties w
              /\ unbound d w3 = unbound d w) as Hfinish.
  { intros w2 e av2 Hblock Hd2 Hprops Hstack Ht2 Hcache Hnew.
    assert (properties w2 !! p = Some pd1) as Hpd2 by (by rewrite Hprops).
    exists (exited d p (_name av) pd1 av2 w2), e,
      (set_av_name (_name av) av2),
      (set_dynvar_binding_stack (removelast (dynvar_binding_stack pd1)) pd1).
    assert (removelast (dynvar_binding_stack pd1) = dynvar_binding_stack pd)
      as Hrem by apply removelast_last.
    split_and!.
    - apply (_bind_returns d (Some name) _ av p pd e w w2 av2 pd1);
        [done|done|done|exact Hblock|done|done|apply last_snoc].
    - done.
    - apply lookup_insert_eq.
    - done.
    - done.
    - apply lookup_insert_eq.
    - done.
    - simpl. by rewrite Hstack.
    - unfold unbound, accepted_by_current. simpl.
      rewrite Hstack. simpl. rewrite Hcur, !lookup_insert_eq, Hd, Hpd.
      reflexivity. }
  destruct (construct_cache av !! (Some name, Some t)) as [e|] eqn:Hc.
  - apply (Hfinish w1 e av1); [done|done|done|done|done|done|done].
  - eapply (Hfinish _ _ _ Hdyn).
    + simpl. apply lookup_insert_eq.
    + done.
    + done.
    + done.
    + simpl. apply lookup_insert_eq.
    + done.
Qed.

Lemma _bind_enter d name av p pd w :
  variables w !! d = Some av ->
  default None (last (current_properties w)) = Some p ->
  properties w !! p = Some pd ->
  (p0 <- PropertyDef_get ;;
   av0 <- get_variable d ;;
   put_variable d (set_av_name name av0) ;;;
   match p0 with
   | Some p1 =>
       pd0 <- get_property p1 ;;
       put_property p1
         (set_dynvar_binding_stack (dynvar_binding_stack pd0 ++ [d]) pd0) ;;;
       ret (p1, _name av0)
   | None =>
       raise (AttributeError
         "'NoneType' object has no attribute 'dynvar_binding_stack'")
   end) w = (entered d p name pd av w, Ok (p, _name av)).
Proof.
  intros Hd Hcur Hpd.
  unfold PropertyDef_get, bind at 1. rewrite Hcur.
  unfold get_variable, lookup_store, bind at 1. rewrite Hd.
  unfold put_variable, modify, bind at 1.
  unfold get_property, lookup_store, bind at 1. simpl. rewrite Hpd.
  reflexivity.
Qed.

(** X14. [bind_default] resets the binding of a dynamic variable for the
    construction of a property. It is [_bind] to the argument name of the
    variable when the property accepts the variable, and [_bind] to no name
    when it does not. So while a property that does not accept the variable
    is constructed, a reference to the variable is rejected as unbound,
    also when a binding of a caller gave the variable a name; the
    diagnostic leaves the variable without a name and on the binding
    stack. *)
Theorem bind_default_resets_the_binding d av prop pd w :
  variables w !! d = Some av ->
  properties w !! prop = Some pd ->
  default None (last (current_properties w)) = Some prop ->
  (forall B (block : M World B),
     bind_default d prop B block w
     = _bind d
         (if existsb (fun arg => bool_decide (arg_var arg = d)) (arguments pd)
          then argument_name av else None) B block w)
  /\ (existsb (fun arg => bool_decide (arg_var arg = d)) (arguments pd)
      = false ->
      bind_default d prop _ (DynamicVariable_construct d) w
      = (entered d prop None pd av w,
         Raise (DiagnosticError
                  (names.lower (default EmptyString (argument_name av))
                   +:+ " is not bound in this context: please use the"
                   +:+ " .bind construct to bind it first.")))).
Proof.
  intros Hd Hpd Hcur.
  assert (forall B (block : M World B),
            bind_default d prop B block w
            = _bind d
                (if existsb (fun arg => bool_decide (arg_var arg = d))
                      (arguments pd)
                 then argument_name av else None) B block w) as Heq.
  { intros B block. unfold bind_default, is_accepted_in, get_property,
      get_variable, lookup_store.
    unfold bind at 1. unfold bind at 1. rewrite Hpd. unfold ret at 1.
    unfold bind at 1. by rewrite Hd. }
  split; [exact Heq|]. intros Hno. rewrite Heq, Hno.
  unfold _bind. eapply contextmanager_block_raises.
  { by apply _bind_enter. }
  set (w1 := entered d prop None pd av w).
  assert (variables w1 !! d = Some (set_av_name None av)) as Hd1
    by apply lookup_insert_eq.
  assert (current_property_exists w1) as Hcur1.
  { unfold current_property_exists. simpl. rewrite Hcur. simpl.
    rewrite lookup_insert_eq. eauto. }
  assert (unbound d w1 = true) as Hb.
  { unfold unbound, accepted_by_current. rewrite Hd1. simpl.
    rewrite Hcur, lookup_insert_eq. simpl. by rewrite Hno. }
  by rewrite (DynamicVariable_construct_eq d _ w1 Hd1 Hcur1), Hb.
Qed.

(** ** The type of [Self] *)

(** [bind_type] around a block that returns. *)
Lemma bind_type_returns {B} v type (block : M World B) av b w w2 av2 :
  variables w !! v = Some av ->
  block (set_variables (<[v := set_av_type type av]> (variables w)) w)
  = (w2, Ok b) ->
  variables w2 !! v = Some av2 ->
  bind_type v type B block w
  = (set_variables (<[v := set_av_type (_type av) av2]> (variables w2)) w2,
     Ok b).
Proof.
  intros Hv Hblock Hv2. unfold bind_type.
  eapply contextmanager_block_returns; [|exact Hblock|].
  - unfold get_variable, lookup_store, bind at 1. by rewrite Hv.
  - cbv beta. unfold get_variable, lookup_store, bind. by rewrite Hv2.
Qed.

(** X15. The type of [Self] is bound for the time of a [with] statement.
    Inside [with Self.bind_type(t)], the construction of the variable
    returns the node that the cache of the variable holds for its name and
    the type [t]: a new [VariableExpr] of type [t] when the variable was not
    constructed with this type before. After the [with] statement the
    variable has the type it had before, and the node stays in the cache.
    A variable that has no type, and was never constructed without one,
    cannot be constructed: the construction fails with an assertion
    error. *)
Theorem bind_type_types_the_variable v av t w :
  variables w !! v = Some av ->
  (exists w3 e av3,
     bind_type v (Some t) _ (AbstractVariable_construct v) w = (w3, Ok e)
     /\ (construct_cache av !! (_name av, Some t) = None ->
         e = VariableExpr (next_object w) t (_name av) (Some v))
     /\ variables w3 !! v = Some av3
     /\ _type av3 = _type av
     /\ construct_cache av3 !! (_name av, Some t) = Some e)
  /\ (_type av = None ->
      construct_cache av !! (_name av, None) = None ->
      exists w' msg,
        AbstractVariable_construct v w = (w', Raise (AssertionError msg))).
Proof.
  intros Hv. split.
  - set (av1 := set_av_type (Some t) av).
    set (w1 := set_variables (<[v := av1]> (variables w)) w).
    assert (variables w1 !! v = Some av1) as Hv1 by apply lookup_insert_eq.
    pose proof (AbstractVariable_construct_eq v av1 w1 Hv1) as Hc.
    simpl _name in Hc. simpl _type in Hc. simpl construct_cache in Hc.
    destruct (construct_cache av !! (_name av, Some t)) as [e|] eqn:Hcache.
    + exists (set_variables
                (<[v := set_av_type (_type av) av1]> (variables w1)) w1),
        e, (set_av_type (_type av) av1).
      split_and!; [|done|apply lookup_insert_eq|done|done].
      by apply (bind_type_returns v (Some t) _ av e w w1 av1).
    + eexists _, _, _. split_and!.
      * eapply (bind_type_returns v (Some t) _ av _ w _ _ Hv Hc).
        simpl. apply lookup_insert_eq.
      * done.
      * simpl. apply lookup_insert_eq.
      * done.
      * simpl. apply lookup_insert_eq.
  - intros Hnone Hcache.
    rewrite (AbstractVariable_construct_eq v av w Hv), Hnone, Hcache. eauto.
Qed.

(** ** The recursion guard of the type inference *)

(** No property disappears, and the flag [in_type] of every property is
    what it was. *)
Definition in_type_kept (w w' : World) : Prop :=
  forall p pd, properties w !! p = Some pd ->
    exists pd', properties w' !! p = Some pd' /\ in_type pd' = in_type pd.

Global Instance in_type_kept_preorder : PreOrder in_type_kept.
Proof.
  split.
  - intros w p pd Hp. by exists pd.
  - intros w1 w2 w3 H12 H23 p pd Hp.
    destruct (H12 p pd Hp) as (pd2 & Hp2 & Heq).
    destruct (H23 p pd2 Hp2) as (pd3 & Hp3 & Heq').
    exists pd3. split; [done|]. congruence.
Qed.

Lemma in_type_kept_same_properties w w' :
  properties w' = properties w -> in_type_kept w w'.
Proof. intros Heq p pd Hp. exists pd. by rewrite Heq. Qed.

Lemma in_type_kept_put_property p pd pd' w :
  properties w !! p = Some pd ->
  in_type pd' = in_type pd ->
  in_type_kept w (set_properties (<[p := pd']> (properties w)) w).
Proof.
  intros Hp Heq q qd Hq. simpl.
  destruct (decide (q = p)) as [->|Hne].
  - rewrite lookup_insert_eq. exists pd'. split; [done|]. congruence.
  - rewrite lookup_insert_ne by done. by exists qd.
Qed.

Lemma in_type_kept_modify (f : World -> World) :
  (forall w, properties (f w) = properties w) ->
  maintains in_type_kept (modify f).
Proof.
  intros Hf. apply maintains_modify; try exact _.
  intros w. apply in_type_kept_same_properties, Hf.
Qed.

(** A property object is read, and what follows keeps the flags when it
    starts where the object was read. *)
Lemma in_type_kept_read {A} p (k : PropertyDef -> M World A) :
  (forall pd w w' r,
     properties w !! p = Some pd -> k pd w = (w', r) -> in_type_kept w w') ->
  maintains in_type_kept (pd <- get_property p ;; k pd).
Proof.
  intros Hk w w' r. unfold get_property, lookup_store, bind at 1.
  destruct (properties w !! p) as [pd|] eqn:Hp;
    [|intros [= <- _]; reflexivity].
  apply Hk, Hp.
Qed.

(** The object is written back with the same flag. *)
Lemma in_type_kept_update {A} p (f : PropertyDef -> PropertyDef)
    (k : PropertyDef -> M World A) :
  (forall pd, in_type (f pd) = in_type pd) ->
  (forall pd, maintains in_type_kept (k pd)) ->
  maintains in_type_kept
    (pd <- get_property p ;; put_property p (f pd) ;;; k pd).
Proof.
  intros Hf Hk. apply in_type_kept_read. intros pd w w' r Hp.
  unfold bind, put_property, modify.
  destruct (k pd _) as [w2 r2] eqn:Hk2. intros Heq.
  assert (w2 = w') as -> by (by destruct r2; injection Heq).
  etransitivity; [|eapply Hk, Hk2].
  eapply in_type_kept_put_property; [exact Hp|apply Hf].
Qed.

Lemma in_type_kept_update_last p (f : PropertyDef -> PropertyDef) :
  (forall pd, in_type (f pd) = in_type pd) ->
  maintains in_type_kept (pd <- get_property p ;; put_property p (f pd)).
Proof.
  intros Hf. apply in_type_kept_read. intros pd w w' r Hp [= <- _].
  eapply in_type_kept_put_property; [exact Hp|apply Hf].
Qed.

Lemma in_type_kept_put_variable v av :
  maintains in_type_kept (put_variable v av).
Proof. by apply in_type_kept_modify. Qed.

Lemma in_type_kept_put_scope s sc : maintains in_type_kept (put_scope s sc).
Proof. by apply in_type_kept_modify. Qed.

Lemma in_type_kept_put_re_state id st :
  maintains in_type_kept (put_re_state id st).
Proof. by apply in_type_kept_modify. Qed.

Lemma in_type_kept_new_object : maintains in_type_kept new_object.
Proof.
  intros w w' r [= <- _]. by apply in_type_kept_same_properties.
Qed.

Lemma in_type_kept_warn_if cond message :
  maintains in_type_kept (warn_if cond message).
Proof.
  unfold warn_if. destruct cond; [by apply in_type_kept_modify|].
  apply maintains_ret, _.
Qed.

Lemma in_type_kept_put_local_var var lv :
  maintains in_type_kept (put_local_var var lv).
Proof. unfold put_local_var. by apply in_type_kept_update_last. Qed.

Lemma in_type_kept_set_current_scope owner s :
  maintains in_type_kept (set_current_scope owner s).
Proof. unfold set_current_scope. by apply in_type_kept_update_last. Qed.

Lemma in_type_kept_modify_property p f :
  (forall pd, in_type (f pd) = in_type pd) ->
  maintains in_type_kept (modify_property p f).
Proof. unfold modify_property. apply in_type_kept_update_last. Qed.

Lemma in_type_kept_LocalVars_create_scopeless self name type :
  maintains in_type_kept (LocalVars_create_scopeless self name type).
Proof.
  unfold LocalVars_create_scopeless. apply in_type_kept_read.
  intros pd w w' r Hp.
  destruct (create_scopeless_in (pd_vars pd) name type) as [[lv vars']|];
    [|intros [= <- _]; reflexivity].
  intros [= <- _].
  eapply in_type_kept_put_property; [exact Hp|done].
Qed.

Lemma in_type_kept_dynvar_binding_stack_pop p :
  maintains in_type_kept (dynvar_binding_stack_pop p).
Proof.
  unfold dynvar_binding_stack_pop. apply in_type_kept_read.
  intros pd w w' r Hp.
  destruct (last (dynvar_binding_stack pd)) as [top|];
    [|intros [= <- _]; reflexivity].
  intros [= <- _].
  eapply in_type_kept_put_property; [exact Hp|done].
Qed.

Create HintDb kept.

#[local] Hint Resolve in_type_kept_put_variable in_type_kept_put_scope
  in_type_kept_put_re_state in_type_kept_new_object in_type_kept_warn_if
  in_type_kept_put_local_var in_type_kept_set_current_scope
  in_type_kept_LocalVars_create_scopeless
  in_type_kept_dynvar_binding_stack_pop : kept.

#[local] Hint Extern 1 (maintains _ (get_property _)) =>
  apply maintains_get_property; exact _ : kept.
#[local] Hint Extern 1 (maintains _ PropertyDef_get) =>
  apply maintains_PropertyDef_get; exact _ : kept.
#[local] Hint Extern 1 (maintains _ (current_property_attr _)) =>
  apply maintains_current_property_attr; exact _ : kept.
#[local] Hint Extern 1 (maintains _ PropertyDef_get_scope) =>
  apply maintains_PropertyDef_get_scope; exact _ : kept.
#[local] Hint Extern 1 (maintains _ (get_local_var _)) =>
  apply maintains_get_local_var; exact _ : kept.
#[local] Hint Extern 1 (maintains _ (get_variable _)) =>
  apply maintains_lookup_store; exact _ : kept.
#[local] Hint Extern 1 (maintains _ (get_scope _)) =>
  apply maintains_lookup_store; exact _ : kept.
#[local] Hint Extern 1 (maintains _ (get_re_state _)) =>
  apply maintains_lookup_store; exact _ : kept.

(** Computations built from the primitives of the monad keep the flags as
    soon as their store updates do. *)
Ltac kept_step :=
  first
    [ exact _
    | solve [auto with kept]
    | apply maintains_ret
    | apply maintains_raise
    | apply maintains_get
    | apply maintains_lookup_store
    | apply maintains_lift
    | apply maintains_py_assert
    | apply maintains_check_source_language
    | apply maintains_bind; [exact _| |intros ?]
    | match goal with
      | |- maintains _ (match ?x with _ => _ end) => destruct x
      end
    | assumption ].

Ltac kept_tac := repeat kept_step.

Lemma in_type_kept_Scope_add self var :
  maintains in_type_kept (Scope_add self var).
Proof. unfold Scope_add. kept_tac. Qed.

#[local] Hint Resolve in_type_kept_Scope_add : kept.

Lemma in_type_kept_LocalVars_create self name type :
  maintains in_type_kept (LocalVars_create self name type).
Proof. unfold LocalVars_create. kept_tac. Qed.

Lemma in_type_kept_ResolvedExpression_init self t name skippable abstract :
  maintains in_type_kept
    (ResolvedExpression_init self t name skippable abstract).
Proof. unfold ResolvedExpression_init. kept_tac. Qed.

#[local] Hint Resolve in_type_kept_LocalVars_create
  in_type_kept_ResolvedExpression_init : kept.

Lemma in_type_kept_set_location id loc :
  maintains in_type_kept (set_location id loc).
Proof. unfold set_location. kept_tac. Qed.

Lemma in_type_kept_expr_location e :
  maintains in_type_kept (expr_location e).
Proof. unfold expr_location. kept_tac. Qed.

Lemma in_type_kept_check_expected e expected custom_msg downcast :
  maintains in_type_kept (check_expected e expected custom_msg downcast).
Proof. unfold check_expected, Cast_Expr_new. kept_tac. Qed.

Lemma in_type_kept_AbstractVariable_construct v :
  maintains in_type_kept (AbstractVariable_construct v).
Proof.
  unfold AbstractVariable_construct, VariableExpr_new. kept_tac.
Qed.

Lemma in_type_kept_AbstractVariable_set_type v t :
  maintains in_type_kept (AbstractVariable_set_type v t).
Proof. unfold AbstractVariable_set_type. kept_tac. Qed.

#[local] Hint Resolve in_type_kept_set_location in_type_kept_expr_location
  in_type_kept_check_expected in_type_kept_AbstractVariable_construct
  in_type_kept_AbstractVariable_set_type : kept.

Lemma in_type_kept_contextmanager {X B} (before_yield : M World X)
    (after_yield : X -> M World unit) (block : M World B) :
  maintains in_type_kept before_yield ->
  (forall x, maintains in_type_kept (after_yield x)) ->
  maintains in_type_kept block ->
  maintains in_type_kept (contextmanager before_yield after_yield block).
Proof. intros. unfold contextmanager. kept_tac. Qed.

Lemma in_type_kept__bind_enter v name :
  maintains in_type_kept
    (p <- PropertyDef_get ;;
     av <- get_variable v ;;
     let saved := _name av in
     put_variable v (set_av_name name av) ;;;
     match p with
     | None =>
         raise (AttributeError
           "'NoneType' object has no attribute 'dynvar_binding_stack'")
     | Some p =>
         pd <- get_property p ;;
         put_property p
           (set_dynvar_binding_stack (dynvar_binding_stack pd ++ [v])
              pd) ;;;
         ret (p, saved)
     end).
Proof.
  apply maintains_bind; [exact _|kept_tac|intros p].
  apply maintains_bind; [exact _|kept_tac|intros av]. cbv zeta.
  apply maintains_bind; [exact _|kept_tac|intros _].
  destruct p as [p|]; [|kept_tac].
  apply (in_type_kept_update p
           (fun pd => set_dynvar_binding_stack
                        (dynvar_binding_stack pd ++ [v]) pd)
           (fun _ => ret (p, _name av))); [done|].
  intros _. kept_tac.
Qed.

Lemma in_type_kept__bind_exit v (x : PropRef * option string) :
  maintains in_type_kept
    (let '(p, saved) := x in
     av <- get_variable v ;;
     put_variable v (set_av_name saved av) ;;;
     top <- dynvar_binding_stack_pop p ;;
     py_assert (bool_decide (top = v)) EmptyString).
Proof. destruct x as [p saved]. kept_tac. Qed.

Lemma in_type_kept__bind {B} v name (block : M World B) :
  maintains in_type_kept block ->
  maintains in_type_kept (_bind v name B block).
Proof.
  intros Hblock. unfold _bind.
  apply in_type_kept_contextmanager; [| |done].
  - apply in_type_kept__bind_enter.
  - apply in_type_kept__bind_exit.
Qed.

Lemma in_type_kept_is_bound v : maintains in_type_kept (is_bound v).
Proof. unfold is_bound, is_accepted_in. kept_tac. Qed.

Lemma in_type_kept_Variable_construct v :
  maintains in_type_kept (Variable_construct v).
Proof.
  unfold Variable_construct, DynamicVariable_construct.
  pose proof (in_type_kept_is_bound v). kept_tac.
Qed.

Lemma in_type_kept_py_map {A B} (f : A -> M World B) l :
  (forall x, maintains in_type_kept (f x)) ->
  maintains in_type_kept (py_map f l).
Proof. intros Hf. induction l as [|x l IH]; simpl; kept_tac. Qed.

Lemma in_type_kept_py_filter {A} (f : A -> M World bool) l :
  (forall x, maintains in_type_kept (f x)) ->
  maintains in_type_kept (py_filter f l).
Proof. intros Hf. induction l as [|x l IH]; simpl; kept_tac. Qed.

Section ConstructKeeps.
Variable construct_ :
  PyVal -> option TypeOrPred -> option string -> bool ->
  M World ResolvedExpression.
Hypothesis construct_keeps_ :
  forall e expected custom_msg downcast,
    maintains in_type_kept (construct_ e expected custom_msg downcast).

Lemma in_type_kept_Let_construct_bindings scope bs acc :
  maintains in_type_kept (Let_construct_bindings construct_ scope bs acc).
Proof.
  revert acc. induction bs as [|[var abs_expr] bs IH]; intros acc; simpl;
    kept_tac.
Qed.

Lemma in_type_kept_node_construct e :
  maintains in_type_kept (node_construct construct_ e).
Proof.
  destruct e as [loc lit|loc name|v|loc l r op|loc dv value body
                |loc vars var_exprs body]; simpl.
  - unfold Literal_construct, LiteralExpr_new. kept_tac.
  - unfold SymbolLiteral_construct, SymbolLiteral_Expr_new,
      ComputingExpr_init.
    kept_tac.
  - apply in_type_kept_Variable_construct.
  - unfold Arithmetic_construct, BasicExpr_new, ComputingExpr_init.
    kept_tac.
  - unfold bind_construct.
    apply maintains_bind; [exact _|kept_tac|intros [v av]].
    apply maintains_bind; [exact _|apply construct_keeps_|intros rv].
    apply maintains_bind; [exact _|kept_tac|intros p].
    apply maintains_bind; [exact _|kept_tac|intros value_var].
    apply in_type_kept__bind.
    unfold DynamicVariableBindExpr_new, ComputingExpr_init. kept_tac.
  - unfold Let_construct, Let_Expr_new, ComputingExpr_init.
    pose proof in_type_kept_Let_construct_bindings.
    apply maintains_bind; [exact _|kept_tac|intros scope].
    apply maintains_bind; [exact _|done|intros ves].
    apply maintains_bind; [exact _|by apply in_type_kept_py_map|intros vs].
    kept_tac.
Qed.

(** [warn_on_unused_bindings] only reads the properties. *)
Lemma in_type_kept_warn_on_unused_bindings self :
  maintains in_type_kept (warn_on_unused_bindings construct_ self).
Proof.
  unfold warn_on_unused_bindings.
  apply maintains_bind; [exact _|kept_tac|intros pd].
  destruct (constructed_expr pd) as [constructed|]; [|kept_tac].
  apply maintains_bind; [exact _| |intros args].
  { unfold natural_arguments. kept_tac. }
  apply maintains_bind; [exact _| |intros arg_vars].
  { apply in_type_kept_py_map. intros x. apply construct_keeps_. }
  cbv zeta.
  assert (forall entry, maintains in_type_kept (unused_binding entry)) as Hu.
  { intros entry. unfold unused_binding, VariableExpr_ignored. kept_tac. }
  assert (forall entry, maintains in_type_kept (wrongly_used_binding entry))
    as Hw.
  { intros entry. unfold wrongly_used_binding, VariableExpr_ignored.
    kept_tac. }
  assert (forall vars, maintains in_type_kept (format_list vars)) as Hf.
  { intros vars. unfold format_list.
    apply maintains_bind; [exact _| |intros ?; kept_tac].
    apply in_type_kept_py_map. intros x.
    unfold VariableExpr_source_name. kept_tac. }
  apply maintains_bind;
    [exact _|by apply in_type_kept_py_filter|intros unused_vars].
  apply maintains_bind;
    [exact _|by apply in_type_kept_py_filter|intros wrongly_used_vars].
  kept_tac.
Qed.

End ConstructKeeps.

(** [construct] sets and clears no flag, whatever it is applied to and
    however it ends. *)
Lemma construct_keeps_in_type fuel e expected custom_msg downcast :
  maintains in_type_kept
    (construct extract_library_location fuel e expected custom_msg downcast).
Proof.
  revert e expected custom_msg downcast.
  induction fuel as [|fuel IH]; intros e expected custom_msg downcast; simpl.
  { apply maintains_raise, _. }
  unfold construct_with.
  apply maintains_bind;
    [exact _|apply maintains_lift, _|intros [| | | | | |e']];
    try (apply maintains_raise, _).
  pose proof (in_type_kept_node_construct _ IH e').
  kept_tac.
Qed.

(** The guard of the property [self] is not set. *)
Definition guard_free (self : PropRef) (w : World) : Prop :=
  exists pd, properties w !! self = Some pd /\ in_type pd = false.

(** A computation that keeps the flags when it starts with the guard of
    [self] not set. *)
Definition keeps_from (self : PropRef) {A} (m : M World A) : Prop :=
  forall w w' r, guard_free self w -> m w = (w', r) -> in_type_kept w w'.

Lemma guard_free_kept self w w' :
  in_type_kept w w' -> guard_free self w -> guard_free self w'.
Proof.
  intros Hk (pd & Hp & Hin). destruct (Hk self pd Hp) as (pd' & Hp' & Heq).
  exists pd'. split; [done|]. congruence.
Qed.

Lemma keeps_from_maintains self {A} (m : M World A) :
  maintains in_type_kept m -> keeps_from self m.
Proof. intros Hm w w' r _. apply Hm. Qed.

Lemma keeps_from_bind self {A B} (m : M World A) (k : A -> M World B) :
  maintains in_type_kept m ->
  (forall a, keeps_from self (k a)) ->
  keeps_from self (bind m k).
Proof.
  intros Hm Hk w w' r Hfree Hb.
  apply bind_inv in Hb as [(e & Hb & _)|(a & w1 & Hb & Hk')].
  - eapply Hm, Hb.
  - etransitivity; [eapply Hm, Hb|].
    eapply Hk; [|exact Hk']. eapply guard_free_kept; [eapply Hm, Hb|done].
Qed.

Lemma keeps_from_then self {A B} (m : M World A) (k : A -> M World B) :
  keeps_from self m ->
  (forall a, maintains in_type_kept (k a)) ->
  keeps_from self (bind m k).
Proof.
  intros Hm Hk w w' r Hfree Hb.
  apply bind_inv in Hb as [(e & Hb & _)|(a & w1 & Hb & Hk')].
  - eapply Hm; [done|exact Hb].
  - etransitivity; [eapply Hm; [done|exact Hb]|eapply Hk, Hk'].
Qed.

(** A context manager that keeps the flags around such a block. *)
Definition manager_keeps (self : PropRef) (cm : ContextManager) : Prop :=
  forall B (block : M World B),
    keeps_from self block -> keeps_from self (cm B block).

Lemma contextmanager_keeps self {X} (before_yield : M World X)
    (after_yield : X -> M World unit) :
  maintains in_type_kept before_yield ->
  (forall x, maintains in_type_kept (after_yield x)) ->
  manager_keeps self
    (fun B => contextmanager before_yield after_yield).
Proof.
  intros Hbefore Hafter B block Hblock. unfold contextmanager.
  apply keeps_from_bind; [done|intros x].
  apply keeps_from_then; [done|intros b]. kept_tac.
Qed.

Lemma PropertyDef_bind_keeps self p :
  manager_keeps self (PropertyDef_bind p).
Proof.
  unfold PropertyDef_bind. apply contextmanager_keeps.
  - by apply in_type_kept_modify.
  - intros _. apply maintains_bind; [exact _|kept_tac|intros w].
    destruct (current_properties w); [kept_tac|].
    by apply in_type_kept_modify.
Qed.

Lemma bind_type_keeps self v type : manager_keeps self (bind_type v type).
Proof.
  unfold bind_type. apply contextmanager_keeps; [|intros x]; kept_tac.
Qed.

Lemma bind_default_keeps self v prop :
  manager_keeps self (bind_default v prop).
Proof.
  intros B block Hblock. unfold bind_default.
  apply keeps_from_bind; [unfold is_accepted_in; kept_tac|intros accepted].
  apply keeps_from_bind; [kept_tac|intros av].
  unfold _bind.
  apply (contextmanager_keeps self _ _ (in_type_kept__bind_enter v _)
           (in_type_kept__bind_exit v)), Hblock.
Qed.

Lemma nested_keeps self (managers : list ContextManager) :
  Forall (manager_keeps self) managers ->
  manager_keeps self (nested managers).
Proof.
  intros Hall B block Hblock. unfold nested.
  induction Hall as [|cm managers Hcm _ IH]; simpl; [done|].
  apply Hcm, IH.
Qed.

(** The guard is set, the body runs, and the [finally] clause clears the
    guard, however the body ends. *)
Lemma guarded_block_keeps self {A} (body : M World A) :
  maintains in_type_kept body ->
  keeps_from self
    (modify_property self (set_in_type true) ;;;
     try_finally body (reset_in_type self)).
Proof.
  intros Hbody w w' r (pd & Hp & Hin).
  unfold modify_property, get_property, lookup_store, bind at 1 2.
  rewrite Hp. unfold put_property, modify, try_finally.
  destruct (body _) as [w3 r3] eqn:Hb. intros [= <- _].
  apply Hbody in Hb. intros q qd Hq.
  destruct (decide (q = self)) as [->|Hne].
  - destruct (Hb self (set_in_type true pd)) as (pd3 & Hp3 & _).
    { simpl. apply lookup_insert_eq. }
    exists (set_in_type false pd3). split.
    + unfold reset_in_type. simpl. by rewrite lookup_alter_eq, Hp3.
    + simpl. congruence.
  - destruct (Hb q qd) as (qd3 & Hq3 & Heq).
    { simpl. by rewrite lookup_insert_ne. }
    exists qd3. split; [|done].
    unfold reset_in_type. simpl. by rewrite lookup_alter_ne.
Qed.

Section BodyKeeps.
Variable construct_ :
  PyVal -> option TypeOrPred -> option string -> bool ->
  M World ResolvedExpression.
Variable construct_and_type_expression_ : PropRef -> M World unit.
Hypothesis construct_keeps_ :
  forall e expected custom_msg downcast,
    maintains in_type_kept (construct_ e expected custom_msg downcast).
Hypothesis recursion_keeps_ :
  forall p, maintains in_type_kept (construct_and_type_expression_ p).

Lemma in_type_kept_PropertyDef_type self :
  maintains in_type_kept
    (PropertyDef_type construct_and_type_expression_ self).
Proof.
  unfold PropertyDef_type.
  apply maintains_bind; [exact _|kept_tac|intros pd].
  destruct (expected_type pd); [kept_tac|].
  apply maintains_bind; [exact _| |intros _; kept_tac].
  case_bool_decide; kept_tac.
Qed.

Lemma in_type_kept_body self :
  maintains in_type_kept
    (construct_and_type_expression_body construct_
       construct_and_type_expression_ self).
Proof.
  unfold construct_and_type_expression_body.
  apply in_type_kept_read. intros pd w w' r Hp.
  case_bool_decide; [intros [= <- _]; reflexivity|].
  destruct (in_type pd) eqn:Hin.
  { intros [= <- _]. reflexivity. }
  match goal with
  | |- ?m w = _ -> _ => assert (keeps_from self m) as Hkeeps
  end; [|intros Heq; eapply Hkeeps; [by exists pd|exact Heq]].
  clear w w' r Hp.
  apply keeps_from_bind; [kept_tac|intros _].
  destruct (pd_expr pd) as [expr|].
  - apply keeps_from_bind; [kept_tac|intros previous_property].
    apply keeps_from_bind; [kept_tac|intros to_reset].
    apply keeps_from_bind; [kept_tac|intros dynamic_vars]. cbv zeta.
    apply keeps_from_then.
    + apply nested_keeps.
      * repeat apply Forall_cons_2.
        -- apply PropertyDef_bind_keeps.
        -- apply bind_type_keeps.
        -- apply Forall_fmap, Forall_forall. intros dynvar _.
           apply bind_default_keeps.
      * apply keeps_from_bind; [kept_tac|intros message].
        apply guarded_block_keeps.
        apply maintains_bind; [exact _|kept_tac|intros pd'].
        apply maintains_bind; [exact _|apply construct_keeps_|intros e].
        by apply in_type_kept_modify_property.
    + intros _. pose proof (in_type_kept_warn_on_unused_bindings
                              construct_ construct_keeps_ self).
      unfold LocalVars_check_scopes. kept_tac.
  - apply keeps_from_maintains.
    pose proof in_type_kept_PropertyDef_type.
    apply maintains_bind; [exact _|kept_tac|intros _].
    destruct (expected_type pd); [kept_tac|].
    destruct (base_property pd) as [base|]; [|kept_tac].
    apply maintains_bind; [exact _|done|intros t].
    by apply in_type_kept_modify_property.
Qed.

End BodyKeeps.

(** [construct_and_type_expression] keeps the flags. *)
Lemma construct_and_type_expression_keeps fuel self :
  maintains in_type_kept
    (construct_and_type_expression extract_library_location fuel self).
Proof.
  revert self. induction fuel as [|fuel IH]; intros self; simpl.
  { apply maintains_raise, _. }
  apply in_type_kept_body; [|exact IH].
  intros e expected custom_msg downcast. apply construct_keeps_in_type.
Qed.

(** X16. The recursion guard of the type inference is never left set.
    However [construct_and_type_expression] ends (it returns, or raises a
    diagnostic or another exception), no property disappears and the flag
    [in_type] of every property is afterwards what it was before: the
    [finally] clause clears the guard that the call has set, and a guard
    that a caller has set stays. While the guard of a property is set and
    its expression is not constructed, the call raises the diagnostic of a
    recursion loop and changes nothing, and so does the [type] of the
    property when no return type was given. *)
Theorem type_inference_releases_its_guard fuel self w :
  in_type_kept w
    (construct_and_type_expression extract_library_location fuel self w).1
  /\ (forall pd,
        properties w !! self = Some pd ->
        constructed_expr pd = None ->
        in_type pd = true ->
        let loop :=
          DiagnosticError
            ("Recursion loop in type inference for property " +:+ qualname pd
             +:+ ". Try to specify its return type explicitly.") in
        construct_and_type_expression extract_library_location (S fuel) self
          w = (w, Raise loop)
        /\ (expected_type pd = None ->
            PropertyDef_type
              (construct_and_type_expression extract_library_location
                 (S fuel)) self w = (w, Raise loop))).
Proof.
  split.
  - destruct (construct_and_type_expression _ fuel self w) as [w' r] eqn:Hc.
    eapply construct_and_type_expression_keeps, Hc.
  - intros pd Hp Hnone Hin loop.
    assert (construct_and_type_expression extract_library_location (S fuel)
              self w = (w, Raise loop)) as Hloop.
    { simpl. unfold construct_and_type_expression_body, get_property,
        lookup_store, bind at 1.
      rewrite Hp, Hnone, Hin. reflexivity. }
    split; [exact Hloop|]. intros Hexp.
    unfold PropertyDef_type, get_property, lookup_store, bind at 1.
    rewrite Hp, Hexp, Hnone.
    rewrite bool_decide_eq_true_2 by done.
    unfold bind at 1. by rewrite Hloop.
Qed.

(** ** Result variables *)

(** [ResolvedExpression.create_result_var]. *)
Definition create_result_var (self : ResolvedExpression) (name : string)
  : M World ResolvedExpression :=
  st <- get_re_state (re_id self) ;;
  py_assert (negb (_render_pre_called st))
    ("Trying to create a result variable while the expression has been"
     +:+ " rendered") ;;;
  if is_VariableExpr self then ret self
  else
    match _result_var st with
    | Some _ => ret tt
    | None =>
        p <- current_property_attr "vars" ;;
        rv <- LocalVars_create p name (Some (re_type self)) ;;
        st <- get_re_state (re_id self) ;;
        put_re_state (re_id self)
          (mkREState (Some rv) (skippable_refcount st) (abstract_expr st)
             (_render_pre_called st) (re_location st) (ve_ignored st))
    end ;;;
    st <- get_re_state (re_id self) ;;
    match _result_var st with
    | Some rv => LocalVar_ref_expr rv
    | None =>
        raise (AttributeError
                 "'NoneType' object has no attribute 'ref_expr'")
    end.

(** The nodes and the allocator are what they were. *)
Definition nodes_kept (w w' : World) : Prop :=
  resolved w' = resolved w /\ next_object w' = next_object w.

Global Instance nodes_kept_preorder : PreOrder nodes_kept.
Proof.
  split.
  - by intros w.
  - intros w1 w2 w3 [H12 H12'] [H23 H23']. split; congruence.
Qed.

Lemma nodes_kept_put_property p pd : maintains nodes_kept (put_property p pd).
Proof. apply maintains_modify; try exact _. by intros w. Qed.

Lemma nodes_kept_put_scope s sc : maintains nodes_kept (put_scope s sc).
Proof. apply maintains_modify; try exact _. by intros w. Qed.

#[local] Hint Resolve nodes_kept_put_property nodes_kept_put_scope : kept.

Lemma nodes_kept_LocalVars_create self name type :
  maintains nodes_kept (LocalVars_create self name type).
Proof.
  unfold LocalVars_create, LocalVars_create_scopeless, Scope_add,
    put_local_var.
  kept_tac.
Qed.

Lemma get_re_state_ok id w w' st :
  get_re_state id w = (w', Ok st) -> w' = w /\ resolved w !! id = Some st.
Proof.
  unfold get_re_state, lookup_store.
  destruct (resolved w !! id) as [st'|]; [|done]. by intros [= <- <-].
Qed.

Lemma get_re_state_eq id w st :
  resolved w !! id = Some st -> get_re_state id w = (w, Ok st).
Proof. intros Hst. unfold get_re_state, lookup_store. by rewrite Hst. Qed.

Lemma py_assert_ok cond message (w w' : World) :
  py_assert cond message w = (w', Ok tt) -> w' = w /\ cond = true.
Proof. unfold py_assert. destruct cond; [by intros [= <-]|done]. Qed.

Lemma VariableExpr_new_eq t name abstract_var w :
  VariableExpr_new (Some t) name abstract_var w
  = (with_node (next_object w) true w,
     Ok (VariableExpr (next_object w) t name abstract_var)).
Proof. reflexivity. Qed.

Lemma LocalVar_ref_expr_ok rv w w1 e :
  LocalVar_ref_expr rv w = (w1, Ok e) ->
  exists l t,
    get_local_var rv w = (w, Ok l) /\ lv_type l = Some t
    /\ w1 = with_node (next_object w) true w
    /\ e = VariableExpr (next_object w) t (Some (lv_name l)) None.
Proof.
  unfold LocalVar_ref_expr. intros Hr.
  apply bind_ok_inv in Hr as (l & w0 & Hl & Hr).
  pose proof Hl as Hl'. apply get_local_var_ok in Hl' as (-> & _).
  apply bind_ok_inv in Hr as ([] & w2 & Hassert & Hr).
  apply py_assert_ok in Hassert as (-> & Htyped).
  apply bool_decide_eq_true in Htyped as [t Ht].
  exists l, t. rewrite Ht, VariableExpr_new_eq in Hr.
  injection Hr as <- <-. done.
Qed.

Lemma LocalVar_ref_expr_eq rv w l t :
  get_local_var rv w = (w, Ok l) ->
  lv_type l = Some t ->
  LocalVar_ref_expr rv w
  = (with_node (next_object w) true w,
     Ok (VariableExpr (next_object w) t (Some (lv_name l)) None)).
Proof.
  intros Hl Ht. unfold LocalVar_ref_expr.
  rewrite (bind_ok _ _ _ _ _ Hl), Ht.
  rewrite bool_decide_eq_true_2 by eauto. reflexivity.
Qed.

(** [create_result_var] on a node that owns a result variable. *)
Lemma create_result_var_owned self name st rv l t w :
  resolved w !! re_id self = Some st ->
  _render_pre_called st = false ->
  is_VariableExpr self = false ->
  _result_var st = Some rv ->
  get_local_var rv w = (w, Ok l) ->
  lv_type l = Some t ->
  create_result_var self name w
  = (with_node (next_object w) true w,
     Ok (VariableExpr (next_object w) t (Some (lv_name l)) None)).
Proof.
  intros Hst Hcalled Hnv Hrv Hl Ht. unfold create_result_var.
  rewrite (bind_ok _ _ _ _ _ (get_re_state_eq _ _ _ Hst)), Hcalled, Hnv, Hrv.
  simpl negb. unfold py_assert at 1.
  erewrite bind_ok; [|reflexivity]. erewrite bind_ok; [|reflexivity].
  rewrite (bind_ok _ _ _ _ _ (get_re_state_eq _ _ _ Hst)), Hrv.
  by apply LocalVar_ref_expr_eq.
Qed.

(** X17. A node gets at most one result variable. On a [VariableExpr]
    that was not rendered, [create_result_var] returns the node itself and
    changes nothing. Whenever it returns on another node, whose identity
    was allocated, the node owns a result variable afterwards: the one it
    owned before, when it owned one, and then no local variable was
    created. The result is a new [VariableExpr] with the name and the type
    of this local variable, and a call that follows returns again a new
    [VariableExpr] with this name and type, whatever name it is given. *)
Theorem create_result_var_creates_one_variable self name w :
  (forall st,
     resolved w !! re_id self = Some st ->
     _render_pre_called st = false ->
     is_VariableExpr self = true ->
     create_result_var self name w = (w, Ok self))
  /\ (forall w1 e,
        is_VariableExpr self = false ->
        re_id self < next_object w ->
        create_result_var self name w = (w1, Ok e) ->
        exists st1 rv l t,
          resolved w1 !! re_id self = Some st1
          /\ _result_var st1 = Some rv
          /\ (forall st rv0,
                resolved w !! re_id self = Some st ->
                _result_var st = Some rv0 ->
                rv = rv0 /\ properties w1 = properties w)
          /\ get_local_var rv w1 = (w1, Ok l)
          /\ lv_type l = Some t
          /\ e = VariableExpr (next_object w) t (Some (lv_name l)) None
          /\ forall name2,
               create_result_var self name2 w1
               = (with_node (next_object w1) true w1,
                  Ok (VariableExpr (next_object w1) t (Some (lv_name l))
                        None))).
Proof.
  split.
  - intros st Hst Hcalled Hvar. unfold create_result_var.
    rewrite (bind_ok _ _ _ _ _ (get_re_state_eq _ _ _ Hst)), Hcalled, Hvar.
    reflexivity.
  - intros w1 e Hnv Halloc Hc.
    assert (exists wb st_b rv,
              resolved wb !! re_id self = Some st_b
              /\ _result_var st_b = Some rv
              /\ _render_pre_called st_b = false
              /\ next_object wb = next_object w
              /\ (forall st rv0,
                    resolved w !! re_id self = Some st ->
                    _result_var st = Some rv0 -> rv = rv0 /\ wb = w)
              /\ LocalVar_ref_expr rv wb = (w1, Ok e))
      as (wb & st_b & rv & Hst_b & Hrv & Hcalled & Hnext & Hsame & Href).
    { unfold create_result_var in Hc. rewrite Hnv in Hc.
      apply bind_ok_inv in Hc as (st & w0 & Hst & Hc).
      apply get_re_state_ok in Hst as (-> & Hst).
      apply bind_ok_inv in Hc as ([] & w0 & Hassert & Hc).
      apply py_assert_ok in Hassert as (-> & Hcalled).
      apply negb_true_iff in Hcalled.
      apply bind_ok_inv in Hc as ([] & wb & Hvar & Hc).
      apply bind_ok_inv in Hc as (st_b & w0 & Hst_b & Hc).
      apply get_re_state_ok in Hst_b as (-> & Hst_b).
      destruct (_result_var st_b) as [rv|] eqn:Hrv; [|done].
      exists wb, st_b, rv.
      destruct (_result_var st) as [rv0|] eqn:Hrv0.
      - injection Hvar as <-.
        assert (st_b = st) as -> by congruence.
        split_and!; [done|done|done|done| |done].
        intros st' rv' Hst' Hrv'. split; [congruence|done].
      - apply bind_ok_inv in Hvar as (p & w0 & Hp & Hvar).
        assert (w0 = w) as ->.
        { revert Hp. unfold current_property_attr, PropertyDef_get, bind.
          destruct (default None (last (current_properties w)));
            by intros [= <-]. }
        apply bind_ok_inv in Hvar as (rv' & wa & Hcreate & Hvar).
        apply nodes_kept_LocalVars_create in Hcreate as [Hres Hnext].
        apply bind_ok_inv in Hvar as (st_a & w0 & Hst_a & Hvar).
        apply get_re_state_ok in Hst_a as (-> & Hst_a).
        injection Hvar as <-. simpl in Hst_b.
        rewrite lookup_insert_eq in Hst_b. injection Hst_b as <-.
        simpl in Hrv. injection Hrv as ->.
        rewrite Hres, Hst in Hst_a. injection Hst_a as <-.
        split_and!; [by simpl; rewrite lookup_insert_eq|done|done|done| |done].
        intros st' rv0 Hst'. rewrite Hst in Hst'. injection Hst' as <-.
        by rewrite Hrv0. }
    apply LocalVar_ref_expr_ok in Href as (l & t & Hl & Ht & -> & ->).
    assert (re_id self <> next_object wb) as Hne by lia.
    assert (resolved (with_node (next_object wb) true wb) !! re_id self
            = Some st_b) as Hst1.
    { simpl. by rewrite lookup_insert_ne. }
    assert (get_local_var rv (with_node (next_object wb) true wb)
            = (with_node (next_object wb) true wb, Ok l)) as Hl1.
    { revert Hl. unfold get_local_var, get_property, lookup_store, bind.
      simpl. destruct (properties wb !! rv.1) as [pd|]; [|done].
      destruct (local_vars (pd_vars pd) !! rv.2); [|done].
      by intros [= <-]. }
    exists st_b, rv, l, t.
    split_and!; [done|done| |done|done|by rewrite Hnext|].
    + intros st rv0 Hst Hrv0. destruct (Hsame st rv0 Hst Hrv0) as [-> ->].
      done.
    + intros name2. by apply (create_result_var_owned self name2 st_b rv).
Qed.

(** ** Rendering once *)

(** The node [id], once marked as rendered, stays so. *)
Definition rendered_kept (id : nat) (w w' : World) : Prop :=
  forall st,
    resolved w !! id = Some st -> _render_pre_called st = true ->
    exists st', resolved w' !! id = Some st' /\ _render_pre_called st' = true.

Global Instance rendered_kept_preorder id : PreOrder (rendered_kept id).
Proof.
  split.
  - intros w st Hst Hcalled. by exists st.
  - intros w1 w2 w3 H12 H23 st Hst Hcalled.
    destruct (H12 st Hst Hcalled) as (st2 & Hst2 & Hcalled2).
    apply (H23 st2 Hst2 Hcalled2).
Qed.

Lemma rendered_kept_modify id (f : World -> World) :
  (forall w, resolved (f w) = resolved w) ->
  maintains (rendered_kept id) (modify f).
Proof.
  intros Hf. apply maintains_modify; try exact _.
  intros w st Hst Hcalled. exists st. by rewrite Hf.
Qed.

(** X18. A node is rendered once. When [render_pre] has been called on a
    node that is no [VariableExpr], and the rendering methods of the node
    leave it marked as rendered, every later call of [render_pre] on the
    node raises the assertion error "render_pre can be called only once",
    and [create_result_var] raises its assertion error, both without any
    change: also when the first call did not return. A [VariableExpr], which
    is skippable and has no result variable, and whose rendering methods
    only return texts, is not marked: [render_pre] returns the text of
    [_render_pre] and changes nothing, so it can be called again. *)
Theorem render_pre_is_called_once
    (_render_pre _render_expr : ResolvedExpression -> M World string)
    (gdb_helper : list string -> string)
    (class_name : ResolvedExpression -> string) self st w :
  resolved w !! re_id self = Some st ->
  _render_pre_called st = false ->
  (is_VariableExpr self = false ->
   maintains (rendered_kept (re_id self)) (_render_pre self) ->
   maintains (rendered_kept (re_id self)) (_render_expr self) ->
   forall w1 r,
     render_pre _render_pre _render_expr gdb_helper class_name self w
     = (w1, r) ->
     render_pre _render_pre _render_expr gdb_helper class_name self w1
     = (w1, Raise (AssertionError
                     (class_name self
                      +:+ ".render_pre can be called only once")))
     /\ forall name,
          create_result_var self name w1
          = (w1, Raise (AssertionError
                          ("Trying to create a result variable while the"
                           +:+ " expression has been rendered"))))
  /\ (forall pre expr,
        is_VariableExpr self = true ->
        skippable_refcount st = true ->
        _result_var st = None ->
        _render_pre self = ret pre ->
        _render_expr self = ret expr ->
        render_pre _render_pre _render_expr gdb_helper class_name self w
        = (w, Ok pre)).
Proof.
  intros Hst Hcalled. split.
  - intros Hnv Hpre Hexpr w1 r Hr.
    assert (exists st1, resolved w1 !! re_id self = Some st1
                        /\ _render_pre_called st1 = true)
      as (st1 & Hst1 & Hcalled1).
    { unfold render_pre in Hr.
      rewrite (bind_ok _ _ _ _ _ (get_re_state_eq _ _ _ Hst)) in Hr.
      rewrite Hcalled, Hnv in Hr. simpl negb in Hr.
      unfold py_assert at 1 in Hr.
      erewrite bind_ok in Hr; [|reflexivity].
      erewrite bind_ok in Hr; [|reflexivity].
      match type of Hr with
      | ?m ?wa = _ =>
          assert (maintains (rendered_kept (re_id self)) m) as Hm
      end.
      { pose proof (rendered_kept_modify (re_id self)) as Hmod.
        apply maintains_bind; [exact _|kept_tac|intros _].
        apply maintains_bind; [exact _|done|intros pre].
        apply maintains_bind; [exact _|done|intros expr].
        apply maintains_bind; [exact _|kept_tac|intros st2]. cbv zeta.
        destruct (abstract_expr st2) as [abstract|]; [|kept_tac].
        destruct (_result_var st2) as [rv|]; [|kept_tac].
        apply maintains_bind; [exact _|kept_tac|intros w2].
        apply maintains_bind; [exact _|by apply Hmod|intros _].
        unfold expr_location. kept_tac. }
      eapply (Hm _ _ _ Hr); [apply lookup_insert_eq|done]. }
    split.
    + unfold render_pre.
      rewrite (bind_ok _ _ _ _ _ (get_re_state_eq _ _ _ Hst1)), Hcalled1.
      reflexivity.
    + intros name. unfold create_result_var.
      rewrite (bind_ok _ _ _ _ _ (get_re_state_eq _ _ _ Hst1)), Hcalled1.
      reflexivity.
  - intros pre expr Hvar Hskip Hrv Hpre Hexpr. unfold render_pre.
    rewrite (bind_ok _ _ _ _ _ (get_re_state_eq _ _ _ Hst)).
    rewrite Hcalled, Hvar, Hskip, Hrv, Hpre, Hexpr. simpl negb.
    assert (mkREState None true (abstract_expr st) false (re_location st)
              (ve_ignored st) = st) as ->.
    { destruct st; simpl in *; congruence. }
    unfold py_assert at 1. erewrite bind_ok; [|reflexivity].
    assert (put_re_state (re_id self) st w = (w, Ok tt)) as Hput.
    { unfold put_re_state, modify. rewrite insert_id by done.
      by destruct w. }
    rewrite (bind_ok _ _ _ _ _ Hput). simpl orb. unfold py_assert at 1.
    erewrite bind_ok; [|reflexivity]. erewrite bind_ok; [|reflexivity].
    erewrite bind_ok; [|reflexivity].
    rewrite (bind_ok _ _ _ _ _ (get_re_state_eq _ _ _ Hst)), Hrv.
    by destruct (abstract_expr st).
Qed.

(** ** Variables that are ignored on purpose *)

(** [ignore], applied to the list of its arguments. *)
Fixpoint ignore (vars : list VarRef) : M World unit :=
  match vars with
  | [] => ret tt
  | var :: rest => tag_ignored var ;;; ignore rest
  end.

(** The variable objects after [ignore] was applied to [vars]. *)
Definition tagged (vars : list VarRef) (v : VarRef) (av : AbstractVariable)
  : AbstractVariable :=
  if bool_decide (v ∈ vars) then set_av_ignored true av else av.

Lemma ignore_spec vars w :
  (forall v, v ∈ vars -> is_Some (variables w !! v)) ->
  exists w1,
    ignore vars w = (w1, Ok tt)
    /\ w1 = set_variables (variables w1) w
    /\ forall v, variables w1 !! v = tagged vars v <$> variables w !! v.
Proof.
  revert w. induction vars as [|x rest IH]; intros w Hall.
  - exists w. split_and!; [done|by destruct w|].
    intros v. unfold tagged. rewrite bool_decide_eq_false_2 by set_solver.
    by destruct (variables w !! v).
  - destruct (Hall x) as [avx Hx]; [set_solver|].
    set (w0 := set_variables
                 (<[x := set_av_ignored true avx]> (variables w)) w).
    destruct (IH w0) as (w1 & Hi & Hw1 & Hvars).
    { intros v Hv. simpl. destruct (decide (v = x)) as [->|Hne].
      - rewrite lookup_insert_eq. eauto.
      - rewrite lookup_insert_ne by done. apply Hall. set_solver. }
    exists w1. split_and!.
    + simpl. unfold tag_ignored, get_variable, lookup_store, bind at 1 2.
      rewrite Hx. exact Hi.
    + rewrite Hw1. by destruct w.
    + intros v. rewrite Hvars. simpl. unfold tagged.
      destruct (decide (v = x)) as [->|Hne].
      * rewrite lookup_insert_eq, Hx. simpl.
        rewrite (bool_decide_eq_true_2 (x ∈ x :: rest)) by set_solver.
        by case_bool_decide.
      * rewrite lookup_insert_ne by done.
        destruct (variables w !! v) as [av|]; [simpl|done].
        destruct (decide (v ∈ rest)) as [Hin|Hout].
        -- rewrite (bool_decide_eq_true_2 (v ∈ rest)) by done.
           rewrite (bool_decide_eq_true_2 (v ∈ x :: rest)); [done|].
           apply elem_of_cons. by right.
        -- rewrite (bool_decide_eq_false_2 (v ∈ rest)) by done.
           rewrite (bool_decide_eq_false_2 (v ∈ x :: rest)); [done|].
           intros [?|?]%elem_of_cons; done.
Qed.

(** X19. [ignore] disables the warning on unused bindings. When every
    argument of [ignore] is a variable object, [ignore] returns; it sets
    the flag [_ignored] of its arguments and changes nothing else. From
    then on, [warn_on_unused_bindings] never selects a node of such a
    variable for the warning on unused bindings, and selects it for the
    warning on ignored bindings that are used exactly when the node is
    used. *)
Theorem ignore_disables_the_unused_warning vars w :
  (forall v, v ∈ vars -> is_Some (variables w !! v)) ->
  exists w1,
    ignore vars w = (w1, Ok tt)
    /\ w1 = set_variables (variables w1) w
    /\ (forall v, variables w1 !! v = tagged vars v <$> variables w !! v)
    /\ forall e v used,
         ve_abstract_var e = Some v ->
         v ∈ vars ->
         is_Some (resolved w !! re_id e) ->
         unused_binding (e, used) w1 = (w1, Ok false)
         /\ wrongly_used_binding (e, used) w1 = (w1, Ok used).
Proof.
  intros Hall. destruct (ignore_spec vars w Hall) as (w1 & Hi & Hw1 & Hvars).
  exists w1. split_and!; [done|done|done|].
  intros e v used He Hv [st Hst].
  destruct (Hall v Hv) as [av Hav].
  assert (VariableExpr_ignored e w1 = (w1, Ok true)) as Hignored.
  { unfold VariableExpr_ignored, get_re_state, get_variable, lookup_store.
    unfold bind at 1. rewrite Hw1 at 1. simpl resolved. rewrite Hst, He.
    unfold bind at 1. rewrite Hvars, Hav. simpl. unfold tagged.
    rewrite bool_decide_eq_true_2 by done.
    unfold AbstractVariable_ignored. simpl. by rewrite orb_true_r. }
  unfold unused_binding, wrongly_used_binding. simpl.
  rewrite !(bind_ok _ _ _ _ _ Hignored).
  by rewrite andb_false_r, andb_true_r.
Qed.

(** ** Scopes as context managers *)

(** A [with ... as] statement over a generator decorated with
    [@contextmanager]: the value of the [yield] is bound for the managed
    block; [X] is what the part after the [yield] keeps of the part before
    it. *)
Definition contextmanager_as {X Y B} (before_yield : M World (X * Y))
    (after_yield : X -> M World unit) (block : Y -> M World B) : M World B :=
  xy <- before_yield ;;
  b <- block (snd xy) ;;
  after_yield (fst xy) ;;;
  ret b.

(** [LocalVars.Scope.new_child]. *)
Definition Scope_new_child (self : ScopeRef) {B}
    (block : ScopeRef -> M World B) : M World B :=
  contextmanager_as
    (child <- Scope_push self ;; ret (tt, child))
    (fun _ => Scope_pop self ;;; ret tt)
    block.

(** [LocalVars.Scope.use]. *)
Definition Scope_use (self : ScopeRef) {B}
    (block : ScopeRef -> M World B) : M World B :=
  contextmanager_as
    (sc <- get_scope self ;;
     pd <- get_property (sc_vars sc) ;;
     let old_scope := current_scope (pd_vars pd) in
     set_current_scope (sc_vars sc) self ;;;
     ret (old_scope, self))
    (fun old_scope =>
       sc <- get_scope self ;;
       set_current_scope (sc_vars sc) old_scope)
    block.

(** The current scope of the local variables of the property [p]. *)
Definition current_scope_of (p : PropRef) (w : World) : option ScopeRef :=
  (fun pd => current_scope (pd_vars pd)) <$> properties w !! p.

(** The world in which [s] was made the current scope. *)
Definition with_current_scope (p : PropRef) (s : ScopeRef)
    (pd : PropertyDef) (w : World) : World :=
  set_properties
    (<[p := set_pd_vars
              (mkLocalVars (local_vars (pd_vars pd))
                 (root_scope (pd_vars pd)) s) pd]> (properties w)) w.

Lemma set_current_scope_eq p s pd w :
  properties w !! p = Some pd ->
  set_current_scope p s w = (with_current_scope p s pd w, Ok tt).
Proof.
  intros Hp. unfold set_current_scope, get_property, lookup_store, bind.
  by rewrite Hp.
Qed.

Lemma current_scope_of_with_current_scope p s pd w :
  current_scope_of p (with_current_scope p s pd w) = Some s.
Proof. unfold current_scope_of. simpl. by rewrite lookup_insert_eq. Qed.

Lemma Scope_push_eq self sc pd w :
  scopes w !! self = Some sc ->
  properties w !! sc_vars sc = Some pd ->
  scopes w !! scope_COUNT w = None ->
  exists w1,
    Scope_push self w = (w1, Ok (scope_COUNT w))
    /\ current_scope_of (sc_vars sc) w1 = Some (scope_COUNT w)
    /\ scopes w1 !! scope_COUNT w
       = Some (mkScope (scope_COUNT w) (sc_vars sc) (Some self) [] []).
Proof.
  intros Hsc Hpd Hfresh.
  assert (self <> scope_COUNT w) as Hne by congruence.
  unfold Scope_push, Scope_init, set_current_scope, get_scope, get_property,
    put_scope, put_property, lookup_store, modify, get, ret, bind.
  rewrite Hsc. simpl. rewrite lookup_insert_ne, Hsc by done. simpl.
  rewrite Hpd. eexists. split_and!; [reflexivity| |].
  - unfold current_scope_of. simpl. by rewrite lookup_insert_eq.
  - simpl. rewrite lookup_insert_ne by done. apply lookup_insert_eq.
Qed.

(** X20. The two context managers of a scope differ in what they leave.
    [use] makes the scope current for the managed block and, when the block
    returns, makes current again the scope that was current before,
    whatever the block did to the current scope. [new_child] makes a new
    child scope current and, when the block returns, leaves the parent of
    the scope that is current at that point, and fails for the root scope:
    the scope that was current before [new_child] is not restored. When the
    block raises, neither manager changes the current scope again. *)
Theorem Scope_use_restores_the_current_scope self sc pd w :
  scopes w !! self = Some sc ->
  properties w !! sc_vars sc = Some pd ->
  (forall B (block : ScopeRef -> M World B) w2 r,
     block self (with_current_scope (sc_vars sc) self pd w) = (w2, r) ->
     match r with
     | Raise e => Scope_use self block w = (w2, Raise e)
     | Ok b =>
         forall sc2 pd2,
           scopes w2 !! self = Some sc2 ->
           sc_vars sc2 = sc_vars sc ->
           properties w2 !! sc_vars sc = Some pd2 ->
           exists w3,
             Scope_use self block w = (w3, Ok b)
             /\ current_scope_of (sc_vars sc) w3
                = Some (current_scope (pd_vars pd))
             /\ scopes w3 = scopes w2
     end)
  /\ (scopes w !! scope_COUNT w = None ->
      exists w1,
        Scope_push self w = (w1, Ok (scope_COUNT w))
        /\ current_scope_of (sc_vars sc) w1 = Some (scope_COUNT w)
        /\ forall B (block : ScopeRef -> M World B) w2 r,
             block (scope_COUNT w) w1 = (w2, r) ->
             match r with
             | Raise e => Scope_new_child self block w = (w2, Raise e)
             | Ok b =>
                 forall sc2 pd2 cur,
                   scopes w2 !! self = Some sc2 ->
                   properties w2 !! sc_vars sc2 = Some pd2 ->
                   scopes w2 !! current_scope (pd_vars pd2) = Some cur ->
                   match sc_parent cur with
                   | None =>
                       Scope_new_child self block w
                       = (w2, Raise (AssertionError
                                       "Trying to pop the root scope"))
                   | Some parent =>
                       exists w3,
                         Scope_new_child self block w = (w3, Ok b)
                         /\ current_scope_of (sc_vars sc2) w3 = Some parent
                         /\ scopes w3 = scopes w2
                   end
             end).
Proof.
  intros Hsc Hpd. split.
  - intros B block w2 r Hblock.
    assert (Scope_use self block w
            = (b <- block self ;;
               (sc <- get_scope self ;;
                set_current_scope (sc_vars sc)
                  (current_scope (pd_vars pd))) ;;;
               ret b) (with_current_scope (sc_vars sc) self pd w)) as ->.
    { unfold Scope_use, contextmanager_as, get_scope, get_property,
        lookup_store. unfold bind at 1 2 3. rewrite Hsc, Hpd.
      unfold bind at 1. by rewrite (set_current_scope_eq _ _ _ _ Hpd). }
    destruct r as [b|e]; unfold bind at 1; rewrite Hblock; [|done].
    intros sc2 pd2 Hsc2 Hvars Hpd2.
    exists (with_current_scope (sc_vars sc) (current_scope (pd_vars pd)) pd2
              w2).
    split_and!; [|apply current_scope_of_with_current_scope|done].
    unfold get_scope, lookup_store, bind. rewrite Hsc2, Hvars.
    by rewrite (set_current_scope_eq _ _ _ _ Hpd2).
  - intros Hfresh.
    destruct (Scope_push_eq self sc pd w Hsc Hpd Hfresh)
      as (w1 & Hpush & Hcur & _).
    exists w1. split_and!; [done|done|].
    intros B block w2 r Hblock.
    assert (Scope_new_child self block w
            = (b <- block (scope_COUNT w) ;;
               (Scope_pop self ;;; ret tt) ;;; ret b) w1) as ->.
    { unfold Scope_new_child, contextmanager_as. unfold bind at 1 2.
      by rewrite Hpush. }
    destruct r as [b|e]; [|unfold bind at 1; by rewrite Hblock].
    intros sc2 pd2 cur Hsc2 Hpd2 Hcur2.
    assert (Scope_pop self w2
            = match sc_parent cur with
              | None =>
                  (w2, Raise (AssertionError "Trying to pop the root scope"))
              | Some parent =>
                  (with_current_scope (sc_vars sc2) parent pd2 w2, Ok parent)
              end) as Hpop.
    { unfold Scope_pop, get_scope, get_property, lookup_store, bind.
      rewrite Hsc2, Hpd2, Hcur2. destruct (sc_parent cur); [|done].
      by rewrite (set_current_scope_eq _ _ _ _ Hpd2). }
    destruct (sc_parent cur) as [parent|].
    + eexists. split_and!; [|apply current_scope_of_with_current_scope|done].
      unfold bind at 1. rewrite Hblock. unfold bind. by rewrite Hpop.
    + unfold bind at 1. rewrite Hblock. unfold bind. by rewrite Hpop.
Qed.

(** ** The bindings that are used *)











(** ** Bindings after a construction that returns *)

(** The stack of the bound properties, the names of the variables, and the
    binding stacks and the arguments of the properties are what they were,
    and a variable that had a type still has it. *)
Definition bindings_kept (w w' : World) : Prop :=
  current_properties w' = current_properties w
  /\ (forall v, _name <$> variables w' !! v = _name <$> variables w !! v)
  /\ (forall p, dynvar_binding_stack <$> properties w' !! p
                = dynvar_binding_stack <$> properties w !! p)
  /\ (forall p, arguments <$> properties w' !! p
                = arguments <$> properties w !! p)
  /\ (forall v av t,
        variables w !! v = Some av -> _type av = Some t ->
        exists av', variables w' !! v = Some av' /\ _type av' = Some t).

Global Instance bindings_kept_preorder : PreOrder bindings_kept.
Proof.
  split.
  - intros w. split_and!; [done|done|done|done|].
    intros v av t Hv Ht. eauto.
  - intros w1 w2 w3 (Hc & Hn & Hs & Ha & Ht) (Hc' & Hn' & Hs' & Ha' & Ht').
    split_and!.
    + congruence.
    + intros v. by rewrite Hn', Hn.
    + intros p. by rewrite Hs', Hs.
    + intros p. by rewrite Ha', Ha.
    + intros v av t Hv Hty.
      destruct (Ht v av t Hv Hty) as (av2 & Hv2 & Hty2).
      apply (Ht' v av2 t Hv2 Hty2).
Qed.

Lemma bindings_kept_same w w' :
  current_properties w' = current_properties w ->
  variables w' = variables w ->
  properties w' = properties w ->
  bindings_kept w w'.
Proof.
  intros Hc Hv Hp.
  split_and!; [done|by rewrite Hv|by rewrite Hp|by rewrite Hp|].
  intros v av t Hav Ht. exists av. by rewrite Hv.
Qed.

Lemma bindings_kept_modify (f : World -> World) :
  (forall w, current_properties (f w) = current_properties w) ->
  (forall w, variables (f w) = variables w) ->
  (forall w, properties (f w) = properties w) ->
  maintains bindings_kept (modify f).
Proof.
  intros Hc Hv Hp. apply maintains_modify; try exact _.
  intros w. by apply bindings_kept_same.
Qed.

Lemma bindings_kept_write_property p pd pd' w :
  properties w !! p = Some pd ->
  dynvar_binding_stack pd' = dynvar_binding_stack pd ->
  arguments pd' = arguments pd ->
  bindings_kept w (set_properties (<[p := pd']> (properties w)) w).
Proof.
  intros Hp Heq Hargs. split_and!; [done|done| | |].
  - intros q. simpl. destruct (decide (q = p)) as [->|Hne].
    + rewrite lookup_insert_eq, Hp. simpl. by rewrite Heq.
    + by rewrite lookup_insert_ne.
  - intros q. simpl. destruct (decide (q = p)) as [->|Hne].
    + rewrite lookup_insert_eq, Hp. simpl. by rewrite Hargs.
    + by rewrite lookup_insert_ne.
  - intros v av t Hv Ht. eauto.
Qed.

Lemma bindings_kept_write_variable v av av' w :
  variables w !! v = Some av ->
  _name av' = _name av ->
  (forall t, _type av = Some t -> _type av' = Some t) ->
  bindings_kept w (set_variables (<[v := av']> (variables w)) w).
Proof.
  intros Hv Hname Htype. split_and!; [done| |done|done|].
  - intros u. simpl. destruct (decide (u = v)) as [->|Hne].
    + rewrite lookup_insert_eq, Hv. simpl. by rewrite Hname.
    + by rewrite lookup_insert_ne.
  - intros u au t Hu Ht. simpl. destruct (decide (u = v)) as [->|Hne].
    + rewrite lookup_insert_eq. exists av'. split; [done|].
      apply Htype. congruence.
    + rewrite lookup_insert_ne by done. eauto.
Qed.

Lemma bindings_kept_read_property {A} p (k : PropertyDef -> M World A) :
  (forall pd w w' r,
     properties w !! p = Some pd -> k pd w = (w', r) -> bindings_kept w w') ->
  maintains bindings_kept (pd <- get_property p ;; k pd).
Proof.
  intros Hk w w' r. unfold get_property, lookup_store, bind at 1.
  destruct (properties w !! p) as [pd|] eqn:Hp;
    [|intros [= <- _]; reflexivity].
  apply Hk, Hp.
Qed.

Lemma bindings_kept_read_variable {A} v (k : AbstractVariable -> M World A) :
  (forall av w w' r,
     variables w !! v = Some av -> k av w = (w', r) -> bindings_kept w w') ->
  maintains bindings_kept (av <- get_variable v ;; k av).
Proof.
  intros Hk w w' r. unfold get_variable, lookup_store, bind at 1.
  destruct (variables w !! v) as [av|] eqn:Hv;
    [|intros [= <- _]; reflexivity].
  apply Hk, Hv.
Qed.

Lemma bindings_kept_update_property p (f : PropertyDef -> PropertyDef) :
  (forall pd, dynvar_binding_stack (f pd) = dynvar_binding_stack pd) ->
  (forall pd, arguments (f pd) = arguments pd) ->
  maintains bindings_kept (pd <- get_property p ;; put_property p (f pd)).
Proof.
  intros Hf Hargs. apply bindings_kept_read_property.
  intros pd w w' r Hp [= <- _].
  eapply bindings_kept_write_property; [exact Hp|apply Hf|apply Hargs].
Qed.

Lemma bindings_kept_put_scope s sc : maintains bindings_kept (put_scope s sc).
Proof. by apply bindings_kept_modify. Qed.

Lemma bindings_kept_put_re_state id st :
  maintains bindings_kept (put_re_state id st).
Proof. by apply bindings_kept_modify. Qed.

Lemma bindings_kept_new_object : maintains bindings_kept new_object.
Proof. intros w w' r [= <- _]. by apply bindings_kept_same. Qed.

Lemma bindings_kept_warn_if cond message :
  maintains bindings_kept (warn_if cond message).
Proof.
  unfold warn_if. destruct cond; [by apply bindings_kept_modify|].
  apply maintains_ret, _.
Qed.

Lemma bindings_kept_put_local_var var lv :
  maintains bindings_kept (put_local_var var lv).
Proof. unfold put_local_var. by apply bindings_kept_update_property. Qed.

Lemma bindings_kept_set_current_scope owner s :
  maintains bindings_kept (set_current_scope owner s).
Proof. unfold set_current_scope. by apply bindings_kept_update_property. Qed.

Lemma bindings_kept_modify_property p f :
  (forall pd, dynvar_binding_stack (f pd) = dynvar_binding_stack pd) ->
  (forall pd, arguments (f pd) = arguments pd) ->
  maintains bindings_kept (modify_property p f).
Proof. unfold modify_property. apply bindings_kept_update_property. Qed.

Lemma bindings_kept_LocalVars_create_scopeless self name type :
  maintains bindings_kept (LocalVars_create_scopeless self name type).
Proof.
  unfold LocalVars_create_scopeless. apply bindings_kept_read_property.
  intros pd w w' r Hp.
  destruct (create_scopeless_in (pd_vars pd) name type) as [[lv vars']|];
    [|intros [= <- _]; reflexivity].
  intros [= <- _].
  eapply bindings_kept_write_property; [exact Hp|done|done].
Qed.

#[local] Hint Resolve bindings_kept_put_scope bindings_kept_put_re_state
  bindings_kept_new_object bindings_kept_warn_if bindings_kept_put_local_var
  bindings_kept_set_current_scope bindings_kept_LocalVars_create_scopeless
  : kept.

Lemma bindings_kept_Scope_add self var :
  maintains bindings_kept (Scope_add self var).
Proof. unfold Scope_add. kept_tac. Qed.

#[local] Hint Resolve bindings_kept_Scope_add : kept.

Lemma bindings_kept_LocalVars_create self name type :
  maintains bindings_kept (LocalVars_create self name type).
Proof. unfold LocalVars_create. kept_tac. Qed.

Lemma bindings_kept_ResolvedExpression_init self t name skippable abstract :
  maintains bindings_kept
    (ResolvedExpression_init self t name skippable abstract).
Proof. unfold ResolvedExpression_init. kept_tac. Qed.

#[local] Hint Resolve bindings_kept_LocalVars_create
  bindings_kept_ResolvedExpression_init : kept.

Lemma bindings_kept_set_location id loc :
  maintains bindings_kept (set_location id loc).
Proof. unfold set_location. kept_tac. Qed.

Lemma bindings_kept_expr_location e :
  maintains bindings_kept (expr_location e).
Proof. unfold expr_location. kept_tac. Qed.

Lemma bindings_kept_check_expected e expected custom_msg downcast :
  maintains bindings_kept (check_expected e expected custom_msg downcast).
Proof. unfold check_expected, Cast_Expr_new. kept_tac. Qed.

Lemma bindings_kept_AbstractVariable_construct v :
  maintains bindings_kept (AbstractVariable_construct v).
Proof.
  intros w w' r.
  destruct (variables w !! v) as [av|] eqn:Hv.
  - rewrite (AbstractVariable_construct_eq v av w Hv).
    destruct (construct_cache av !! (_name av, _type av)) eqn:Hc.
    { intros [= <- _]. reflexivity. }
    destruct (_type av) as [t|] eqn:Ht; intros [= <- _].
    + etransitivity;
        [apply (bindings_kept_same w (with_node (next_object w) true w));
         done|].
      apply (bindings_kept_write_variable v av _
               (with_node (next_object w) true w)); [exact Hv|done|done].
    + by apply bindings_kept_same.
  - unfold AbstractVariable_construct, get_variable, lookup_store, bind.
    rewrite Hv. intros [= <- _]. reflexivity.
Qed.

(** [set_type] gives a type to a variable that has none. *)
Lemma bindings_kept_AbstractVariable_set_type v t :
  maintains bindings_kept (AbstractVariable_set_type v t).
Proof.
  unfold AbstractVariable_set_type. apply bindings_kept_read_variable.
  intros av w w' r Hv. unfold py_assert.
  destruct (decide (_type av = None)) as [Hnone|Hsome].
  - rewrite bool_decide_eq_true_2 by done.
    unfold bind at 1, ret at 1. unfold bind at 1, put_variable, modify.
    intros Hrest. etransitivity.
    + eapply (bindings_kept_write_variable v av (set_av_type (Some t) av));
        [exact Hv|done|].
      intros t0 Ht0. congruence.
    + revert Hrest.
      assert (maintains bindings_kept
                match local_var av with
                | Some lv =>
                    v0 <- get_local_var lv ;;
                    put_local_var lv
                      (mkLocalVar (lv_name v0) (Some t) (lv_scope v0))
                | None => ret tt
                end) as Hm by kept_tac.
      apply Hm.
  - rewrite bool_decide_eq_false_2 by done. intros [= <- _]. reflexivity.
Qed.

#[local] Hint Resolve bindings_kept_set_location bindings_kept_expr_location
  bindings_kept_check_expected bindings_kept_AbstractVariable_construct
  bindings_kept_AbstractVariable_set_type : kept.

Lemma bindings_kept_is_bound v : maintains bindings_kept (is_bound v).
Proof. unfold is_bound, is_accepted_in. kept_tac. Qed.

Lemma bindings_kept_Variable_construct v :
  maintains bindings_kept (Variable_construct v).
Proof.
  unfold Variable_construct, DynamicVariable_construct.
  pose proof (bindings_kept_is_bound v). kept_tac.
Qed.

(** A computation that keeps the bindings when it returns. *)
Definition balanced {A} (m : M World A) : Prop :=
  forall w w' a, m w = (w', Ok a) -> bindings_kept w w'.

Lemma balanced_maintains {A} (m : M World A) :
  maintains bindings_kept m -> balanced m.
Proof. intros Hm w w' a. apply Hm. Qed.

Lemma balanced_bind {A B} (m : M World A) (k : A -> M World B) :
  balanced m -> (forall a, balanced (k a)) -> balanced (bind m k).
Proof.
  intros Hm Hk w w' b Hb.
  apply bind_ok_inv in Hb as (a & w1 & Hb & Hk').
  etransitivity; [eapply Hm, Hb|eapply Hk, Hk'].
Qed.

(** What a [with dynvar._bind(name)] statement that returns went
    through. *)
Lemma _bind_inv {B} d name (block : M World B) w w3 b :
  _bind d name B block w = (w3, Ok b) ->
  exists av p pd w2 av2 pd2,
    variables w !! d = Some av
    /\ default None (last (current_properties w)) = Some p
    /\ properties w !! p = Some pd
    /\ block (entered d p name pd av w) = (w2, Ok b)
    /\ variables w2 !! d = Some av2
    /\ properties w2 !! p = Some pd2
    /\ last (dynvar_binding_stack pd2) = Some d
    /\ w3 = exited d p (_name av) pd2 av2 w2.
Proof.
  unfold _bind, contextmanager. intros Hb.
  apply bind_ok_inv in Hb as ([p saved] & w1 & Hbefore & Hb).
  unfold PropertyDef_get, bind at 1 in Hbefore.
  unfold get_variable, lookup_store, bind at 1 in Hbefore.
  destruct (variables w !! d) as [av|] eqn:Hd; [|done].
  unfold put_variable, modify, bind at 1 in Hbefore.
  destruct (default None (last (current_properties w))) as [p0|] eqn:Hcur;
    [|done].
  unfold get_property, lookup_store, bind at 1 in Hbefore.
  simpl in Hbefore.
  destruct (properties w !! p0) as [pd|] eqn:Hpd; [|done].
  injection Hbefore as <- <- <-.
  apply bind_ok_inv in Hb as (b' & w2 & Hblock & Hb).
  apply bind_ok_inv in Hb as ([] & w3' & Hafter & Hb).
  injection Hb as <- <-.
  unfold get_variable, lookup_store, bind at 1 in Hafter.
  destruct (variables w2 !! d) as [av2|] eqn:Hd2; [|done].
  unfold put_variable, modify, bind at 1 in Hafter.
  unfold dynvar_binding_stack_pop, get_property, lookup_store in Hafter.
  unfold bind at 1 2 in Hafter. simpl in Hafter.
  destruct (properties w2 !! p0) as [pd2|] eqn:Hpd2; [|done].
  destruct (last (dynvar_binding_stack pd2)) as [top|] eqn:Hlast; [|done].
  unfold put_property, modify, bind at 1, ret at 1, py_assert in Hafter.
  destruct (decide (top = d)) as [->|Hne];
    [|by rewrite bool_decide_eq_false_2 in Hafter].
  rewrite bool_decide_eq_true_2 in Hafter by done.
  injection Hafter as <-.
  exists av, p0, pd, w2, av2, pd2. by split_and!.
Qed.

(** A binding that is established around a balanced block is balanced. *)
Lemma balanced__bind {B} d name (block : M World B) :
  balanced block -> balanced (_bind d name B block).
Proof.
  intros Hblock w w3 b Hb.
  apply _bind_inv in Hb
    as (av & p & pd & w2 & av2 & pd2 & Hd & Hcur & Hpd & Hb & Hd2 & Hpd2
        & Hlast & ->).
  destruct (Hblock _ _ _ Hb) as (Hc & Hn & Hs & Ha & Ht).
  split_and!.
  - done.
  - intros v. simpl. destruct (decide (v = d)) as [->|Hne].
    + by rewrite lookup_insert_eq, Hd.
    + rewrite lookup_insert_ne by done. rewrite Hn. simpl.
      by rewrite lookup_insert_ne.
  - intros q. simpl. destruct (decide (q = p)) as [->|Hne].
    + rewrite lookup_insert_eq, Hpd. simpl. f_equal.
      specialize (Hs p). rewrite Hpd2 in Hs. simpl in Hs.
      rewrite lookup_insert_eq in Hs. simpl in Hs. injection Hs as ->.
      apply removelast_last.
    + rewrite lookup_insert_ne by done. rewrite Hs. simpl.
      by rewrite lookup_insert_ne.
  - intros q. simpl. destruct (decide (q = p)) as [->|Hne].
    + rewrite lookup_insert_eq, Hpd. simpl. f_equal.
      specialize (Ha p). rewrite Hpd2 in Ha. simpl in Ha.
      rewrite lookup_insert_eq in Ha. simpl in Ha. by injection Ha as ->.
    + rewrite lookup_insert_ne by done. rewrite Ha. simpl.
      by rewrite lookup_insert_ne.
  - intros v av0 t Hv Hty. simpl. destruct (decide (v = d)) as [->|Hne].
    + rewrite lookup_insert_eq. eexists. split; [done|].
      destruct (Ht d (set_av_name name av) t) as (av' & Hav' & Hty').
      { simpl. apply lookup_insert_eq. }
      { simpl. congruence. }
      simpl. congruence.
    + rewrite lookup_insert_ne by done.
      apply (Ht v av0 t); [|done]. simpl. by rewrite lookup_insert_ne.
Qed.

Lemma balanced_py_map {A B} (f : A -> M World B) l :
  (forall x, balanced (f x)) -> balanced (py_map f l).
Proof.
  intros Hf. induction l as [|x l IH]; simpl.
  - apply balanced_maintains, maintains_ret, _.
  - apply balanced_bind; [done|intros y].
    apply balanced_bind; [done|intros ys].
    apply balanced_maintains, maintains_ret, _.
Qed.

Section ConstructBalanced.
Variable construct_ :
  PyVal -> option TypeOrPred -> option string -> bool ->
  M World ResolvedExpression.
Hypothesis construct_balanced_ :
  forall e expected custom_msg downcast,
    balanced (construct_ e expected custom_msg downcast).

Lemma balanced_Let_construct_bindings scope bs acc :
  balanced (Let_construct_bindings construct_ scope bs acc).
Proof.
  revert acc. induction bs as [|[var abs_expr] bs IH]; intros acc; simpl.
  - apply balanced_maintains, maintains_ret, _.
  - apply balanced_bind; [apply construct_balanced_|intros var_expr].
    apply balanced_bind; [apply balanced_maintains; kept_tac|intros _].
    apply balanced_bind; [apply balanced_maintains; kept_tac|intros av].
    apply balanced_bind; [apply balanced_maintains; kept_tac|intros _].
    apply IH.
Qed.

Lemma balanced_node_construct e : balanced (node_construct construct_ e).
Proof.
  destruct e as [loc lit|loc name|v|loc l r op|loc dv value body
                |loc vars var_exprs body]; simpl.
  - apply balanced_maintains.
    unfold Literal_construct, LiteralExpr_new. kept_tac.
  - apply balanced_maintains.
    unfold SymbolLiteral_construct, SymbolLiteral_Expr_new,
      ComputingExpr_init.
    kept_tac.
  - apply balanced_maintains, bindings_kept_Variable_construct.
  - unfold Arithmetic_construct, BasicExpr_new, ComputingExpr_init.
    apply balanced_bind; [apply construct_balanced_|intros l'].
    apply balanced_bind; [apply construct_balanced_|intros r'].
    apply balanced_maintains. kept_tac.
  - unfold bind_construct.
    apply balanced_bind; [apply balanced_maintains; kept_tac|intros [v av]].
    apply balanced_bind; [apply construct_balanced_|intros rv].
    apply balanced_bind; [apply balanced_maintains; kept_tac|intros p].
    apply balanced_bind; [apply balanced_maintains; kept_tac|].
    intros value_var. apply balanced__bind.
    apply balanced_bind; [apply construct_balanced_|intros to_eval].
    apply balanced_maintains.
    unfold DynamicVariableBindExpr_new, ComputingExpr_init. kept_tac.
  - unfold Let_construct, Let_Expr_new, ComputingExpr_init.
    apply balanced_bind; [apply balanced_maintains; kept_tac|intros scope].
    apply balanced_bind;
      [apply balanced_Let_construct_bindings|intros ves].
    apply balanced_bind; [|intros vs].
    { apply balanced_py_map. intros x. apply construct_balanced_. }
    apply balanced_bind; [apply construct_balanced_|intros e].
    apply balanced_maintains. kept_tac.
Qed.

End ConstructBalanced.

Lemma construct_balanced fuel e expected custom_msg downcast :
  balanced
    (construct extract_library_location fuel e expected custom_msg downcast).
Proof.
  revert e expected custom_msg downcast.
  induction fuel as [|fuel IH]; intros e expected custom_msg downcast; simpl.
  { apply balanced_maintains, maintains_raise, _. }
  unfold construct_with.
  apply balanced_bind;
    [apply balanced_maintains, maintains_lift, _|intros [| | | | | |e']];
    try (apply balanced_maintains, maintains_raise, _).
  apply balanced_bind; [by apply balanced_node_construct|intros ret_].
  apply balanced_maintains. kept_tac.
Qed.

Lemma bindings_kept_unbound d w w' :
  bindings_kept w w' -> unbound d w' = unbound d w.
Proof.
  intros (Hc & Hn & _ & Ha & _). unfold unbound, accepted_by_current.
  rewrite Hc. specialize (Hn d).
  destruct (default None (last (current_properties w))) as [p|].
  - specialize (Ha p).
    destruct (properties w' !! p) as [pd'|], (properties w !! p) as [pd|];
      simpl in Ha; try done; [injection Ha as ->|];
      destruct (variables w' !! d) as [av'|], (variables w !! d) as [av|];
      simpl in Hn; try done; by injection Hn as ->.
  - destruct (variables w' !! d) as [av'|], (variables w !! d) as [av|];
      simpl in Hn; try done. by injection Hn as ->.
Qed.

(** X22. A construction that returns leaves the bindings as they were.
    When [construct] returns a node, whatever the expression is, the
    stack of the bound properties, the name of every variable, and the
    binding stack and the arguments of every property are what they were
    before the call, and a variable that had a type still has it: every
    binding that a [bind] expression established inside is undone. So
    every dynamic variable is unbound after the call exactly when it was
    unbound before it. *)
Theorem construct_is_balanced fuel expr expected custom_msg downcast w w' e :
  construct extract_library_location fuel expr expected custom_msg downcast w
  = (w', Ok e) ->
  bindings_kept w w' /\ forall d, unbound d w' = unbound d w.
Proof.
  intros Hc. apply construct_balanced in Hc.
  split; [exact Hc|]. intros d. by apply bindings_kept_unbound.
Qed.

(** ** Bindings after the construction of a property *)

(** The type of [Self] is what it was. *)
Definition self_type_kept (w w' : World) : Prop :=
  _type <$> variables w' !! Self = _type <$> variables w !! Self.

Global Instance self_type_kept_preorder : PreOrder self_type_kept.
Proof.
  split.
  - by intros w.
  - intros w1 w2 w3 H12 H23. unfold self_type_kept in *. congruence.
Qed.

Lemma self_type_kept_modify (f : World -> World) :
  (forall w, variables (f w) = variables w) ->
  maintains self_type_kept (modify f).
Proof.
  intros Hf. apply maintains_modify; try exact _.
  intros w. unfold self_type_kept. by rewrite Hf.
Qed.

Lemma self_type_kept_put_property p pd :
  maintains self_type_kept (put_property p pd).
Proof. by apply self_type_kept_modify. Qed.

Lemma self_type_kept_put_re_state id st :
  maintains self_type_kept (put_re_state id st).
Proof. by apply self_type_kept_modify. Qed.

Lemma self_type_kept_warn_if cond message :
  maintains self_type_kept (warn_if cond message).
Proof.
  unfold warn_if. destruct cond; [by apply self_type_kept_modify|].
  apply maintains_ret, _.
Qed.

Lemma self_type_kept_AbstractVariable_construct v :
  maintains self_type_kept (AbstractVariable_construct v).
Proof.
  intros w w' r.
  destruct (variables w !! v) as [av|] eqn:Hv.
  - rewrite (AbstractVariable_construct_eq v av w Hv).
    destruct (construct_cache av !! (_name av, _type av)) eqn:Hc.
    { intros [= <- _]. reflexivity. }
    destruct (_type av) as [t|] eqn:Ht; intros [= <- _];
      unfold self_type_kept; simpl; [|done].
    destruct (decide (Self = v)) as [<-|Hne].
    + rewrite lookup_insert_eq, Hv. simpl. congruence.
    + by rewrite lookup_insert_ne.
  - unfold AbstractVariable_construct, get_variable, lookup_store, bind.
    rewrite Hv. intros [= <- _]. reflexivity.
Qed.

#[local] Hint Resolve self_type_kept_put_property
  self_type_kept_put_re_state self_type_kept_warn_if
  self_type_kept_AbstractVariable_construct : kept.

(** The bindings and the type of [Self] are what they were. *)
Definition restored (w w' : World) : Prop :=
  bindings_kept w w' /\ self_type_kept w w'.

Global Instance restored_preorder : PreOrder restored.
Proof.
  split.
  - intros w. split; reflexivity.
  - intros w1 w2 w3 [H12 H12'] [H23 H23']. split; by etransitivity.
Qed.

Lemma maintains_restored {A} (m : M World A) :
  maintains bindings_kept m -> maintains self_type_kept m ->
  maintains restored m.
Proof. intros Hb Ht w w' r Hm. split; [eapply Hb, Hm|eapply Ht, Hm]. Qed.

Lemma restored_put_property_update p (f : PropertyDef -> PropertyDef) :
  (forall pd, dynvar_binding_stack (f pd) = dynvar_binding_stack pd) ->
  (forall pd, arguments (f pd) = arguments pd) ->
  maintains restored (modify_property p f).
Proof.
  intros Hs Ha. apply maintains_restored.
  - by apply bindings_kept_modify_property.
  - unfold modify_property. kept_tac.
Qed.

Lemma restored_put_re_state id st : maintains restored (put_re_state id st).
Proof. apply maintains_restored; kept_tac. Qed.

Lemma restored_new_object : maintains restored new_object.
Proof.
  apply maintains_restored; [kept_tac|].
  intros w w' r [= <- _]. reflexivity.
Qed.

Lemma restored_warn_if cond message :
  maintains restored (warn_if cond message).
Proof. apply maintains_restored; kept_tac. Qed.

Lemma restored_AbstractVariable_construct v :
  maintains restored (AbstractVariable_construct v).
Proof. apply maintains_restored; kept_tac. Qed.

#[local] Hint Resolve restored_put_re_state restored_new_object
  restored_warn_if restored_AbstractVariable_construct : kept.


(** The construction of a reference to a variable sets no type. *)
Lemma restored_construct_variable fuel v expected custom_msg downcast :
  maintains restored
    (construct extract_library_location fuel (PyExpr (Variable_ v)) expected
       custom_msg downcast).
Proof.
  destruct fuel as [|fuel]; simpl; [apply maintains_raise, _|].
  rewrite construct_with_expr. simpl node_construct.
  unfold Variable_construct, DynamicVariable_construct, is_bound,
    is_accepted_in, expr_location, set_location, check_expected,
    Cast_Expr_new, ResolvedExpression_init.
  apply maintains_bind; [exact _|kept_tac|intros ret_].
  apply maintains_bind; [exact _|kept_tac|intros loc].
  apply maintains_bind; [exact _|kept_tac|intros _].
  destruct expected as [[t|pred]|]; [|kept_tac|kept_tac].
  apply maintains_bind; [exact _|kept_tac|intros _].
  destruct (_ && _); [|kept_tac].
  kept_tac.
Qed.

Lemma restored_warn_on_unused_bindings fuel self :
  maintains restored
    (warn_on_unused_bindings (construct extract_library_location fuel) self).
Proof.
  unfold warn_on_unused_bindings.
  apply maintains_bind; [exact _|kept_tac|intros pd].
  destruct (constructed_expr pd) as [constructed|]; [|kept_tac].
  apply maintains_bind; [exact _| |intros args].
  { unfold natural_arguments. kept_tac. }
  apply maintains_bind; [exact _| |intros arg_vars].
  { induction args as [|arg args IH]; simpl; [kept_tac|].
    apply maintains_bind;
      [exact _|apply restored_construct_variable|intros y].
    kept_tac. }
  cbv zeta.
  assert (forall A (f : A -> M World bool) l,
            (forall x, maintains restored (f x)) ->
            maintains restored (py_filter f l)) as Hfilter.
  { intros A f l Hf. induction l as [|x l IH]; simpl; kept_tac. }
  assert (forall entry, maintains restored (unused_binding entry)) as Hu.
  { intros entry. unfold unused_binding, VariableExpr_ignored. kept_tac. }
  assert (forall entry, maintains restored (wrongly_used_binding entry))
    as Hw.
  { intros entry. unfold wrongly_used_binding, VariableExpr_ignored.
    kept_tac. }
  assert (forall vars, maintains restored (format_list vars)) as Hf.
  { intros vars. unfold format_list.
    apply maintains_bind; [exact _| |intros ?; kept_tac].
    induction vars as [|x vars IH]; simpl; [kept_tac|].
    unfold VariableExpr_source_name at 1. kept_tac. }
  apply maintains_bind; [exact _|by apply Hfilter|intros unused_vars].
  apply maintains_bind; [exact _|by apply Hfilter|intros wrongly_used_vars].
  kept_tac.
Qed.

(** A computation that restores them when it returns. *)
Definition restores {A} (m : M World A) : Prop :=
  forall w w' a, m w = (w', Ok a) -> restored w w'.

Lemma restores_maintains {A} (m : M World A) :
  maintains restored m -> restores m.
Proof. intros Hm w w' a. apply Hm. Qed.

Lemma restores_bind {A B} (m : M World A) (k : A -> M World B) :
  restores m -> (forall a, restores (k a)) -> restores (bind m k).
Proof.
  intros Hm Hk w w' b Hb.
  apply bind_ok_inv in Hb as (a & w1 & Hb & Hk').
  etransitivity; [eapply Hm, Hb|eapply Hk, Hk'].
Qed.

(** [bind_default] around a balanced block. *)
Lemma balanced_bind_default {B} d prop (block : M World B) :
  balanced block -> balanced (bind_default d prop B block).
Proof.
  intros Hblock. unfold bind_default.
  apply balanced_bind;
    [apply balanced_maintains; unfold is_accepted_in; kept_tac|].
  intros accepted.
  apply balanced_bind; [apply balanced_maintains; kept_tac|intros av].
  by apply balanced__bind.
Qed.

Lemma balanced_nested_bind_default {B} prop l (block : M World B) :
  balanced block ->
  balanced (nested ((fun dynvar => bind_default dynvar prop) <$> l) B block).
Proof.
  intros Hblock. induction l as [|d l IH]; [done|].
  by apply balanced_bind_default.
Qed.

(** [bind_type] around a balanced block: the type is what it was. *)
Lemma bind_type_restores {B} type (block : M World B) :
  balanced block -> restores (bind_type Self type B block).
Proof.
  intros Hblock w w3 b Hb. unfold bind_type, contextmanager in Hb.
  apply bind_ok_inv in Hb as (old & w1 & Hbefore & Hb).
  unfold get_variable, lookup_store, bind in Hbefore.
  destruct (variables w !! Self) as [av|] eqn:Hv; [|done].
  injection Hbefore as <- <-.
  apply bind_ok_inv in Hb as (b' & w2 & Hb & Hafter).
  apply bind_ok_inv in Hafter as ([] & w3' & Hafter & Hret).
  injection Hret as <- <-.
  unfold get_variable, lookup_store, bind in Hafter.
  destruct (variables w2 !! Self) as [av2|] eqn:Hv2; [|done].
  injection Hafter as <-.
  destruct (Hblock _ _ _ Hb) as (Hc & Hn & Hs & Ha & Ht).
  split; [split_and!|].
  - done.
  - intros v. simpl. destruct (decide (v = Self)) as [->|Hne].
    + rewrite lookup_insert_eq, Hv. simpl.
      specialize (Hn Self). rewrite Hv2 in Hn. simpl in Hn.
      rewrite lookup_insert_eq in Hn. simpl in Hn. congruence.
    + rewrite lookup_insert_ne by done. rewrite Hn. simpl.
      by rewrite lookup_insert_ne.
  - done.
  - done.
  - intros v av0 t Hv0 Hty. simpl.
    destruct (decide (v = Self)) as [->|Hne].
    + rewrite lookup_insert_eq. eexists. split; [done|]. simpl. congruence.
    + rewrite lookup_insert_ne by done.
      apply (Ht v av0 t); [|done]. simpl. by rewrite lookup_insert_ne.
  - unfold self_type_kept. simpl. by rewrite lookup_insert_eq, Hv.
Qed.

(** [PropertyDef.bind] around a block that restores the bindings. *)
Lemma PropertyDef_bind_restores {B} p (block : M World B) :
  restores block -> restores (PropertyDef_bind p B block).
Proof.
  intros Hblock w w3 b Hb. unfold PropertyDef_bind, contextmanager in Hb.
  apply bind_ok_inv in Hb as ([] & w1 & Hbefore & Hb).
  injection Hbefore as <-.
  apply bind_ok_inv in Hb as (b' & w2 & Hb & Hafter).
  apply bind_ok_inv in Hafter as ([] & w3' & Hafter & Hret).
  injection Hret as <- <-.
  destruct (Hblock _ _ _ Hb) as [(Hc & Hn & Hs & Ha & Ht) Hself].
  simpl in Hc. unfold get, modify, bind in Hafter.
  destruct (current_properties w2) as [|q l] eqn:Hl.
  { symmetry in Hc. by apply app_nil in Hc as [_ ?]. }
  injection Hafter as <-.
  assert (removelast (q :: l) = current_properties w) as Hrem
    by (rewrite Hc; apply removelast_last).
  simpl in Hrem. rewrite Hrem.
  split; [split_and!; done|done].
Qed.

(** A [try] statement whose [finally] clause keeps the bindings. *)
Lemma balanced_try_finally {A} (body : M World A) cleanup :
  balanced body ->
  (forall w, bindings_kept w (cleanup w)) ->
  balanced (try_finally body cleanup).
Proof.
  intros Hbody Hcleanup w w' a. unfold try_finally.
  destruct (body w) as [w2 r] eqn:Hb. intros [= <- ->].
  etransitivity; [eapply Hbody, Hb|apply Hcleanup].
Qed.

Lemma bindings_kept_reset_in_type self w :
  bindings_kept w (reset_in_type self w).
Proof.
  unfold reset_in_type.
  split_and!; [done|done| | |]; simpl.
  - intros p. destruct (decide (p = self)) as [->|Hne].
    + rewrite lookup_alter_eq. by destruct (properties w !! self).
    + by rewrite lookup_alter_ne.
  - intros p. destruct (decide (p = self)) as [->|Hne].
    + rewrite lookup_alter_eq. by destruct (properties w !! self).
    + by rewrite lookup_alter_ne.
  - intros v av t Hv Ht. eauto.
Qed.

Lemma nested_cons {B} (cm : ContextManager) managers (block : M World B) :
  nested (cm :: managers) B block = cm B (nested managers B block).
Proof. reflexivity. Qed.

(** The body of [construct_and_type_expression] restores the bindings as
    soon as the type inference of the base property does. *)
Lemma restores_body fuel
    (construct_and_type_expression_ : PropRef -> M World unit) self :
  (forall p, restores (construct_and_type_expression_ p)) ->
  restores
    (construct_and_type_expression_body
       (construct extract_library_location fuel)
       construct_and_type_expression_ self).
Proof.
  intros Hrec. unfold construct_and_type_expression_body.
  apply restores_bind; [apply restores_maintains; kept_tac|intros pd].
  case_bool_decide; [apply restores_maintains; kept_tac|].
  apply restores_bind; [apply restores_maintains; kept_tac|intros _].
  destruct (pd_expr pd) as [expr|].
  - apply restores_bind; [apply restores_maintains; kept_tac|].
    intros previous_property.
    apply restores_bind; [apply restores_maintains; kept_tac|].
    intros to_reset.
    apply restores_bind; [apply restores_maintains; kept_tac|].
    intros dynamic_vars. cbv zeta.
    apply restores_bind; [|intros _].
    + change ([PropertyDef_bind self; bind_type Self (Some (struct pd))]
              ++ ((fun dynvar => bind_default dynvar self)
                    <$> to_reset ++ dynamic_vars))
        with (PropertyDef_bind self
              :: bind_type Self (Some (struct pd))
              :: ((fun dynvar => bind_default dynvar self)
                    <$> to_reset ++ dynamic_vars)).
      rewrite !nested_cons.
      apply PropertyDef_bind_restores, bind_type_restores,
        balanced_nested_bind_default.
      apply balanced_bind; [apply balanced_maintains; kept_tac|].
      intros message.
      apply balanced_bind; [|intros _].
      { apply balanced_maintains. by apply bindings_kept_modify_property. }
      apply balanced_try_finally; [|apply bindings_kept_reset_in_type].
      apply balanced_bind; [apply balanced_maintains; kept_tac|intros pd'].
      apply balanced_bind; [apply construct_balanced|intros e].
      apply balanced_maintains. by apply bindings_kept_modify_property.
    + apply restores_maintains.
      pose proof (restored_warn_on_unused_bindings fuel self).
      unfold LocalVars_check_scopes. kept_tac.
  - apply restores_bind; [apply restores_maintains; kept_tac|intros _].
    destruct (expected_type pd); [apply restores_maintains; kept_tac|].
    destruct (base_property pd) as [base|];
      [|apply restores_maintains; kept_tac].
    apply restores_bind; [|intros t].
    + unfold PropertyDef_type.
      apply restores_bind; [apply restores_maintains; kept_tac|intros bd].
      destruct (expected_type bd); [apply restores_maintains; kept_tac|].
      apply restores_bind;
        [|intros _; apply restores_maintains; kept_tac].
      case_bool_decide; [apply Hrec|apply restores_maintains; kept_tac].
    + apply restores_maintains. by apply restored_put_property_update.
Qed.

Lemma construct_and_type_expression_restores fuel self :
  restores (construct_and_type_expression extract_library_location fuel self).
Proof.
  revert self. induction fuel as [|fuel IH]; intros self; simpl.
  { apply restores_maintains, maintains_raise, _. }
  by apply restores_body.
Qed.

(** X23. The construction of a property that returns leaves the bindings
    as they were. When [construct_and_type_expression] returns, the stack
    of the bound properties is the one before the call, [Self] has the type
    it had, and the name of every variable and the binding stack of every
    property are what they were: the property is bound, [Self] is typed and
    the dynamic variables are bound by default for the time of the
    construction only. So every dynamic variable is unbound after the call
    exactly when it was unbound before it. *)
Theorem type_inference_restores_the_bindings fuel self w w' :
  construct_and_type_expression extract_library_location fuel self w
  = (w', Ok tt) ->
  current_properties w' = current_properties w
  /\ _type <$> variables w' !! Self = _type <$> variables w !! Self
  /\ bindings_kept w w'
  /\ forall d, unbound d w' = unbound d w.
Proof.
  intros Hc. apply construct_and_type_expression_restores in Hc as [Hb Hs].
  split_and!; [apply Hb|exact Hs|exact Hb|].
  intros d. by apply bindings_kept_unbound.
Qed.

End More.

(** * The properties on sample worlds *)

Definition self_variable : AbstractVariable :=
  mkAbstractVariable SelfVariableClass None None None None (Some "Self") None
    ∅ false.

(** A plain variable of a node type, two dynamic variables, and a variable
    whose source name is ["_"]. *)
Definition node_variable : AbstractVariable :=
  mkAbstractVariable AbstractVariableClass None None (Some (NodeType 2)) None
    (Some "N") None ∅ false.

Definition my_var : AbstractVariable :=
  mkAbstractVariable DynamicVariableClass None (Some "My_Var")
    (Some LongType) None None None ∅ false.

Definition env_var : AbstractVariable :=
  mkAbstractVariable DynamicVariableClass None (Some "Env") (Some LongType)
    None None None ∅ false.

Definition underscore_variable : AbstractVariable :=
  mkAbstractVariable AbstractVariableClass None None (Some LongType) None
    (Some "Unused_1") (Some "_") ∅ false.

Definition sample_variables : list (nat * AbstractVariable) :=
  [(0, self_variable); (5, node_variable); (7, my_var); (8, env_var);
   (9, underscore_variable)].

(** A property that accepts [env_var] as an implicit argument, and whose
    expression is a reference to [my_var], which it does not accept. *)
Definition failing_property : PropertyDef :=
  sample_property (Some (PyExpr (Variable_ 7))) None
    [mkArgument "Env" LongType true true 8] [8].

(** The world before the property is constructed: no property is
    bound. *)
Definition world_before : World :=
  sample_world [] failing_property sample_variables.

(** The world while the property is bound. *)
Definition world_bound : World :=
  sample_world [Some 1] failing_property sample_variables.

(** C2, on the code. The expression of [failing_property] refers to a
    dynamic variable that is not bound, so its construction raises the
    diagnostic. The world it leaves is not the world before: the property
    is still on the stack of the bound properties, [Self] still has the
    type of the owner of the property, and the dynamic variable the
    property accepts is still bound to its argument and still on the
    binding stack. The flag [in_type], which is reset in a [finally]
    clause, is restored. *)
Theorem diagnostic_leaves_context_managers_unrestored :
  let result := construct_and_type_expression None 5 1 world_before in
  result.2
  = Raise (DiagnosticError
             ("my_var is not bound in this context: please use the .bind"
              +:+ " construct to bind it first."))
  /\ current_properties world_before = []
  /\ current_properties result.1 = [Some 1]
  /\ _type <$> variables world_before !! Self = Some None
  /\ _type <$> variables result.1 !! Self = Some (Some (NodeType 0))
  /\ _name <$> variables world_before !! 8 = Some None
  /\ _name <$> variables result.1 !! 8 = Some (Some "Env")
  /\ dynvar_binding_stack <$> properties world_before !! 1 = Some []
  /\ dynvar_binding_stack <$> properties result.1 !! 1 = Some [8]
  /\ in_type <$> properties result.1 !! 1 = Some false.
Proof. vm_compute. by repeat split. Qed.


(** Two constructions of [node_variable] return the node allocated by the
    first. *)
Lemma AbstractVariable_construct_memoized_witness :
  let w1 := (AbstractVariable_construct 5 world_bound).1 in
  let e1 := VariableExpr 100 (NodeType 2) (Some "N") (Some 5) in
  AbstractVariable_construct 5 world_bound = (w1, Ok e1)
  /\ AbstractVariable_construct 5 w1 = (w1, Ok e1).
Proof.
  cbv zeta.
  assert (AbstractVariable_construct 5 world_bound
          = ((AbstractVariable_construct 5 world_bound).1,
             Ok (VariableExpr 100 (NodeType 2) (Some "N") (Some 5)))) as H1
    by (vm_compute; reflexivity).
  split; [exact H1|].
  eapply (AbstractVariable_construct_memoized 5 world_bound _ _ _
            node_variable _ H1).
  - reflexivity.
  - vm_compute; reflexivity.
  - vm_compute; reflexivity.
  - reflexivity.
  - reflexivity.
Defined.

(** [my_var] is unbound in [world_bound]: the reference is rejected. *)
Lemma DynamicVariable_construct_unbound_iff_witness :
  variables world_bound !! 7 = Some my_var
  /\ _type my_var = Some LongType
  /\ current_property_exists world_bound
  /\ unbound 7 world_bound = true
  /\ DynamicVariable_construct 7 world_bound
     = (world_bound,
        Raise (DiagnosticError
                 ("my_var is not bound in this context: please use the"
                  +:+ " .bind construct to bind it first."))).
Proof.
  assert (variables world_bound !! 7 = Some my_var) as H1
    by (vm_compute; reflexivity).
  assert (_type my_var = Some LongType) as H2 by reflexivity.
  assert (current_property_exists world_bound) as H3
    by (vm_compute; eexists; reflexivity).
  assert (unbound 7 world_bound = true) as H4 by (vm_compute; reflexivity).
  split_and!; [exact H1|exact H2|exact H3|exact H4|].
  exact (proj1 (proj2 (DynamicVariable_construct_unbound_iff 7 my_var
                         LongType world_bound H1 H2 H3)) H4).
Defined.



(** The node of [underscore_variable], never read, is not selected for
    the warning; a node of [node_variable], never read, is. *)
Lemma underscore_variables_are_renamed_and_ignored_witness :
  let var := @VariableExpr sample_registry 100 LongType (Some "Unused_1")
               (Some 9) in
  let other := @VariableExpr sample_registry 101 (NodeType 2) (Some "N")
                 (Some 5) in
  let st := mkREState None true None false None false in
  let w := set_resolved {[ 100 := st; 101 := st ]} world_bound in
  ve_abstract_var var = Some 9
  /\ variables w !! 9 = Some underscore_variable
  /\ source_name underscore_variable = Some "_"
  /\ resolved w !! re_id var = Some st
  /\ py_filter unused_binding [(var, false); (other, false)] w
     = (w, Ok [(other, false)])
  /\ (var, false) ∉ [(other, false)].
Proof.
  cbv zeta.
  set (var := @VariableExpr sample_registry 100 LongType (Some "Unused_1")
               (Some 9)).
  set (other := @VariableExpr sample_registry 101 (NodeType 2) (Some "N")
                 (Some 5)).
  set (st := mkREState None true None false None
               false).
  set (w := set_resolved {[ 100 := st; 101 := st ]} world_bound).
  assert (ve_abstract_var var = Some 9) as H1 by reflexivity.
  assert (variables w !! 9 = Some underscore_variable) as H2
    by (vm_compute; reflexivity).
  assert (source_name underscore_variable = Some "_") as H3 by reflexivity.
  assert (resolved w !! re_id var = Some st) as H4
    by (vm_compute; reflexivity).
  assert (py_filter unused_binding [(var, false); (other, false)] w
          = (w, Ok [(other, false)])) as H5 by (vm_compute; reflexivity).
  split_and!; [exact H1|exact H2|exact H3|exact H4|exact H5|].
  exact (proj2 (proj2 (proj2 (proj2
           underscore_variables_are_renamed_and_ignored)))
           var 9 underscore_variable st [(var, false); (other, false)] w w
           [(other, false)] false H1 H2 H3 H4 H5).
Defined.

(** A frozen literal: adding to it, and reading a field of it, is
    illegal. *)
Lemma freeze_idempotent_and_sugar_illegal_witness :
  let o := Frozable.mkObj true "Literal"
             [("location", Frozable.VNone); ("literal", Frozable.VInt 1)] in
  let h : gmap nat Frozable.Obj := {[ 1 := o ]} in
  let h' := default h (Frozable.freeze 1 h) in
  let instantiate := fun (_ : string) (_ : list Frozable.Value) =>
                       @ret (gmap nat Frozable.Obj) _ Frozable.VNone in
  (exists o', h' !! 1 = Some o' /\ Frozable.frozen o' = true)
  /\ Frozable.__add__ Frozable.VNone 1 [Frozable.VInt 2] h'
     = (h', Raise (PyException " Illegal method call: __add__"))
  /\ Frozable.__getattr__ (fun _ _ => ret Frozable.VNone) 1
       [Frozable.VStr "wrong_field"] h'
     = (h', Raise (PyException "Illegal field access: wrong_field")).
Proof.
  cbv zeta.
  set (o := Frozable.mkObj true "Literal"
              [("location", Frozable.VNone); ("literal", Frozable.VInt 1)]).
  set (o' := Frozable.mkObj true "Literal"
               [("location", Frozable.VNone); ("literal", Frozable.VInt 1);
                ("_frozen", Frozable.VBool true)]).
  set (h := ({[ 1 := o ]} : gmap nat Frozable.Obj)).
  set (h' := default h (Frozable.freeze 1 h)).
  assert (h' !! 1 = Some o') as H1 by (vm_compute; reflexivity).
  assert (Frozable.frozen o' = true) as H2 by reflexivity.
  split_and!.
  - by exists o'.
  - apply (proj1 (proj2 freeze_idempotent_and_sugar_illegal)
             (fun _ _ => ret Frozable.VNone) Frozable.VNone "__add__"
             _ 1 o' [Frozable.VInt 2] h'); [|exact H1|exact H2].
    unfold Frozable.operator_sugar.
    repeat (apply elem_of_cons; first [left; reflexivity|right]).
  - exact (proj2 (proj2 freeze_idempotent_and_sugar_illegal)
             (fun _ _ => ret Frozable.VNone) 1 o' "wrong_field" [] h' H1 H2).
Defined.

(** ** More properties on sample worlds *)

(** A computation that returns [a] returns it with the state it leaves. *)
Lemma result_of_outcome {S A} (p : S * outcome A) (a : A) :
  p.2 = Ok a -> p = (p.1, Ok a).
Proof. destruct p as [s o]. simpl. by intros ->. Qed.

(** The type of [node_variable] is not the integer type: a predicate that
    asks for it fails. *)
Lemma construct_checks_predicate_witness :
  let nc := node_construct (construct None 1) in
  let w1 := (nc (Variable_ 5) world_bound).1 in
  let ret_ := VariableExpr 100 (NodeType 2) (Some "N") (Some 5) in
  let st := mkREState None true None false None false in
  let pred := fun t : SampleType => bool_decide (t = LongType) in
  nc (Variable_ 5) world_bound = (w1, Ok ret_)
  /\ expr_location (Variable_ 5) w1 = (w1, Ok None)
  /\ resolved w1 !! re_id ret_ = Some st
  /\ truthy_msg None = None
  /\ construct None 2 (PyExpr (Variable_ 5)) (Some (ExpectedPred pred)) None
       true world_bound
     = (located 100 None st w1,
        Raise (DiagnosticError "Evaluating predicate on Node2 failed")).
Proof.
  cbv zeta.
  assert (node_construct (construct None 1) (Variable_ 5) world_bound
          = ((node_construct (construct None 1) (Variable_ 5)
                world_bound).1,
             Ok (VariableExpr 100 (NodeType 2) (Some "N") (Some 5)))) as H1
    by (apply result_of_outcome; vm_compute; reflexivity).
  assert (expr_location (Variable_ 5)
            (node_construct (construct None 1) (Variable_ 5)
               world_bound).1
          = ((node_construct (construct None 1) (Variable_ 5)
                world_bound).1, Ok None)) as H2
    by (vm_compute; reflexivity).
  assert (resolved
            (node_construct (construct None 1) (Variable_ 5)
               world_bound).1
          !! re_id (VariableExpr 100 (NodeType 2) (Some "N") (Some 5))
          = Some (mkREState None true None false None false)) as H3
    by (vm_compute; reflexivity).
  split_and!; [exact H1|exact H2|exact H3|reflexivity|].
  exact (proj1 (@construct_checks_predicate sample_registry None
                  (node_construct (construct None 1)) (Variable_ 5)
                  (fun t : SampleType => bool_decide (t = LongType)) None
                  true world_bound _ _ _ _ H1 H2 H3 eq_refl)).
Defined.

(** The sum of two integer literals. *)
Lemma Arithmetic_operands_have_the_type_of_the_result_witness :
  let sum := PyExpr (Arithmetic None (PyInt 1) (PyInt 2) "+") in
  let e := BasicExpr 102 "({} + {})" LongType
             [LiteralExpr 100 "1" LongType []; LiteralExpr 101 "2" LongType []]
             true in
  construct None 3 sum None None true world_bound
  = ((construct None 3 sum None None true world_bound).1, Ok e)
  /\ exists nl nr,
       flat_subexprs e = [nl; nr]
       /\ re_type nl = re_type e /\ re_type nr = re_type e
       /\ (re_type e = long_type \/ (re_type e = symbol_type /\ "+" = "&")).
Proof.
  cbv zeta.
  assert (construct None 3
            (PyExpr (Arithmetic None (PyInt 1) (PyInt 2) "+")) None None true
            world_bound
          = ((construct None 3
                (PyExpr (Arithmetic None (PyInt 1) (PyInt 2) "+")) None None
                true world_bound).1,
             Ok (BasicExpr 102 "({} + {})" LongType
                   [LiteralExpr 100 "1" LongType [];
                    LiteralExpr 101 "2" LongType []] true))) as H1
    by (apply result_of_outcome; vm_compute; reflexivity).
  split; [exact H1|].
  exact (proj1 (Arithmetic_operands_have_the_type_of_the_result None) 3 None
           (PyInt 1) (PyInt 2) "+" None true world_bound _ _ H1).
Defined.

(** A graph of expressions with a shared node and a cycle, and a node
    that is not reached. *)
Definition shared_store : gmap nat Frozable.Obj :=
  {[ 1 := Frozable.mkObj true "Let"
            [("a", Frozable.VRef 2); ("b", Frozable.VRef 3)];
     2 := Frozable.mkObj true "Arithmetic"
            [("l", Frozable.VRef 3); ("op", Frozable.VStr "+")];
     3 := Frozable.mkObj true "FieldAccess"
            [("receiver", Frozable.VRef 1)];
     4 := Frozable.mkObj true "Literal" [("literal", Frozable.VInt 1)] ]}.

Lemma freeze_reaches_every_component_witness :
  let o := Frozable.mkObj true "Let"
             [("a", Frozable.VRef 2); ("b", Frozable.VRef 3)] in
  freeze_closed shared_store = true
  /\ shared_store !! 1 = Some o
  /\ exists h',
       Frozable.freeze 1 shared_store = Some h'
       /\ freeze_closed h' = true
       /\ (forall y, rtc (component h') 1 y -> frozen_in h' y = true)
       /\ (forall x ox, shared_store !! x = Some ox ->
             h' !! x = Some ox
             \/ (Frozable.frozen ox = false /\ h' !! x = Some (marked ox))).
Proof.
  cbv zeta.
  assert (freeze_closed shared_store = true) as H1
    by (vm_compute; reflexivity).
  assert (shared_store !! 1
          = Some (Frozable.mkObj true "Let"
                    [("a", Frozable.VRef 2); ("b", Frozable.VRef 3)])) as H2
    by (vm_compute; reflexivity).
  split_and!; [exact H1|exact H2|].
  exact (freeze_reaches_every_component 1 _ shared_store H1 H2).
Defined.

(** Unfreezing an expression freezes its operand, which was not
    frozen. *)
Lemma unfreeze_freezes_the_attributes_witness :
  let o := Frozable.mkObj true "Arithmetic"
             [("l", Frozable.VRef 2); ("op", Frozable.VStr "+")] in
  let h : gmap nat Frozable.Obj :=
    {[ 1 := o; 2 := Frozable.mkObj true "Literal" [] ]} in
  let h' := default h (Frozable.unfreeze 1 h) in
  h !! 1 = Some o
  /\ ("l", Frozable.VRef 2) ∈ Frozable.dict o
  /\ "l" <> "_frozen"
  /\ Frozable.is_Frozable_instance h (Frozable.VRef 2) = Some 2
  /\ Frozable.unfreeze 1 h = Some h'
  /\ frozen_in h 2 = false
  /\ frozen_in h' 2 = true.
Proof.
  cbv zeta.
  set (o := Frozable.mkObj true "Arithmetic"
              [("l", Frozable.VRef 2); ("op", Frozable.VStr "+")]).
  set (h := ({[ 1 := o; 2 := Frozable.mkObj true "Literal" [] ]}
             : gmap nat Frozable.Obj)).
  assert (h !! 1 = Some o) as H1 by (vm_compute; reflexivity).
  assert (("l", Frozable.VRef 2) ∈ Frozable.dict o) as H2 by (by left).
  assert ("l" <> "_frozen") as H3 by discriminate.
  assert (Frozable.is_Frozable_instance h (Frozable.VRef 2) = Some 2) as H4
    by (vm_compute; reflexivity).
  assert (Frozable.unfreeze 1 h = Some (default h (Frozable.unfreeze 1 h)))
    as H5 by (vm_compute; reflexivity).
  split_and!; [exact H1|exact H2|exact H3|exact H4|exact H5| |].
  - vm_compute; reflexivity.
  - exact (proj1 (proj2 unfreeze_freezes_the_attributes) 1 o h _ "l" 2
             H1 H2 H3 H4 H5).
Defined.

(** A scope is entered from the root scope of the property, and left. *)
Lemma Scope_push_then_pop_witness :
  let sc := @mkScope 0 1 None [] [] in
  scopes world_bound !! 0 = Some sc
  /\ properties world_bound !! 1 = Some failing_property
  /\ scopes world_bound !! scope_COUNT world_bound = None
  /\ exists w' pd',
       (Scope_push 0 ;;; Scope_pop 0) world_bound = (w', Ok 0)
       /\ properties w' !! 1 = Some pd'
       /\ current_scope (pd_vars pd') = 0
       /\ local_vars (pd_vars pd') = local_vars (pd_vars failing_property)
       /\ scopes w' !! 0 = Some (mkScope 0 1 None [1] [])
       /\ scopes w' !! 1 = Some (mkScope 1 1 (Some 0) [] [])
       /\ scope_COUNT w' = 2.
Proof.
  cbv zeta.
  assert (scopes world_bound !! 0 = Some (mkScope 0 1 None [] [])) as H1
    by (vm_compute; reflexivity).
  assert (properties world_bound !! 1 = Some failing_property) as H2
    by (vm_compute; reflexivity).
  assert (scopes world_bound !! scope_COUNT world_bound = None) as H3
    by (vm_compute; reflexivity).
  split_and!; [exact H1|exact H2|exact H3|].
  exact (proj1 Scope_push_then_pop 0 (mkScope 0 1 None [] [])
           failing_property world_bound H1 H2 H3).
Defined.

(** A variable created with [create] has a scope. *)
Lemma local_variables_get_one_scope_witness :
  let w' := (LocalVars_create 1 "X" (Some LongType) world_bound).1 in
  LocalVars_check_scopes 1 world_bound = (world_bound, Ok tt)
  /\ LocalVars_create 1 "X" (Some LongType) world_bound = (w', Ok (1, "X"))
  /\ LocalVars_check_scopes 1 w' = (w', Ok tt).
Proof.
  cbv zeta.
  assert (LocalVars_check_scopes 1 world_bound = (world_bound, Ok tt)) as H1
    by (vm_compute; reflexivity).
  assert (LocalVars_create 1 "X" (Some LongType) world_bound
          = ((LocalVars_create 1 "X" (Some LongType) world_bound).1,
             Ok (1, "X"))) as H2
    by (apply result_of_outcome; vm_compute; reflexivity).
  split_and!; [exact H1|exact H2|].
  exact (proj1 (proj2 local_variables_get_one_scope) 1 "X" (Some LongType)
           world_bound _ _ H1 H2).
Defined.

(** The type of [Self] is set, and cannot be set again. *)
Lemma set_type_types_the_local_variable_witness :
  let w1 := (AbstractVariable_set_type 0 LongType world_bound).1 in
  AbstractVariable_set_type 0 LongType world_bound = (w1, Ok tt)
  /\ (exists av1, variables w1 !! 0 = Some av1 /\ _type av1 = Some LongType)
  /\ AbstractVariable_set_type 0 BoolType w1
     = (w1, Raise (AssertionError "Variable type cannot be set twice")).
Proof.
  cbv zeta.
  assert (AbstractVariable_set_type 0 LongType world_bound
          = ((AbstractVariable_set_type 0 LongType world_bound).1, Ok tt))
    as H1 by (vm_compute; reflexivity).
  split_and!; [exact H1| |].
  - exact (proj1 (proj1 set_type_types_the_local_variable 0 LongType
                    world_bound _ H1)).
  - exact (proj1 (proj2 (proj1 set_type_types_the_local_variable 0 LongType
                           world_bound _ H1)) BoolType).
Defined.




(** [get] inside [bind], on a world where no property is bound. *)
Lemma PropertyDef_get_follows_bind_witness :
  let w2 := set_current_properties [Some 1] world_before in
  PropertyDef_get
    (set_current_properties (current_properties world_before ++ [Some 1])
       world_before) = (w2, Ok (Some 1))
  /\ current_properties w2 = current_properties world_before ++ [Some 1]
  /\ PropertyDef_bind 1 _ PropertyDef_get world_before
     = (set_current_properties (current_properties world_before) w2,
        Ok (Some 1)).
Proof.
  cbv zeta.
  assert (PropertyDef_get
            (set_current_properties
               (current_properties world_before ++ [Some 1]) world_before)
          = (set_current_properties [Some 1] world_before, Ok (Some 1)))
    as H1 by reflexivity.
  assert (current_properties (set_current_properties [Some 1] world_before)
          = current_properties world_before ++ [Some 1]) as H2
    by reflexivity.
  split_and!; [exact H1|exact H2|].
  exact (proj2 (proj2 (proj2 (proj2 PropertyDef_get_follows_bind))) _ 1
           PropertyDef_get (Some 1) world_before _ H1 H2).
Defined.

(** [my_var] is bound to the name [X] while [failing_property] is
    constructed. *)
Lemma bind_is_scoped_witness :
  variables world_bound !! 7 = Some my_var
  /\ _type my_var = Some LongType
  /\ default None (last (current_properties world_bound)) = Some 1
  /\ properties world_bound !! 1 = Some failing_property
  /\ exists w3 e av3 pd3,
       _bind 7 (Some "X") _ (DynamicVariable_construct 7) world_bound
       = (w3, Ok e)
       /\ (construct_cache my_var !! (Some "X", Some LongType) = None ->
           e = VariableExpr (next_object world_bound) LongType (Some "X")
                 (Some 7))
       /\ variables w3 !! 7 = Some av3
       /\ _name av3 = _name my_var
       /\ construct_cache av3 !! (Some "X", Some LongType) = Some e
       /\ properties w3 !! 1 = Some pd3
       /\ dynvar_binding_stack pd3 = dynvar_binding_stack failing_property
       /\ current_properties w3 = current_properties world_bound
       /\ unbound 7 w3 = unbound 7 world_bound.
Proof.
  assert (variables world_bound !! 7 = Some my_var) as H1
    by (vm_compute; reflexivity).
  assert (properties world_bound !! 1 = Some failing_property) as H4
    by (vm_compute; reflexivity).
  split_and!; [exact H1|reflexivity|reflexivity|exact H4|].
  exact (bind_is_scoped 7 my_var LongType 1 failing_property "X" world_bound
           H1 eq_refl eq_refl H4).
Defined.

(** [failing_property] does not accept [my_var]: a reference to the
    variable is rejected while the property is constructed. *)
Lemma bind_default_resets_the_binding_witness :
  variables world_bound !! 7 = Some my_var
  /\ properties world_bound !! 1 = Some failing_property
  /\ default None (last (current_properties world_bound)) = Some 1
  /\ existsb (fun arg => bool_decide (arg_var arg = 7))
       (arguments failing_property) = false
  /\ bind_default 7 1 _ (DynamicVariable_construct 7) world_bound
     = (entered 7 1 None failing_property my_var world_bound,
        Raise (DiagnosticError
                 ("my_var is not bound in this context: please use the"
                  +:+ " .bind construct to bind it first."))).
Proof.
  assert (variables world_bound !! 7 = Some my_var) as H1
    by (vm_compute; reflexivity).
  assert (properties world_bound !! 1 = Some failing_property) as H2
    by (vm_compute; reflexivity).
  split_and!; [exact H1|exact H2|reflexivity|reflexivity|].
  exact (proj2 (bind_default_resets_the_binding 7 my_var 1 failing_property
                  world_bound H1 H2 eq_refl) eq_refl).
Defined.

(** [Self] has no type before a property is bound: it is typed inside
    [bind_type] only. *)
Lemma bind_type_types_the_variable_witness :
  variables world_before !! 0 = Some self_variable
  /\ _type self_variable = None
  /\ construct_cache self_variable !! (_name self_variable, None) = None
  /\ (exists w3 e av3,
        bind_type 0 (Some (NodeType 0)) _ (AbstractVariable_construct 0)
          world_before = (w3, Ok e)
        /\ (construct_cache self_variable
              !! (_name self_variable, Some (NodeType 0)) = None ->
            e = VariableExpr (next_object world_before) (NodeType 0)
                  (_name self_variable) (Some 0))
        /\ variables w3 !! 0 = Some av3
        /\ _type av3 = _type self_variable
        /\ construct_cache av3
             !! (_name self_variable, Some (NodeType 0)) = Some e)
  /\ exists w' msg,
       AbstractVariable_construct 0 world_before
       = (w', Raise (AssertionError msg)).
Proof.
  assert (variables world_before !! 0 = Some self_variable) as H1
    by (vm_compute; reflexivity).
  split_and!; [exact H1|reflexivity|reflexivity| |].
  - exact (proj1 (bind_type_types_the_variable 0 self_variable (NodeType 0)
                    world_before H1)).
  - exact (proj2 (bind_type_types_the_variable 0 self_variable (NodeType 0)
                    world_before H1) eq_refl eq_refl).
Defined.

(** The property [failing_property] while its type is inferred: the guard
    is set. *)
Definition guarded_property : PropertyDef :=
  set_in_type true failing_property.

Definition world_guarded : World :=
  sample_world [] guarded_property sample_variables.

(** A reference to the type of the property whose type is inferred is
    rejected, and the guard stays as the caller has set it. *)
Lemma type_inference_releases_its_guard_witness :
  let loop :=
    DiagnosticError
      ("Recursion loop in type inference for property Node.prop"
       +:+ ". Try to specify its return type explicitly.") in
  properties world_guarded !! 1 = Some guarded_property
  /\ constructed_expr guarded_property = None
  /\ in_type guarded_property = true
  /\ expected_type guarded_property = None
  /\ in_type_kept world_guarded
       (construct_and_type_expression None 2 1 world_guarded).1
  /\ construct_and_type_expression None 3 1 world_guarded
     = (world_guarded, Raise loop)
  /\ PropertyDef_type (construct_and_type_expression None 3) 1 world_guarded
     = (world_guarded, Raise loop).
Proof.
  cbv zeta.
  assert (properties world_guarded !! 1 = Some guarded_property) as H1
    by (vm_compute; reflexivity).
  pose proof (type_inference_releases_its_guard None 2 1 world_guarded)
    as [Hkept Hloop].
  destruct (Hloop guarded_property H1 eq_refl eq_refl) as [Hc Ht].
  split_and!; [exact H1|reflexivity|reflexivity|reflexivity|exact Hkept
              |exact Hc|exact (Ht eq_refl)].
Defined.

(** A literal node gets the result variable [Lit]; a second call gives a
    new reference to this variable, whatever name is asked for. *)
Lemma create_result_var_creates_one_variable_witness :
  let self := LiteralExpr 100 "X" LongType [] in
  let w := with_node 100 true world_bound in
  let w1 := (create_result_var self "Lit" w).1 in
  is_VariableExpr self = false
  /\ re_id self < next_object w
  /\ create_result_var self "Lit" w
     = (w1, Ok (VariableExpr 101 LongType (Some "Lit") None))
  /\ exists st1 rv l t,
       resolved w1 !! re_id self = Some st1
       /\ _result_var st1 = Some rv
       /\ (forall st rv0,
             resolved w !! re_id self = Some st ->
             _result_var st = Some rv0 ->
             rv = rv0 /\ properties w1 = properties w)
       /\ get_local_var rv w1 = (w1, Ok l)
       /\ lv_type l = Some t
       /\ VariableExpr 101 LongType (Some "Lit") None
          = VariableExpr (next_object w) t (Some (lv_name l)) None
       /\ forall name2,
            create_result_var self name2 w1
            = (with_node (next_object w1) true w1,
               Ok (VariableExpr (next_object w1) t (Some (lv_name l))
                     None)).
Proof.
  cbv zeta.
  assert (re_id (LiteralExpr 100 "X" LongType [])
          < next_object (with_node 100 true world_bound)) as H2
    by (vm_compute; lia).
  assert (create_result_var (LiteralExpr 100 "X" LongType []) "Lit"
            (with_node 100 true world_bound)
          = ((create_result_var (LiteralExpr 100 "X" LongType []) "Lit"
                (with_node 100 true world_bound)).1,
             Ok (VariableExpr 101 LongType (Some "Lit") None))) as H3
    by (apply result_of_outcome; vm_compute; reflexivity).
  split_and!; [reflexivity|exact H2|exact H3|].
  exact (proj2 (create_result_var_creates_one_variable
                  (LiteralExpr 100 "X" LongType []) "Lit"
                  (with_node 100 true world_bound)) _ _ eq_refl H2 H3).
Defined.

(** The cast that [render_pre] rejects for its missing result variable
    is marked as rendered all the same; a variable node is not. *)
Lemma render_pre_is_called_once_witness :
  let self := UncheckedCastExpr 100 (LiteralExpr 50 "X" LongType [])
                ArrayType in
  let st := mkREState None false None false None false in
  let w := with_node 100 false world_bound in
  let var := VariableExpr 100 LongType (Some "N") None in
  let st' := mkREState None true None false None false in
  let w' := with_node 100 true world_bound in
  let render :=
    render_pre (fun _ => ret EmptyString) (fun _ => ret "X")
      (fun _ => EmptyString) (fun _ => "UncheckedCastExpr") in
  resolved w !! re_id self = Some st
  /\ resolved w' !! re_id var = Some st'
  /\ render self (render self w).1
     = ((render self w).1,
        Raise (AssertionError
                 "UncheckedCastExpr.render_pre can be called only once"))
  /\ render var w' = (w', Ok EmptyString).
Proof.
  cbv zeta.
  assert (resolved (with_node 100 false world_bound)
          !! re_id (UncheckedCastExpr 100 (LiteralExpr 50 "X" LongType [])
                      ArrayType)
          = Some (mkREState None false None false None false)) as H1
    by (vm_compute; reflexivity).
  assert (resolved (with_node 100 true world_bound)
          !! re_id (VariableExpr 100 LongType (Some "N") None)
          = Some (mkREState None true None false None false)) as H2
    by (vm_compute; reflexivity).
  split_and!; [exact H1|exact H2| |].
  - refine (proj1 (proj1 (render_pre_is_called_once
                            (fun _ => ret EmptyString) (fun _ => ret "X")
                            (fun _ => EmptyString)
                            (fun _ => "UncheckedCastExpr") _ _ _ H1 eq_refl)
                     eq_refl _ _ _ _ _)).
    + apply maintains_ret, _.
    + apply maintains_ret, _.
    + apply surjective_pairing.
  - exact (proj2 (render_pre_is_called_once
                    (fun _ => ret EmptyString) (fun _ => ret "X")
                    (fun _ => EmptyString)
                    (fun _ => "UncheckedCastExpr") _ _ _ H2 eq_refl)
             EmptyString "X" eq_refl eq_refl eq_refl eq_refl eq_refl).
Defined.

(** A node of [node_variable] that is never read is selected for the
    warning on unused bindings, and no longer once the variable was
    ignored. *)
Lemma ignore_disables_the_unused_warning_witness :
  let w := with_node 100 true world_bound in
  let e := VariableExpr 100 (NodeType 2) (Some "N") (Some 5) in
  let w1 := (ignore [5] w).1 in
  (forall v, v ∈ [5] -> is_Some (variables w !! v))
  /\ unused_binding (e, false) w = (w, Ok true)
  /\ unused_binding (e, false) w1 = (w1, Ok false)
  /\ wrongly_used_binding (e, true) w1 = (w1, Ok true).
Proof.
  cbv zeta.
  assert (forall v, v ∈ [5] ->
            is_Some (variables (with_node 100 true world_bound) !! v))
    as H1.
  { intros v ->%list_elem_of_singleton. vm_compute. eauto. }
  destruct (ignore_disables_the_unused_warning [5]
              (with_node 100 true world_bound) H1)
    as (w1 & Hi & _ & _ & Hwarn).
  rewrite Hi. simpl fst.
  assert (5 ∈ [5]) as H5 by (apply list_elem_of_singleton; reflexivity).
  assert (is_Some (resolved (with_node 100 true world_bound) !! 100)) as H100
    by (vm_compute; eauto).
  split_and!; [exact H1|vm_compute; reflexivity| |].
  - exact (proj1 (Hwarn (VariableExpr 100 (NodeType 2) (Some "N") (Some 5))
                    5 false eq_refl H5 H100)).
  - exact (proj2 (Hwarn (VariableExpr 100 (NodeType 2) (Some "N") (Some 5))
                    5 true eq_refl H5 H100)).
Defined.

(** A block that pushes a scope and does not pop it: [use] makes the root
    scope current again. The child scope of [new_child] is left for its
    parent. *)
Lemma Scope_use_restores_the_current_scope_witness :
  let sc := mkScope 0 1 None [] [] in
  scopes world_bound !! 0 = Some sc
  /\ properties world_bound !! sc_vars sc = Some failing_property
  /\ scopes world_bound !! scope_COUNT world_bound = None
  /\ (exists w3,
        Scope_use 0 (fun s => Scope_push s) world_bound = (w3, Ok 1)
        /\ current_scope_of 1 w3 = Some 0)
  /\ (exists w3,
        Scope_new_child 0 (fun c => ret c) world_bound = (w3, Ok 1)
        /\ current_scope_of 1 w3 = Some 0).
Proof.
  cbv zeta.
  assert (scopes world_bound !! 0 = Some (mkScope 0 1 None [] [])) as H1
    by (vm_compute; reflexivity).
  assert (properties world_bound !! sc_vars (mkScope 0 1 None [] [])
          = Some failing_property) as H2 by (vm_compute; reflexivity).
  assert (scopes world_bound !! scope_COUNT world_bound = None) as H3
    by (vm_compute; reflexivity).
  pose proof (Scope_use_restores_the_current_scope 0 _ _ world_bound H1 H2)
    as [Huse Hchild].
  split_and!; [exact H1|exact H2|exact H3| |].
  - set (w_in := with_current_scope 1 0 failing_property world_bound).
    assert (Scope_push 0 w_in = ((Scope_push 0 w_in).1, Ok 1)) as Hblock
    by (apply result_of_outcome; vm_compute; reflexivity).
    assert (scopes (Scope_push 0 w_in).1 !! 0
            = Some (mkScope 0 1 None [1] [])) as Hsc2
      by (vm_compute; reflexivity).
    assert (exists pd2, properties (Scope_push 0 w_in).1 !! 1 = Some pd2)
      as [pd2 Hpd2] by (vm_compute; eauto).
    destruct (Huse _ (fun s => Scope_push s) _ _ Hblock _ pd2 Hsc2 eq_refl
                Hpd2) as (w3 & Hw3 & Hcur & _).
    exists w3. split; [exact Hw3|exact Hcur].
  - destruct (Hchild H3) as (w1 & Hpush & _ & Hnew).
    assert (w1 = (Scope_push 0 world_bound).1) as -> by (by rewrite Hpush).
    assert (scopes (Scope_push 0 world_bound).1 !! 0
            = Some (mkScope 0 1 None [1] [])) as Hsc2
      by (vm_compute; reflexivity).
    assert (exists pd2,
              properties (Scope_push 0 world_bound).1 !! 1 = Some pd2
              /\ scopes (Scope_push 0 world_bound).1
                 !! current_scope (pd_vars pd2)
                 = Some (mkScope 1 1 (Some 0) [] []))
      as (pd2 & Hpd2 & Hcur2) by (vm_compute; eauto).
    destruct (Hnew _ (fun c => ret c) _ _ eq_refl _ pd2 _ Hsc2 Hpd2 Hcur2)
      as (w3 & Hw3 & Hcur & _).
    exists w3. split; [exact Hw3|exact Hcur].
Defined.


(** [my_var.bind(1, my_var)] in [failing_property], which does not accept
    [my_var]: the reference inside the binding is the local variable of the
    binding, and [my_var] is unbound again after the construction. *)
Lemma construct_is_balanced_witness :
  let expr := PyExpr (Bind None (PyExpr (Variable_ 7)) (PyInt 1)
                        (PyExpr (Variable_ 7))) in
  let result := construct None 4 expr None None true world_bound in
  result
  = (result.1,
     Ok (DynamicVariableBindExpr 102 7 (1, "Bound_My_Var")
           (LiteralExpr 100 "1" LongType [])
           (VariableExpr 101 LongType (Some "Bound_My_Var") (Some 7))))
  /\ unbound 7 world_bound = true
  /\ unbound 7 result.1 = unbound 7 world_bound.
Proof.
  cbv zeta.
  assert (construct None 4
            (PyExpr (Bind None (PyExpr (Variable_ 7)) (PyInt 1)
                       (PyExpr (Variable_ 7)))) None None true world_bound
          = ((construct None 4
                (PyExpr (Bind None (PyExpr (Variable_ 7)) (PyInt 1)
                           (PyExpr (Variable_ 7)))) None None true
                world_bound).1,
             Ok (DynamicVariableBindExpr 102 7 (1, "Bound_My_Var")
                   (LiteralExpr 100 "1" LongType [])
                   (VariableExpr 101 LongType (Some "Bound_My_Var")
                      (Some 7))))) as H1
    by (apply result_of_outcome; vm_compute; reflexivity).
  split_and!; [exact H1|vm_compute; reflexivity|].
  exact (proj2 (construct_is_balanced None 4 _ None None true world_bound _ _
                  H1) 7).
Defined.

(** A property that accepts [env_var] and whose expression is a reference
    to it: its construction returns, and leaves no property bound, [Self]
    without a type and [env_var] unbound, as they were. *)
Definition accepting_property : PropertyDef :=
  sample_property (Some (PyExpr (Variable_ 8))) None
    [mkArgument "Env" LongType true true 8] [8].

Definition world_accepting : World :=
  sample_world [] accepting_property sample_variables.

Lemma type_inference_restores_the_bindings_witness :
  let result := construct_and_type_expression None 3 1 world_accepting in
  result = (result.1, Ok tt)
  /\ constructed_expr <$> properties result.1 !! 1
     = Some (Some (VariableExpr 100 LongType (Some "Env") (Some 8)))
  /\ current_properties result.1 = current_properties world_accepting
  /\ _type <$> variables result.1 !! Self
     = _type <$> variables world_accepting !! Self
  /\ unbound 8 result.1 = unbound 8 world_accepting.
Proof.
  cbv zeta.
  assert (construct_and_type_expression None 3 1 world_accepting
          = ((construct_and_type_expression None 3 1 world_accepting).1,
             Ok tt)) as H1
    by (apply result_of_outcome; vm_compute; reflexivity).
  pose proof (type_inference_restores_the_bindings None 3 1 world_accepting
                _ H1) as (Hc & Hs & _ & Hu).
  split_and!; [exact H1|vm_compute; reflexivity|exact Hc|exact Hs|].
  exact (Hu 8).
Defined.
